(** * Interactive Assessment Platform: grading and exam lifecycle

    A shallow embedding of [app.py] (Flask + Flask-SQLAlchemy over SQLite)
    and of the part of Python's [difflib.SequenceMatcher] that
    [grade_answer_text] calls, followed by the properties of the exam
    lifecycle and of the grader.

    Conventions of the embedding:
    - Python [int] is [Z]; Python [str] is [string], read as a sequence of
      code points below 256; [datetime] is a number of microseconds ([Z]),
      [timedelta(minutes=m)] is [m * 60_000_000].
    - a table is a finite map from the primary key to the row;
      [query.all()] lists the rows of the map.
    - the similarity ratio [2.0 * M / T] is an exact rational.  The float
      division is correctly rounded and rounding is monotone, so comparing
      the float with the literal [0.60] agrees with comparing the rational
      with 3/5 whenever [T < 2^50]. *)

From stdpp Require Import base tactics option list numbers gmap strings pretty sorting.
From Stdlib Require Import Ascii QArith.
Close Scope Q_scope.
Local Open Scope Z_scope.

(** ** Text normalisation: [str.strip()] and [str.lower()] *)

Module Text.

Definition code (c : ascii) : Z := Z.of_N (N_of_ascii c).

(** [str.isspace] on the code points below 256. *)
Definition isspace (c : ascii) : bool :=
  let n := code c in
  ((9 <=? n) && (n <=? 13)) || ((28 <=? n) && (n <=? 32))
  || (n =? 133) || (n =? 160).

(** [str.lower] on one code point below 256: A-Z, and the Latin-1
    capitals 192..222 except the multiplication sign 215. *)
Definition lower_char (c : ascii) : ascii :=
  let n := code c in
  if ((65 <=? n) && (n <=? 90))
     || ((192 <=? n) && (n <=? 222) && negb (n =? 215))
  then ascii_of_N (Z.to_N (n + 32))
  else c.

Fixpoint lstrip (s : list ascii) : list ascii :=
  match s with
  | c :: s' => if isspace c then lstrip s' else s
  | [] => []
  end.

Definition rstrip (s : list ascii) : list ascii := rev (lstrip (rev s)).

Definition strip (s : list ascii) : list ascii := rstrip (lstrip s).

Definition lower (s : list ascii) : list ascii := map lower_char s.

End Text.

(** ** [difflib.SequenceMatcher(None, a, b)] with the default [autojunk] *)

Module Difflib.

(** Python's [while cond: body], bounded by [fuel]; every use below comes
    with a measure showing that the loop has left before the fuel is
    spent ([while_exits]). *)
Fixpoint while {S : Type} (fuel : nat) (cond : S → bool) (body : S → S)
    (s : S) : S :=
  match fuel with
  | O => s
  | Datatypes.S fuel' =>
      if cond s then while fuel' cond body (body s) else s
  end.

(** [enumerate(b)] *)
Definition enumerate {A} (l : list A) : list (Z * A) :=
  zip (seqZ 0 (Z.of_nat (length l))) l.

(** [a[i]] for an index that is in range. *)
Definition item (l : list ascii) (i : Z) : option ascii :=
  if i <? 0 then None else l !! Z.to_nat i.

Record SequenceMatcher := {
  a : list ascii;
  b : list ascii;
  b2j : gmap ascii (list Z);
  bjunk : gset ascii;
}.

(** [__chain_b]: index the positions of every element of [b], then drop
    the popular elements when [b] has 200 elements or more.  [isjunk] is
    [None], so the junk set stays empty. *)
Definition chain_b_index (b : list ascii) : gmap ascii (list Z) :=
  fold_left
    (λ (b2j : gmap ascii (list Z)) '(i, elt),
       let indices := default [] (b2j !! elt) in
       <[elt := indices ++ [i]]> b2j)
    (enumerate b) ∅.

Definition popular (b2j : gmap ascii (list Z)) (n : Z) : gset ascii :=
  if 200 <=? n then
    let ntest := n / 100 + 1 in
    dom (filter (λ kv, ntest < Z.of_nat (length kv.2)) b2j)
  else ∅.

Definition chain_b (b : list ascii) : gmap ascii (list Z) :=
  let b2j := chain_b_index b in
  let n := Z.of_nat (length b) in
  filter (λ kv, kv.1 ∉ popular b2j n) b2j.

Definition new_matcher (a b : list ascii) : SequenceMatcher :=
  {| a := a; b := b; b2j := chain_b b; bjunk := ∅ |}.

Definition isbjunk (m : SequenceMatcher) (c : ascii) : bool :=
  bool_decide (c ∈ bjunk m).

Definition Match : Type := Z * Z * Z.
Definition size (x : Match) : Z := x.2.

(** The inner [for j in b2j.get(a[i], nothing)] of [find_longest_match],
    with its [continue] and [break]. *)
Fixpoint scan_row (js : list Z) (i blo bhi : Z) (j2len : gmap Z Z)
    (newj2len : gmap Z Z) (best : Match) : gmap Z Z * Match :=
  match js with
  | [] => (newj2len, best)
  | j :: js' =>
      if j <? blo then scan_row js' i blo bhi j2len newj2len best
      else if bhi <=? j then (newj2len, best)
      else
        let k := default 0 (j2len !! (j - 1)) + 1 in
        let newj2len := <[j := k]> newj2len in
        let best := if size best <? k then (i - k + 1, j - k + 1, k)
                    else best in
        scan_row js' i blo bhi j2len newj2len best
  end.

(** The outer [for i in range(alo, ahi)]. *)
Definition scan_rows (m : SequenceMatcher) (alo ahi blo bhi : Z)
    : gmap Z Z * Match :=
  fold_left
    (λ '(j2len, best) i,
       let js := match item (a m) i with
                 | Some x => default [] (b2j m !! x)
                 | None => []
                 end in
       scan_row js i blo bhi j2len ∅ best)
    (seqZ alo (ahi - alo)) (∅, (alo, blo, 0)).

(** The four extension loops; [junk] tells whether the loop takes junk
    elements ([isbjunk(..)]) or the others ([not isbjunk(..)]). *)
Definition back_cond (m : SequenceMatcher) (junk : bool) (alo blo : Z)
    (x : Match) : bool :=
  let '(besti, bestj, bestsize) := x in
  (alo <? besti) && (blo <? bestj) &&
  match item (b m) (bestj - 1), item (a m) (besti - 1) with
  | Some y, Some x => bool_decide (isbjunk m y = junk) && bool_decide (x = y)
  | _, _ => false
  end.

Definition back_body (x : Match) : Match :=
  let '(besti, bestj, bestsize) := x in (besti - 1, bestj - 1, bestsize + 1).

Definition forth_cond (m : SequenceMatcher) (junk : bool) (ahi bhi : Z)
    (x : Match) : bool :=
  let '(besti, bestj, bestsize) := x in
  (besti + bestsize <? ahi) && (bestj + bestsize <? bhi) &&
  match item (b m) (bestj + bestsize), item (a m) (besti + bestsize) with
  | Some y, Some x => bool_decide (isbjunk m y = junk) && bool_decide (x = y)
  | _, _ => false
  end.

Definition forth_body (x : Match) : Match :=
  let '(besti, bestj, bestsize) := x in (besti, bestj, bestsize + 1).

Definition extend_back (m : SequenceMatcher) junk alo blo (x : Match) :=
  while (Z.to_nat (x.1.1 - alo)) (back_cond m junk alo blo) back_body x.

Definition extend_forth (m : SequenceMatcher) junk ahi bhi (x : Match) :=
  while (Z.to_nat (ahi - (x.1.1 + size x))) (forth_cond m junk ahi bhi)
    forth_body x.

Definition find_longest_match (m : SequenceMatcher) (alo ahi blo bhi : Z)
    : Match :=
  let best := (scan_rows m alo ahi blo bhi).2 in
  let best := extend_back m false alo blo best in
  let best := extend_forth m false ahi bhi best in
  let best := extend_back m true alo blo best in
  let best := extend_forth m true ahi bhi best in
  best.

(** [get_matching_blocks]: the work list.  Python's [queue] is a list used
    as a stack through [append] and [pop]; here its last element is the
    head. *)
Definition Range : Type := Z * Z * Z * Z.

Definition queue_cond (st : list Range * list Match) : bool :=
  match st.1 with [] => false | _ => true end.

Definition queue_body (m : SequenceMatcher) (st : list Range * list Match)
    : list Range * list Match :=
  match st with
  | ([], matching_blocks) => st
  | ((alo, ahi, blo, bhi) :: queue, matching_blocks) =>
      let x := find_longest_match m alo ahi blo bhi in
      let '(i, j, k) := x in
      if k =? 0 then (queue, matching_blocks)
      else
        let queue := if (alo <? i) && (blo <? j)
                     then (alo, i, blo, j) :: queue else queue in
        let queue := if (i + k <? ahi) && (j + k <? bhi)
                     then (i + k, ahi, j + k, bhi) :: queue else queue in
        (queue, matching_blocks ++ [x])
  end.

Definition queue_fuel (m : SequenceMatcher) : nat :=
  Datatypes.S (2 * length (a m)).

Definition queue_loop (m : SequenceMatcher) : list Range * list Match :=
  let la := Z.of_nat (length (a m)) in
  let lb := Z.of_nat (length (b m)) in
  while (queue_fuel m) queue_cond (queue_body m) ([(0, la, 0, lb)], []).

(** [matching_blocks.sort()]: tuples compare lexicographically. *)
Definition match_leb (x y : Match) : bool :=
  let '(i1, j1, k1) := x in
  let '(i2, j2, k2) := y in
  (i1 <? i2) || ((i1 =? i2) && ((j1 <? j2) || ((j1 =? j2) && (k1 <=? k2)))).

Fixpoint insert_sorted (x : Match) (l : list Match) : list Match :=
  match l with
  | [] => [x]
  | y :: l' => if match_leb x y then x :: l else y :: insert_sorted x l'
  end.

Definition sort (l : list Match) : list Match :=
  foldr insert_sorted [] l.

(** Collapsing adjacent equal blocks. *)
Definition collapse_step (st : Match * list Match) (x2 : Match)
    : Match * list Match :=
  let '((i1, j1, k1), non_adjacent) := st in
  let '(i2, j2, k2) := x2 in
  if (i1 + k1 =? i2) && (j1 + k1 =? j2) then ((i1, j1, k1 + k2), non_adjacent)
  else
    let non_adjacent :=
      if k1 =? 0 then non_adjacent else non_adjacent ++ [(i1, j1, k1)] in
    ((i2, j2, k2), non_adjacent).

Definition get_matching_blocks (m : SequenceMatcher) : list Match :=
  let la := Z.of_nat (length (a m)) in
  let lb := Z.of_nat (length (b m)) in
  let matching_blocks := sort (queue_loop m).2 in
  let '((i1, j1, k1), non_adjacent) :=
    fold_left collapse_step matching_blocks ((0, 0, 0), []) in
  let non_adjacent :=
    if k1 =? 0 then non_adjacent else non_adjacent ++ [(i1, j1, k1)] in
  non_adjacent ++ [(la, lb, 0)].

Definition sum_sizes (l : list Match) : Z := foldr (λ x acc, size x + acc) 0 l.

Definition _calculate_ratio (matches length : Z) : Q :=
  if length =? 0 then 1%Q else Qmake (2 * matches) (Z.to_pos length).

Definition ratio (m : SequenceMatcher) : Q :=
  let matches := sum_sizes (get_matching_blocks m) in
  _calculate_ratio matches (Z.of_nat (length (a m)) + Z.of_nat (length (b m))).

End Difflib.

(** ** The grader *)

Definition grade_answer_text (student_answer model_answer : string) : bool * Z :=
  if bool_decide (student_answer = EmptyString) then (false, 0)
  else
    let s := Text.lower (Text.strip (String.list_ascii_of_string student_answer)) in
    let m := Text.lower (Text.strip (String.list_ascii_of_string model_answer)) in
    let similarity := Difflib.ratio (Difflib.new_matcher s m) in
    let is_correct := Qle_bool (6 # 10) similarity in
    let score := if is_correct then 1 else 0 in
    (is_correct, score).


(** ** The database schema

    One record per model class, without the primary key: a table maps the
    primary key to the row, and a loaded object is the pair of both.
    Columns declared [nullable=False] have no [option]; of the others,
    those that every insert of the program fills ([status], [total_score],
    [duration_minutes], [created_at], [is_correct], [score]) have none
    either.  SQLite does not enforce the foreign keys. *)

Module Question.
Record t := mk {
  question_text : string;
  model_answer : string;
  created_at : Z;
}.
End Question.

Module Exam.
Record t := mk {
  student_id : Z;
  start_time : option Z;
  end_time : option Z;
  total_score : Z;
  status : string;
  duration_minutes : Z;
  created_at : Z;
}.
End Exam.

Module ExamQuestion.
Record t := mk {
  exam_id : Z;
  question_id : Z;
  question_order : Z;
}.
End ExamQuestion.

Module ExamAnswer.
Record t := mk {
  exam_id : Z;
  question_id : Z;
  student_id : Z;
  student_answer : option string;
  is_correct : bool;
  score : Z;
}.
End ExamAnswer.

Module AuditLog.
Record t := mk {
  student_id : option Z;
  action : string;
  timestamp : Z;
}.
End AuditLog.

Record Store := {
  questions : gmap Z Question.t;
  exams : gmap Z Exam.t;
  exam_questions : gmap Z ExamQuestion.t;
  exam_answers : gmap Z ExamAnswer.t;
  audit_logs : gmap Z AuditLog.t;
}.

(** The key SQLite gives a new row: one more than the largest in use. *)
Definition next_id {A} (table : gmap Z A) : Z :=
  1 + foldr Z.max 0 (map fst (map_to_list table)).

(** ** Requests: a state and exception monad

    [session] is what the queries of the running request see, [committed]
    what [db.session.commit()] has made durable.  A request that ends in an
    exception leaves [committed] behind: Flask-SQLAlchemy drops the session,
    and with it every change since the last commit. *)

Inductive exn :=
| IntegrityError
| AttributeError
| TypeError
| HTTPException (code : Z).

Inductive result (A : Type) :=
| Return (a : A)
| Raise (e : exn).
Arguments Return {A} a.
Arguments Raise {A} e.

Record World := {
  committed : Store;
  session : Store;
  flashes : list (string * string);
}.

Definition M (A : Type) : Type := World → result A * World.

Definition ret {A} (a : A) : M A := λ w, (Return a, w).

Definition bind {A B} (c : M A) (k : A → M B) : M B :=
  λ w, match c w with
       | (Return a, w') => k a w'
       | (Raise e, w') => (Raise e, w')
       end.

Definition raise {A} (e : exn) : M A := λ w, (Raise e, w).

Declare Scope req_scope.
Delimit Scope req_scope with req.
Notation "x <- c ;; k" := (bind c (λ x, k))
  (at level 100, c at next level, right associativity) : req_scope.
Notation "c ;; k" := (bind c (λ _, k))
  (at level 100, right associativity) : req_scope.
Local Open Scope req_scope.

Fixpoint for_each {A} (l : list A) (body : A → M unit) : M unit :=
  match l with
  | [] => ret tt
  | x :: l' => body x ;; for_each l' body
  end.

Fixpoint for_fold {A S} (l : list A) (body : S → A → M S) (s : S) : M S :=
  match l with
  | [] => ret s
  | x :: l' => s' <- body s x ;; for_fold l' body s'
  end.

Definition get_session : M Store := λ w, (Return (session w), w).

Definition put_session (st : Store) : M unit :=
  λ w, (Return tt,
        {| committed := committed w; session := st; flashes := flashes w |}).

Definition commit : M unit :=
  λ w, (Return tt,
        {| committed := session w; session := session w;
           flashes := flashes w |}).

Definition flash (message category : string) : M unit :=
  λ w, (Return tt,
        {| committed := committed w; session := session w;
           flashes := flashes w ++ [(message, category)] |}).

Definition abort {A} (code : Z) : M A := raise (HTTPException code).

(** What a request leaves: its value or exception, the committed store and
    the flashed messages. *)
Record Outcome (A : Type) := {
  value : result A;
  db : Store;
  flashed : list (string * string);
}.
Arguments value {A} o.
Arguments db {A} o.
Arguments flashed {A} o.

Definition run {A} (c : M A) (st : Store) : Outcome A :=
  let '(r, w) := c {| committed := st; session := st; flashes := [] |} in
  {| value := r; db := committed w; flashed := flashes w |}.

(** *** Queries *)

Definition Question_get (id : Z) : M (option (Z * Question.t)) :=
  st <- get_session ;; ret ((λ q, (id, q)) <$> questions st !! id).

Definition Question_all : M (list (Z * Question.t)) :=
  st <- get_session ;; ret (map_to_list (questions st)).

Definition Exam_get (id : Z) : M (option (Z * Exam.t)) :=
  st <- get_session ;; ret ((λ e, (id, e)) <$> exams st !! id).

Definition Exam_get_or_404 (id : Z) : M (Z * Exam.t) :=
  exam <- Exam_get id ;;
  match exam with
  | Some exam => ret exam
  | None => abort 404
  end.

Definition Exam_filter_by (student_id : Z) (status : string)
    : M (list (Z * Exam.t)) :=
  st <- get_session ;;
  ret (filter (λ x, Exam.student_id x.2 = student_id ∧ Exam.status x.2 = status)
         (map_to_list (exams st))).

Definition ExamQuestion_filter_by (exam_id : Z)
    : M (list (Z * ExamQuestion.t)) :=
  st <- get_session ;;
  ret (filter (λ x, ExamQuestion.exam_id x.2 = exam_id)
         (map_to_list (exam_questions st))).

Definition ExamAnswer_filter_by (exam_id : Z) : M (list (Z * ExamAnswer.t)) :=
  st <- get_session ;;
  ret (filter (λ x, ExamAnswer.exam_id x.2 = exam_id)
         (map_to_list (exam_answers st))).

Definition ExamAnswer_first (exam_id question_id : Z)
    : M (option (Z * ExamAnswer.t)) :=
  st <- get_session ;;
  ret (head (filter (λ x, ExamAnswer.exam_id x.2 = exam_id
                          ∧ ExamAnswer.question_id x.2 = question_id)
               (map_to_list (exam_answers st)))).

(** *** Writes: [db.session.add(obj)]

    For a loaded object whose attributes were assigned, an UPDATE of its
    row; for a new object, an INSERT.  The statement is issued here and not
    at the next flush: between an [add] and the flush that follows, the
    program only adds further objects. *)

Definition with_exams (f : gmap Z Exam.t → gmap Z Exam.t) (st : Store) : Store :=
  {| questions := questions st; exams := f (exams st);
     exam_questions := exam_questions st; exam_answers := exam_answers st;
     audit_logs := audit_logs st |}.

Definition with_exam_questions
    (f : gmap Z ExamQuestion.t → gmap Z ExamQuestion.t) (st : Store) : Store :=
  {| questions := questions st; exams := exams st;
     exam_questions := f (exam_questions st); exam_answers := exam_answers st;
     audit_logs := audit_logs st |}.

Definition with_exam_answers
    (f : gmap Z ExamAnswer.t → gmap Z ExamAnswer.t) (st : Store) : Store :=
  {| questions := questions st; exams := exams st;
     exam_questions := exam_questions st; exam_answers := f (exam_answers st);
     audit_logs := audit_logs st |}.

Definition with_audit_logs
    (f : gmap Z AuditLog.t → gmap Z AuditLog.t) (st : Store) : Store :=
  {| questions := questions st; exams := exams st;
     exam_questions := exam_questions st; exam_answers := exam_answers st;
     audit_logs := f (audit_logs st) |}.

Definition modify_session (f : Store → Store) : M unit :=
  st <- get_session ;; put_session (f st).

Definition Exam_update (id : Z) (e : Exam.t) : M unit :=
  modify_session (with_exams (insert id e)).

Definition Exam_insert (e : Exam.t) : M Z :=
  st <- get_session ;;
  let id := next_id (exams st) in
  Exam_update id e ;; ret id.

Definition ExamQuestion_insert (eq : ExamQuestion.t) : M unit :=
  modify_session (with_exam_questions (λ t, <[next_id t := eq]> t)).

Definition ExamAnswer_update (id : Z) (ans : ExamAnswer.t) : M unit :=
  modify_session (with_exam_answers (insert id ans)).

(** A new [ExamAnswer(...)]: [student_id] is the keyword argument that the
    caller may leave out; the column is NOT NULL, and so the INSERT of an
    object without it fails. *)
Definition ExamAnswer_insert (exam_id question_id : Z) (student_id : option Z)
    (student_answer : option string) : M unit :=
  match student_id with
  | None => raise IntegrityError
  | Some student_id =>
      st <- get_session ;;
      ExamAnswer_update (next_id (exam_answers st))
        {| ExamAnswer.exam_id := exam_id;
           ExamAnswer.question_id := question_id;
           ExamAnswer.student_id := student_id;
           ExamAnswer.student_answer := student_answer;
           ExamAnswer.is_correct := false;
           ExamAnswer.score := 0 |}
  end.

Definition AuditLog_insert (log : AuditLog.t) : M unit :=
  modify_session (with_audit_logs (λ t, <[next_id t := log]> t)).

(** ** The application

    Every [datetime.utcnow()] of one request reads the same instant [now].
    [http_session] is the [student_id] of the Flask session, if any. *)

Inductive url :=
| url_login
| url_student_dashboard
| url_exam_page (exam_id : Z)
| url_results_page (exam_id : Z).

Record results_data := {
  rd_exam_id : Z;
  rd_total_score : Z;
  max_score : Z;
  correct_count : Z;
  incorrect_count : Z;
  topics : list string;
  topic_correct : list Z;
  topic_total : list Z;
}.

Inductive response :=
| redirect (target : url)
| render_exam (exam : Z * Exam.t) (time_remaining : Z)
| json_auto_submitted (target : url)
| json_invalid_payload
| json_graded (total_score : Z) (target : url)
| json_results (data : results_data).

Definition login_required_student (f : Z → M response)
    (http_session : option Z) : M response :=
  match http_session with
  | None =>
      flash "Please log in to continue." "warning" ;;
      ret (redirect url_login)
  | Some student_id => f student_id
  end.

Definition add_log (now : Z) (student_id : Z) (action : string) : M unit :=
  AuditLog_insert {| AuditLog.student_id := Some student_id;
                     AuditLog.action := action;
                     AuditLog.timestamp := now |} ;;
  commit.

(** [e.status = "completed"; e.end_time = datetime.utcnow()] *)
Definition force_completed (now : Z) (e : Exam.t) : Exam.t :=
  {| Exam.student_id := Exam.student_id e;
     Exam.start_time := Exam.start_time e;
     Exam.end_time := Some now;
     Exam.total_score := Exam.total_score e;
     Exam.status := "completed";
     Exam.duration_minutes := Exam.duration_minutes e;
     Exam.created_at := Exam.created_at e |}.

(** The instance that [create_exam_for_student] builds. *)
Definition new_exam (now : Z) (student_id duration_minutes : Z) : Exam.t :=
  {| Exam.student_id := student_id;
     Exam.start_time := Some now;
     Exam.end_time := None;
     Exam.total_score := 0;
     Exam.status := "in-progress";
     Exam.duration_minutes := duration_minutes;
     Exam.created_at := now |}.

Section Composer.

(** [random.sample(population, k)]: any function will do. *)
Variable sample : list (Z * Question.t) → Z → list (Z * Question.t).

Definition create_exam_for_student (now : Z) (student_id : Z)
    (num_questions duration_minutes : Z) : M (option (Z * Exam.t)) :=
  let exam := new_exam now student_id duration_minutes in
  exam_id <- Exam_insert exam ;;
  commit ;;
  all_qs <- Question_all ;;
  match all_qs with
  | [] => ret None
  | _ =>
      let selected :=
        sample all_qs (Z.min num_questions (Z.of_nat (length all_qs))) in
      for_each (zip (seqZ 1 (Z.of_nat (length selected))) selected)
        (λ '(idx, q),
           ExamQuestion_insert {| ExamQuestion.exam_id := exam_id;
                                  ExamQuestion.question_id := q.1;
                                  ExamQuestion.question_order := idx |}) ;;
      commit ;;
      add_log now student_id
        ("Started exam " +:+ pretty exam_id +:+ " with "
         +:+ pretty (length selected) +:+ " questions") ;;
      ret (Some (exam_id, exam))
  end.

Definition start_exam (now : Z) : option Z → M response :=
  login_required_student (λ student_id,
    old_exams <- Exam_filter_by student_id "in-progress" ;;
    for_each old_exams (λ e, Exam_update e.1 (force_completed now e.2)) ;;
    commit ;;
    exam <- create_exam_for_student now student_id 50 60 ;;
    match exam with
    | None =>
        flash "No questions available." "danger" ;;
        ret (redirect url_student_dashboard)
    | Some exam => ret (redirect (url_exam_page exam.1))
    end).

End Composer.

(** [ans.is_correct = is_correct; ans.score = score] *)
Definition graded (ans : ExamAnswer.t) (is_correct : bool) (score : Z)
    : ExamAnswer.t :=
  {| ExamAnswer.exam_id := ExamAnswer.exam_id ans;
     ExamAnswer.question_id := ExamAnswer.question_id ans;
     ExamAnswer.student_id := ExamAnswer.student_id ans;
     ExamAnswer.student_answer := ExamAnswer.student_answer ans;
     ExamAnswer.is_correct := is_correct;
     ExamAnswer.score := score |}.

(** [exam.total_score = ...; exam.status = ...], and [exam.end_time = ...]
    where [end_time] is given. *)
Definition closed (exam : Exam.t) (total_score : Z) (status : string)
    (end_time : option Z) : Exam.t :=
  {| Exam.student_id := Exam.student_id exam;
     Exam.start_time := Exam.start_time exam;
     Exam.end_time := from_option Some (Exam.end_time exam) end_time;
     Exam.total_score := total_score;
     Exam.status := status;
     Exam.duration_minutes := Exam.duration_minutes exam;
     Exam.created_at := Exam.created_at exam |}.

(** The body of [for ans in answers] in [grade_exam]. *)
Definition grade_exam_body (total_score : Z) (ans : Z * ExamAnswer.t) : M Z :=
  q <- Question_get (ExamAnswer.question_id ans.2) ;;
  match q with
  | None => ret total_score
  | Some q =>
      let '(is_correct, score) :=
        grade_answer_text
          (default EmptyString (ExamAnswer.student_answer ans.2))
          (Question.model_answer q.2) in
      ExamAnswer_update ans.1 (graded ans.2 is_correct score) ;;
      ret (total_score + score)
  end.

Definition grade_exam (exam_id : Z) : M Z :=
  exam <- Exam_get exam_id ;;
  answers <- ExamAnswer_filter_by exam_id ;;
  total_score <- for_fold answers grade_exam_body 0 ;;
  match exam with
  | None => raise AttributeError
  | Some exam =>
      Exam_update exam.1 (closed exam.2 total_score "completed" None) ;;
      commit ;;
      ret total_score
  end.

Definition timedelta_minutes (minutes : Z) : Z := minutes * 60000000.

Definition check_time_allowed (now : Z) (exam : Z * Exam.t) : bool :=
  match Exam.start_time exam.2 with
  | None => false
  | Some start_time =>
      let limit := start_time + timedelta_minutes (Exam.duration_minutes exam.2) in
      now <=? limit
  end.

Definition auto_submit_exam (now : Z) (exam : Z * Exam.t) : M Z :=
  q_links <- ExamQuestion_filter_by exam.1 ;;
  answers <- ExamAnswer_filter_by exam.1 ;;
  let existing_qids : gset Z :=
    list_to_set (map (λ a, ExamAnswer.question_id a.2) answers) in
  for_each q_links
    (λ ql,
       if decide (ExamQuestion.question_id ql.2 ∈ existing_qids) then ret tt
       else ExamAnswer_insert exam.1 (ExamQuestion.question_id ql.2) None
              (Some EmptyString)) ;;
  commit ;;
  total <- grade_exam exam.1 ;;
  exam <- Exam_get exam.1 ;;
  match exam with
  | None => raise AttributeError
  | Some exam =>
      Exam_update exam.1 (closed exam.2 total "auto-submitted" (Some now)) ;;
      commit ;;
      add_log now (Exam.student_id exam.2)
        ("Exam " +:+ pretty exam.1 +:+ " auto-submitted with score "
         +:+ pretty total) ;;
      ret total
  end.

(** [int((limit - now).total_seconds())]: [int] rounds towards zero. *)
Definition remaining_seconds (limit now : Z) : Z :=
  Z.quot (limit - now) 1000000.

Definition exam_page (now : Z) (exam_id : Z) : option Z → M response :=
  login_required_student (λ student_id,
    exam <- Exam_get_or_404 exam_id ;;
    if decide (Exam.student_id exam.2 ≠ student_id) then abort 403
    else
      match Exam.start_time exam.2 with
      | None => raise TypeError
      | Some start_time =>
          let limit :=
            start_time + timedelta_minutes (Exam.duration_minutes exam.2) in
          let remaining := remaining_seconds limit now in
          if remaining <? 0 then
            (if decide (Exam.status exam.2 = "in-progress")
             then auto_submit_exam now exam ;; ret tt
             else ret tt) ;;
            ret (redirect (url_results_page exam_id))
          else ret (render_exam exam remaining)
      end).

(** One entry of the [answers] list of the JSON payload.  [question_id] is
    [None] for a missing key and for [null]; [answer] is [None] for a
    missing key, [Some None] for [null]. *)
Record answer_item := {
  item_question_id : option Z;
  item_answer : option (option string);
}.

(** [request.get_json()]: [None] when there is no (or an empty) object,
    [Some None] when the object has no ["answers"] key. *)
Definition payload : Type := option (option (list answer_item)).

(** [existing.student_answer = ans_text] *)
Definition answered (ans : ExamAnswer.t) (ans_text : option string)
    : ExamAnswer.t :=
  {| ExamAnswer.exam_id := ExamAnswer.exam_id ans;
     ExamAnswer.question_id := ExamAnswer.question_id ans;
     ExamAnswer.student_id := ExamAnswer.student_id ans;
     ExamAnswer.student_answer := ans_text;
     ExamAnswer.is_correct := ExamAnswer.is_correct ans;
     ExamAnswer.score := ExamAnswer.score ans |}.

(** The body of [for item in answers] in [submit_exam]. *)
Definition submit_exam_upsert_body (exam : Z * Exam.t) (item : answer_item)
    : M unit :=
  let qid := item_question_id item in
  let ans_text := default (Some EmptyString) (item_answer item) in
  match qid with
  | None => ret tt
  | Some qid =>
      existing <- ExamAnswer_first exam.1 qid ;;
      match existing with
      | Some existing =>
          ExamAnswer_update existing.1 (answered existing.2 ans_text)
      | None =>
          ExamAnswer_insert exam.1 qid (Some (Exam.student_id exam.2)) ans_text
      end
  end.

(** The body of [for ans in exam_answers] in [submit_exam]: the same as
    in [grade_exam], without the test of [q]. *)
Definition submit_exam_grade_body (total_score : Z) (ans : Z * ExamAnswer.t)
    : M Z :=
  q <- Question_get (ExamAnswer.question_id ans.2) ;;
  match q with
  | None => raise AttributeError
  | Some q =>
      let '(is_correct, score) :=
        grade_answer_text
          (default EmptyString (ExamAnswer.student_answer ans.2))
          (Question.model_answer q.2) in
      ExamAnswer_update ans.1 (graded ans.2 is_correct score) ;;
      ret (total_score + score)
  end.

Definition submit_exam (now : Z) (exam_id : Z) (data : payload)
    : option Z → M response :=
  login_required_student (λ student_id,
    exam <- Exam_get_or_404 exam_id ;;
    if decide (Exam.student_id exam.2 ≠ student_id) then abort 403
    else if negb (check_time_allowed now exam) then
      auto_submit_exam now exam ;;
      flash "Time expired; exam auto-submitted." "warning" ;;
      ret (json_auto_submitted (url_results_page exam_id))
    else
      match data with
      | None | Some None => ret json_invalid_payload
      | Some (Some answers) =>
          for_each answers (submit_exam_upsert_body exam) ;;
          commit ;;
          exam_answers <- ExamAnswer_filter_by exam_id ;;
          total_score <- for_fold exam_answers submit_exam_grade_body 0 ;;
          Exam_update exam.1 (closed exam.2 total_score "completed" None) ;;
          commit ;;
          ret (json_graded total_score (url_results_page exam_id))
      end).

Definition api_results_data (exam_id : Z) : option Z → M response :=
  login_required_student (λ student_id,
    exam <- Exam_get_or_404 exam_id ;;
    if decide (Exam.student_id exam.2 ≠ student_id) then abort 403
    else
      answers <- ExamAnswer_filter_by exam_id ;;
      let max_score := Z.of_nat (length answers) in
      let correct :=
        Z.of_nat (length (filter (λ a, ExamAnswer.is_correct a.2 = true) answers)) in
      let incorrect := max_score - correct in
      let topic_summary : gmap string (Z * Z) :=
        fold_left
          (λ (topic_summary : gmap string (Z * Z)) a,
             let topic := "General" in
             let entry := default (0, 0) (topic_summary !! topic) in
             <[topic := (entry.1 + 1,
                         if ExamAnswer.is_correct a.2 then entry.2 + 1
                         else entry.2)]> topic_summary)
          answers ∅ in
      let topics := map fst (map_to_list topic_summary) in
      ret (json_results
             {| rd_exam_id := exam_id;
                rd_total_score := Exam.total_score exam.2;
                max_score := max_score;
                correct_count := correct;
                incorrect_count := incorrect;
                topics := topics;
                topic_correct :=
                  map (λ t, (default (0, 0) (topic_summary !! t)).2) topics;
                topic_total :=
                  map (λ t, (default (0, 0) (topic_summary !! t)).1) topics |})).

(** ** Notions used in the statements *)

(** The AnswerRecords of an exam instance, and the sum of their scores. *)
Definition answers_of (st : Store) (exam_id : Z) : list (Z * ExamAnswer.t) :=
  filter (λ x, ExamAnswer.exam_id x.2 = exam_id) (map_to_list (exam_answers st)).

Definition sum_scores (l : list (Z * ExamAnswer.t)) : Z :=
  foldr (λ x acc, ExamAnswer.score x.2 + acc) 0 l.

Definition has_question (st : Store) (x : Z * ExamAnswer.t) : Prop :=
  is_Some (questions st !! ExamAnswer.question_id x.2).

#[global] Instance has_question_dec st x : Decision (has_question st x).
Proof. unfold has_question. apply _. Defined.

(** The ExamQuestionLinks of an instance that no AnswerRecord covers. *)
Definition unanswered_links (st : Store) (exam_id : Z)
    : list (Z * ExamQuestion.t) :=
  filter (λ ql, ExamQuestion.question_id ql.2
                ∉ map (λ a, ExamAnswer.question_id a.2) (answers_of st exam_id))
    (filter (λ x, ExamQuestion.exam_id x.2 = exam_id)
       (map_to_list (exam_questions st))).

(** The student's instances that are in progress. *)
Definition in_progress_of (st : Store) (student_id : Z) : list (Z * Exam.t) :=
  filter (λ x, Exam.student_id x.2 = student_id ∧ Exam.status x.2 = "in-progress")
    (map_to_list (exams st)).

(** What one pass of the grading loop makes of a record: [None] when its
    Question is missing. *)
Definition regrade (qs : gmap Z Question.t) (ans : ExamAnswer.t)
    : option ExamAnswer.t :=
  q ← qs !! ExamAnswer.question_id ans;
  Some (graded ans
          (grade_answer_text
             (default EmptyString (ExamAnswer.student_answer ans))
             (Question.model_answer q)).1
          (grade_answer_text
             (default EmptyString (ExamAnswer.student_answer ans))
             (Question.model_answer q)).2).

Definition regraded (qs : gmap Z Question.t) (exam_id : Z) (ans : ExamAnswer.t)
    : ExamAnswer.t :=
  if decide (ExamAnswer.exam_id ans = exam_id) then default ans (regrade qs ans)
  else ans.

Definition with_session (f : Store → Store) (w : World) : World :=
  {| committed := committed w; session := f (session w); flashes := flashes w |}.

(** The score a record gets in one pass of the grading loop: nothing when
    its Question is missing. *)
Definition gain (qs : gmap Z Question.t) (x : Z * ExamAnswer.t) : Z :=
  from_option ExamAnswer.score 0 (regrade qs x.2).

Definition sum_gains (qs : gmap Z Question.t) (l : list (Z * ExamAnswer.t)) : Z :=
  foldr (λ x acc, gain qs x + acc) 0 l.

Definition grade_total (st : Store) (exam_id : Z) : Z :=
  sum_gains (questions st) (answers_of st exam_id).

Definition graded_store (st : Store) (exam_id : Z) : Store :=
  with_exam_answers (fmap (regraded (questions st) exam_id)) st.

(** The store that a successful Auto-submit leaves. *)
Definition auto_submitted_store (now : Z) (st : Store) (exam_id : Z)
    (ex : Exam.t) : Store :=
  let total := grade_total st exam_id in
  with_audit_logs
    (λ t, <[next_id t :=
              {| AuditLog.student_id := Some (Exam.student_id ex);
                 AuditLog.action :=
                   "Exam " +:+ pretty exam_id +:+ " auto-submitted with score "
                   +:+ pretty total;
                 AuditLog.timestamp := now |}]> t)
    (with_exams
       (insert exam_id
          (closed (closed ex total "completed" None) total "auto-submitted"
             (Some now)))
       (with_exams (insert exam_id (closed ex total "completed" None))
          (graded_store st exam_id))).

(** The table of instances once Start has closed those of the student
    that were in progress. *)
Definition closed_exams (now : Z) (student_id : Z) (m : gmap Z Exam.t)
    : gmap Z Exam.t :=
  (λ e, if decide (Exam.student_id e = student_id ∧ Exam.status e = "in-progress")
        then force_completed now e else e) <$> m.

(** What one pass of the upsert loop of [submit_exam] makes of the table
    of AnswerRecords. *)
Definition upsert_item (exam : Z * Exam.t) (m : gmap Z ExamAnswer.t)
    (item : answer_item) : gmap Z ExamAnswer.t :=
  match item_question_id item with
  | None => m
  | Some qid =>
      let ans_text := default (Some EmptyString) (item_answer item) in
      match head (filter (λ x : Z * ExamAnswer.t,
                            ExamAnswer.exam_id x.2 = exam.1
                            ∧ ExamAnswer.question_id x.2 = qid)
                    (map_to_list m)) with
      | Some existing => <[existing.1 := answered existing.2 ans_text]> m
      | None =>
          <[next_id m :=
              {| ExamAnswer.exam_id := exam.1;
                 ExamAnswer.question_id := qid;
                 ExamAnswer.student_id := Exam.student_id exam.2;
                 ExamAnswer.student_answer := ans_text;
                 ExamAnswer.is_correct := false;
                 ExamAnswer.score := 0 |}]> m
      end
  end.


(** The number of characters that the matcher pairs up between the two
    normalised texts: the [M] of the ratio [2.0 * M / T]. *)
Definition matched_length (student_answer model_answer : string) : Z :=
  let s := Text.lower (Text.strip (String.list_ascii_of_string student_answer)) in
  let m := Text.lower (Text.strip (String.list_ascii_of_string model_answer)) in
  Difflib.sum_sizes (Difflib.get_matching_blocks (Difflib.new_matcher s m)).

(** One in-place update of a selected row: [g] gives the new row, or
    [None] to leave the row alone. *)
Definition update_step {A} (g : A → option A) (m : gmap Z A) (x : Z * A)
    : gmap Z A :=
  match g x.2 with
  | Some v => <[x.1 := v]> m
  | None => m
  end.

(** ** Notions used in the proofs about the matcher *)

Module DifflibInv.
Import Difflib.

(** The positions of [c] in [l], counted from [off], in increasing order. *)
Fixpoint positions (off : Z) (l : list ascii) (c : ascii) : list Z :=
  match l with
  | [] => []
  | x :: l' => (if decide (x = c) then [off] else []) ++ positions (off + 1) l' c
  end.

Definition index_step (b2j : gmap ascii (list Z)) (ie : Z * ascii)
    : gmap ascii (list Z) :=
  let '(i, elt) := ie in <[elt := default [] (b2j !! elt) ++ [i]]> b2j.

(** *** The window of [find_longest_match] *)

Definition in_window (alo ahi blo bhi : Z) (x : Match) : Prop :=
  0 ≤ size x ∧ alo ≤ x.1.1 ∧ blo ≤ x.1.2
  ∧ x.1.1 + size x ≤ ahi ∧ x.1.2 + size x ≤ bhi.

(** After the rows below [i]: every length in [j2len] fits between the
    lower ends of the window and its position, and [best] lies in the
    window cut at row [i]. *)
Definition rows_bounded (alo blo bhi i : Z) (st : gmap Z Z * Match) : Prop :=
  (∀ j l, st.1 !! j = Some l → 0 ≤ l ∧ l ≤ i - alo ∧ l ≤ j - blo + 1 ∧ j < bhi)
  ∧ in_window alo i blo bhi st.2.

(** *** The measure of the work list *)

Definition range_ok (r : Range) : Prop := r.1.1.1 ≤ r.1.1.2 ∧ r.1.2 ≤ r.2.

Definition range_weight (r : Range) : nat :=
  Datatypes.S (2 * Z.to_nat (r.1.1.2 - r.1.1.1)).

Definition queue_weight (st : list Range * list Match) : nat :=
  foldr (λ r acc, (range_weight r + acc)%nat) 0%nat st.1.

(** *** A sequence [x] against itself *)

(** Position [j] holds an element that [__chain_b] kept. *)
Definition kept (x : list ascii) (j : Z) : bool :=
  match item x j with
  | Some c => bool_decide (is_Some (chain_b x !! c))
  | None => false
  end.

(** The length of the run of kept elements that ends just before
    position [k]. *)
Fixpoint run_upto (x : list ascii) (k : nat) : Z :=
  match k with
  | O => 0
  | Datatypes.S k' => if kept x (Z.of_nat k') then run_upto x k' + 1 else 0
  end.

(** The length of the run of kept elements that ends at position [j]. *)
Definition run_at (x : list ascii) (j : Z) : Z := run_upto x (Z.to_nat (j + 1)).

(** What holds after the rows below [i]: [best] lies on the diagonal and
    is at least as long as every run met so far; no length in [j2len]
    exceeds the run that ends at its row or at its column, and the entry of
    the diagonal is that run. *)
Definition diagonal_inv (x : list ascii) (i : Z) (st : gmap Z Z * Match)
    : Prop :=
  (st.2.1.1 = st.2.1.2 ∧ 0 ≤ st.2.1.1 ∧ 0 ≤ size st.2 ∧ st.2.1.1 + size st.2 ≤ i)
  ∧ (∀ j l, st.1 !! j = Some l →
            0 ≤ j < Z.of_nat (length x) ∧ 0 ≤ l
            ∧ l ≤ run_at x (i - 1) ∧ l ≤ run_at x j)
  ∧ (∀ j, 0 ≤ j < i → run_at x j ≤ size st.2)
  ∧ default 0 (st.1 !! (i - 1)) = run_at x (i - 1).

End DifflibInv.

(** *** Stores and requests used as examples *)

Definition first_k (population : list (Z * Question.t)) (k : Z)
    : list (Z * Question.t) :=
  take (Z.to_nat k) population.

Definition empty_store : Store :=
  {| questions := ∅; exams := ∅; exam_questions := ∅; exam_answers := ∅;
     audit_logs := ∅ |}.

(** Student 1 sits instance 1, started at instant 0 for 60 minutes. *)
Definition sitting : Exam.t :=
  {| Exam.student_id := 1; Exam.start_time := Some 0; Exam.end_time := None;
     Exam.total_score := 0; Exam.status := "in-progress";
     Exam.duration_minutes := 60; Exam.created_at := 0 |}.

(** Instance 1 holds a graded record of question 7, which is gone. *)
Definition stale_store : Store :=
  {| questions := ∅; exams := {[1 := sitting]}; exam_questions := ∅;
     exam_answers :=
       {[1 := {| ExamAnswer.exam_id := 1; ExamAnswer.question_id := 7;
                 ExamAnswer.student_id := 1;
                 ExamAnswer.student_answer := Some "x"%string;
                 ExamAnswer.is_correct := true; ExamAnswer.score := 1 |}]};
     audit_logs := ∅ |}.

(** Two questions; instance 1 links the first, and nothing is answered. *)
Definition unanswered_store : Store :=
  {| questions :=
       {[1 := {| Question.question_text := "Capital of France?";
                 Question.model_answer := "Paris";
                 Question.created_at := 0 |};
         2 := {| Question.question_text := "Capital of Germany?";
                 Question.model_answer := "Berlin";
                 Question.created_at := 0 |}]};
     exams := {[1 := sitting]};
     exam_questions :=
       {[1 := {| ExamQuestion.exam_id := 1; ExamQuestion.question_id := 1;
                 ExamQuestion.question_order := 1 |}]};
     exam_answers := ∅; audit_logs := ∅ |}.

(** Instance 1, and no question at all. *)
Definition no_question_store : Store :=
  {| questions := ∅; exams := {[1 := sitting]}; exam_questions := ∅;
     exam_answers := ∅; audit_logs := ∅ |}.

Definition answer_to (question_id : Z) (text : string) : answer_item :=
  {| item_question_id := Some question_id; item_answer := Some (Some text) |}.

(** A world with nothing pending: the state in which a request starts and
    in which every commit leaves it. *)
Abbreviation clean st fl := {| committed := st; session := st; flashes := fl |}.

(** ** The other routes of the application *)

(** The decorator of [login_required_student], for a route whose answer is
    of another type than [response]: [to] builds the redirect. *)
Definition login_required_student_at {R} (to : url → R) (f : Z → M R)
    (http_session : option Z) : M R :=
  match http_session with
  | None =>
      flash "Please log in to continue." "warning" ;;
      ret (to url_login)
  | Some student_id => f student_id
  end.

(** One entry of the [results] list of [results_page], and one of the
    ["questions"] list of [api_get_exam_questions]. *)
Record result_row := {
  result_question_id : Z;
  result_question_text : string;
  result_student_answer : option string;
  correct_answer : string;
  result_is_correct : bool;
  result_score : Z;
}.

Record question_row := {
  row_question_order : Z;
  row_question_id : Z;
  row_question_text : string;
}.

Inductive view :=
| view_redirect (target : url)
| render_results (exam : Z * Exam.t) (results : list result_row)
| json_exam_questions (exam_id : Z) (questions : list question_row).

(** [.order_by(ExamQuestion.question_order)]: rows with the same order
    come as the table lists them. *)
Definition question_order_le (x y : Z * ExamQuestion.t) : Prop :=
  ExamQuestion.question_order x.2 ≤ ExamQuestion.question_order y.2.

#[global] Instance question_order_le_dec x y : Decision (question_order_le x y).
Proof. unfold question_order_le. apply _. Defined.

Definition order_by_question_order (l : list (Z * ExamQuestion.t))
    : list (Z * ExamQuestion.t) :=
  merge_sort question_order_le l.

(** The body of [for ql in qlinks] in [api_get_exam_questions]: [q.id] of
    a Question that is missing raises. *)
Definition api_get_exam_questions_body (payload : list question_row)
    (ql : Z * ExamQuestion.t) : M (list question_row) :=
  q <- Question_get (ExamQuestion.question_id ql.2) ;;
  match q with
  | None => raise AttributeError
  | Some q =>
      ret (payload ++ [{| row_question_order := ExamQuestion.question_order ql.2;
                          row_question_id := q.1;
                          row_question_text := Question.question_text q.2 |}])
  end.

Definition api_get_exam_questions (exam_id : Z) : option Z → M view :=
  login_required_student_at view_redirect (λ student_id,
    exam <- Exam_get_or_404 exam_id ;;
    if decide (Exam.student_id exam.2 ≠ student_id) then abort 403
    else
      qlinks <- ExamQuestion_filter_by exam_id ;;
      let qlinks := order_by_question_order qlinks in
      payload <- for_fold qlinks api_get_exam_questions_body [] ;;
      ret (json_exam_questions exam_id payload)).

(** The body of [for a in answers] in [results_page]. *)
Definition results_page_body (results : list result_row)
    (a : Z * ExamAnswer.t) : M (list result_row) :=
  q <- Question_get (ExamAnswer.question_id a.2) ;;
  match q with
  | None => raise AttributeError
  | Some q =>
      ret (results ++ [{| result_question_id := q.1;
                          result_question_text := Question.question_text q.2;
                          result_student_answer := ExamAnswer.student_answer a.2;
                          correct_answer := Question.model_answer q.2;
                          result_is_correct := ExamAnswer.is_correct a.2;
                          result_score := ExamAnswer.score a.2 |}])
  end.

(** [query.all()] returns the rows in the order of their primary key, as
    SQLite scans the table.  [ExamAnswer_filter_by] lists the rows for the
    loops that sum, count or update them; here the order of the rows shows
    in the response, and they are put in the order of their ids. *)
Definition id_le {A} (x y : Z * A) : Prop := x.1 ≤ y.1.

#[global] Instance id_le_dec {A} (x y : Z * A) : Decision (id_le x y).
Proof. unfold id_le. apply _. Defined.

Definition order_by_id {A} (l : list (Z * A)) : list (Z * A) :=
  merge_sort id_le l.

Definition results_page (exam_id : Z) : option Z → M view :=
  login_required_student_at view_redirect (λ student_id,
    exam <- Exam_get_or_404 exam_id ;;
    if decide (Exam.student_id exam.2 ≠ student_id) then abort 403
    else
      answers <- ExamAnswer_filter_by exam_id ;;
      let answers := order_by_id answers in
      results <- for_fold answers results_page_body [] ;;
      ret (render_results exam results)).

(** *** Adding a question *)

Definition with_questions (f : gmap Z Question.t → gmap Z Question.t)
    (st : Store) : Store :=
  {| questions := f (questions st); exams := exams st;
     exam_questions := exam_questions st; exam_answers := exam_answers st;
     audit_logs := audit_logs st |}.

Definition Question_insert (q : Question.t) : M unit :=
  modify_session (with_questions (λ t, <[next_id t := q]> t)).

Inductive http_method := GET | POST.

Inductive endpoint :=
| home_page
| register_page
| login_page
| student_dashboard_page
| admin_dashboard_page
| admin_add_question_page.

Inductive template :=
| register_html
| login_html
| admin_add_question_html.

Inductive page :=
| redirect_to (target : endpoint)
| render_template (name : template).

(** [not s] for a field of [request.form]: the field is missing or empty. *)
Definition blank (s : option string) : bool :=
  match s with
  | None => true
  | Some s => bool_decide (s = EmptyString)
  end.

(** [admin_add_question]; the route has no login decorator.  The form
    fields are [None] when the request does not carry them. *)
Definition admin_add_question (now : Z) (method : http_method)
    (question_text model_answer : option string) : M page :=
  match method with
  | POST =>
      if blank question_text || blank model_answer then
        flash "Question text and correct answer required" "danger" ;;
        ret (redirect_to admin_add_question_page)
      else
        Question_insert
          {| Question.question_text := default EmptyString question_text;
             Question.model_answer := default EmptyString model_answer;
             Question.created_at := now |} ;;
        commit ;;
        flash "Question added successfully!" "success" ;;
        ret (redirect_to admin_dashboard_page)
  | GET => ret (render_template admin_add_question_html)
  end.

(** *** Accounts: [register], [login], [logout]

    The table of students is passed along explicitly; the Flask session
    holds the keys that the program sets. *)

Module Student.
Record t := mk {
  fullname : string;
  username : string;
  password : string;
  class_level : option string;
  gender : option string;
  created_at : Z;
}.
End Student.

Record flask_session := {
  session_student_id : option Z;
  session_student_name : option string;
  session_admin_id : option Z;
  session_admin_name : option string;
}.

(** [session.clear()] *)
Definition session_clear : flask_session :=
  {| session_student_id := None; session_student_name := None;
     session_admin_id := None; session_admin_name := None |}.

(** [Student.query.filter_by(username=username).first()]; a missing form
    field compares with NULL, which no row matches. *)
Definition Student_first (students : gmap Z Student.t)
    (username : option string) : option (Z * Student.t) :=
  match username with
  | None => None
  | Some username =>
      head (filter (λ x, Student.username x.2 = username) (map_to_list students))
  end.

Record register_form := {
  form_fullname : option string;
  form_username : option string;
  form_password : option string;
  form_class_level : option string;
}.

Definition register (now : Z) (method : http_method) (form : register_form)
    (students : gmap Z Student.t) : M (page * gmap Z Student.t) :=
  match method with
  | POST =>
      let fullname := form_fullname form in
      let username := form_username form in
      let password := form_password form in
      let class_level := form_class_level form in
      if blank fullname || blank username || blank password then
        flash "Please fill all fields" "danger" ;;
        ret (redirect_to register_page, students)
      else
        match Student_first students username with
        | Some _ =>
            flash "Username exists" "danger" ;;
            ret (redirect_to register_page, students)
        | None =>
            let student :=
              {| Student.fullname := default EmptyString fullname;
                 Student.username := default EmptyString username;
                 Student.password := default EmptyString password;
                 Student.class_level := class_level;
                 Student.gender := None;
                 Student.created_at := now |} in
            flash "Registration successful" "success" ;;
            ret (redirect_to login_page,
                 <[next_id students := student]> students)
        end
  | GET => ret (render_template register_html, students)
  end.

Definition login (now : Z) (method : http_method)
    (username password : option string) (students : gmap Z Student.t)
    (sess : flask_session) : M (page * flask_session) :=
  match method with
  | POST =>
      let student := Student_first students username in
      match student with
      | Some student =>
          if bool_decide (Some (Student.password student.2) = password) then
            let sess :=
              {| session_student_id := Some student.1;
                 session_student_name := Some (Student.fullname student.2);
                 session_admin_id := None;
                 session_admin_name := None |} in
            add_log now student.1 "Logged in" ;;
            ret (redirect_to student_dashboard_page, sess)
          else
            flash "Invalid credentials" "danger" ;;
            ret (render_template login_html, sess)
      | None =>
          flash "Invalid credentials" "danger" ;;
          ret (render_template login_html, sess)
      end
  | GET => ret (render_template login_html, sess)
  end.

(** [if sid:] does not hold for a missing key, nor for the id 0. *)
Definition logout (now : Z) (sess : flask_session) : M (page * flask_session) :=
  let sid := session_student_id sess in
  match sid with
  | Some sid => if decide (sid = 0) then ret tt else add_log now sid "Logged out"
  | None => ret tt
  end ;;
  flash "Logged out" "info" ;;
  ret (redirect_to home_page, session_clear).

(** ** Further notions used in the statements *)


(** No two AnswerRecords are about the same question of the same
    instance. *)
Definition unique_records (m : gmap Z ExamAnswer.t) : Prop :=
  ∀ i j a b,
    m !! i = Some a → m !! j = Some b →
    ExamAnswer.exam_id a = ExamAnswer.exam_id b →
    ExamAnswer.question_id a = ExamAnswer.question_id b → i = j.

(** No two students have the same username. *)
Definition unique_usernames (students : gmap Z Student.t) : Prop :=
  ∀ i j a b,
    students !! i = Some a → students !! j = Some b →
    Student.username a = Student.username b → i = j.

(** The ExamQuestionLinks of an instance. *)
Definition links_of (st : Store) (exam_id : Z) : list (Z * ExamQuestion.t) :=
  filter (λ x, ExamQuestion.exam_id x.2 = exam_id)
    (map_to_list (exam_questions st)).

(** The text that an entry of the payload carries: a missing ["answer"]
    key stands for the empty text, [null] for no text. *)
Definition item_text (item : answer_item) : option string :=
  default (Some EmptyString) (item_answer item).


(** The normalisation of the grader, on strings. *)
Definition normalise (s : string) : list ascii :=
  Text.lower (Text.strip (String.list_ascii_of_string s)).

(** The link that [create_exam_for_student] builds for the question
    selected at position [idx], the table of links once it is added, and
    the row that [api_get_exam_questions] shows for it. *)
Definition new_link (exam_id : Z) (iq : Z * (Z * Question.t)) : ExamQuestion.t :=
  {| ExamQuestion.exam_id := exam_id;
     ExamQuestion.question_id := iq.2.1;
     ExamQuestion.question_order := iq.1 |}.

Definition add_link (exam_id : Z) (t : gmap Z ExamQuestion.t)
    (iq : Z * (Z * Question.t)) : gmap Z ExamQuestion.t :=
  <[next_id t := new_link exam_id iq]> t.

Definition question_row_of (iq : Z * (Z * Question.t)) : question_row :=
  {| row_question_order := iq.1;
     row_question_id := iq.2.1;
     row_question_text := Question.question_text iq.2.2 |}.

(** The audit entry of a started exam. *)
Definition started_log (now : Z) (student_id exam_id : Z) (n : nat) : AuditLog.t :=
  {| AuditLog.student_id := Some student_id;
     AuditLog.action :=
       "Started exam " +:+ pretty exam_id +:+ " with " +:+ pretty n
       +:+ " questions";
     AuditLog.timestamp := now |}.

(** A store with two questions and nothing else. *)
Definition pool_store : Store :=
  {| questions :=
       {[1 := {| Question.question_text := "Capital of France?";
                 Question.model_answer := "Paris";
                 Question.created_at := 0 |};
         2 := {| Question.question_text := "Capital of Germany?";
                 Question.model_answer := "Berlin";
                 Question.created_at := 0 |}]};
     exams := ∅; exam_questions := ∅; exam_answers := ∅; audit_logs := ∅ |}.

(** The lower-case form of a string, and a string of whitespace. *)
Definition string_lower (s : string) : string :=
  String.string_of_list_ascii (Text.lower (String.list_ascii_of_string s)).

Definition whitespace (s : string) : Prop :=
  Forall (λ c, Text.isspace c = true) (String.list_ascii_of_string s).

#[global] Instance whitespace_dec s : Decision (whitespace s).
Proof. unfold whitespace. apply _. Defined.

(** ** Further notions used in the proofs about the matcher *)

Module DifflibMeasure.
Import Difflib.

(** The elements of [a], and of [b], that the windows of the work list
    still cover. *)
Definition sum_a (queue : list Range) : Z :=
  foldr (λ r acc, (r.1.1.2 - r.1.1.1) + acc) 0 queue.

Definition sum_b (queue : list Range) : Z :=
  foldr (λ r acc, (r.2 - r.1.2) + acc) 0 queue.

(** The blocks found and the windows left share the elements of each
    sequence between them. *)
Definition queue_bound (la lb : Z) (st : list Range * list Match) : Prop :=
  Forall DifflibInv.range_ok st.1
  ∧ Forall (λ x, 0 ≤ size x) st.2
  ∧ sum_sizes st.2 + sum_a st.1 ≤ la
  ∧ sum_sizes st.2 + sum_b st.1 ≤ lb.

(** The block pairs up equal elements: [a[i+d] == b[j+d]] for [d < k]. *)
Definition is_match (a b : list ascii) (x : Match) : Prop :=
  0 ≤ size x
  ∧ ∀ d, 0 ≤ d < size x →
         ∃ c, item a (x.1.1 + d) = Some c ∧ item b (x.1.2 + d) = Some c.

(** After the rows below [i]: every length in [j2len] is that of a match
    that ends in row [i - 1] at its column, and [best] is a match. *)
Definition rows_match (a b : list ascii) (i : Z) (st : gmap Z Z * Match)
    : Prop :=
  (∀ j l, st.1 !! j = Some l → is_match a b (i - l, j - l + 1, l))
  ∧ is_match a b st.2.

(** After the rows below [i]: [j2len] holds, at the column where it ends,
    a length that covers every match ending in row [i - 1], and [best] is
    as long as every match that ends before row [i]. *)
Definition rows_complete (a b : list ascii) (i : Z) (st : gmap Z Z * Match)
    : Prop :=
  (∀ j l, st.1 !! j = Some l → 0 ≤ l)
  ∧ (∀ p q k, 0 < k → is_match a b (p, q, k) → p + k = i →
       ∃ l, st.1 !! (q + k - 1) = Some l ∧ k ≤ l)
  ∧ 0 ≤ size st.2
  ∧ (∀ p q k, is_match a b (p, q, k) → p + k ≤ i → k ≤ size st.2).

End DifflibMeasure.

(** *** More stores and requests used as examples *)

(** [unanswered_store], with the answer " PARIS" of student 1 to the
    first question, not yet graded. *)
Definition answered_store : Store :=
  {| questions := questions unanswered_store;
     exams := {[1 := sitting]};
     exam_questions := exam_questions unanswered_store;
     exam_answers :=
       {[1 := {| ExamAnswer.exam_id := 1; ExamAnswer.question_id := 1;
                 ExamAnswer.student_id := 1;
                 ExamAnswer.student_answer := Some " PARIS"%string;
                 ExamAnswer.is_correct := false; ExamAnswer.score := 0 |}]};
     audit_logs := ∅ |}.

(** Three questions, and instance 1 with an answer to each, under the
    keys 1, 2 and 3. *)
Definition answer_row (question_id : Z) (text : string) : ExamAnswer.t :=
  {| ExamAnswer.exam_id := 1; ExamAnswer.question_id := question_id;
     ExamAnswer.student_id := 1; ExamAnswer.student_answer := Some text;
     ExamAnswer.is_correct := false; ExamAnswer.score := 0 |}.

Definition three_answers_store : Store :=
  {| questions :=
       {[1 := {| Question.question_text := "Capital of France?";
                 Question.model_answer := "Paris";
                 Question.created_at := 0 |};
         2 := {| Question.question_text := "Capital of Germany?";
                 Question.model_answer := "Berlin";
                 Question.created_at := 0 |};
         3 := {| Question.question_text := "Capital of Italy?";
                 Question.model_answer := "Rome";
                 Question.created_at := 0 |}]};
     exams := {[1 := sitting]};
     exam_questions := ∅;
     exam_answers :=
       {[1 := answer_row 1 "Paris"; 2 := answer_row 2 "Bonn";
         3 := answer_row 3 "Rome"]};
     audit_logs := ∅ |}.

(** Instance 1 of student 1, completed at instant 100. *)
Definition completed : Exam.t :=
  {| Exam.student_id := 1; Exam.start_time := Some 0;
     Exam.end_time := Some 100; Exam.total_score := 0;
     Exam.status := "completed"; Exam.duration_minutes := 60;
     Exam.created_at := 0 |}.

Definition completed_store : Store :=
  {| questions := ∅; exams := {[1 := completed]}; exam_questions := ∅;
     exam_answers := ∅; audit_logs := ∅ |}.

Definition alice_form : register_form :=
  {| form_fullname := Some "Alice A"%string;
     form_username := Some "alice"%string;
     form_password := Some "secret"%string;
     form_class_level := None |}.

Definition alice (now : Z) : Student.t :=
  {| Student.fullname := "Alice A"; Student.username := "alice";
     Student.password := "secret"; Student.class_level := None;
     Student.gender := None; Student.created_at := now |}.

(** * Properties *)

(** ** Lists and tables *)

Lemma foldr_max_ge (l : list Z) (k : Z) : k ∈ l → k ≤ foldr Z.max 0 l.
Proof.
  induction l as [|x l IH]; intros Hk; [by apply elem_of_nil in Hk|].
  apply elem_of_cons in Hk as [->|Hk]; simpl; [lia|].
  specialize (IH Hk). lia.
Qed.

Lemma next_id_fresh {A} (table : gmap Z A) : table !! next_id table = None.
Proof.
  destruct (table !! next_id table) as [v|] eqn:Hv; [|done].
  exfalso.
  assert (next_id table ∈ map fst (map_to_list table)) as Hin.
  { apply list_elem_of_fmap. exists (next_id table, v). split; [done|].
    by apply elem_of_map_to_list. }
  apply foldr_max_ge in Hin. unfold next_id in Hin at 1. lia.
Qed.

Lemma sum_scores_app l1 l2 : sum_scores (l1 ++ l2) = sum_scores l1 + sum_scores l2.
Proof. induction l1 as [|x l1 IH]; simpl; [done|]. rewrite IH. lia. Qed.

Lemma sum_scores_perm l1 l2 : l1 ≡ₚ l2 → sum_scores l1 = sum_scores l2.
Proof. induction 1; simpl; lia. Qed.

Section fold_update.
Context {A : Type} (g : A → option A).

Lemma fold_update_notin (l : list (Z * A)) (m : gmap Z A) (k : Z) :
  k ∉ l.*1 → fold_left (update_step g) l m !! k = m !! k.
Proof.
  revert m. induction l as [|x l IH]; intros m Hk; simpl; [done|].
  rewrite fmap_cons in Hk. apply not_elem_of_cons in Hk as [Hne Hk].
  rewrite IH by done. unfold update_step.
  destruct (g x.2); [by rewrite lookup_insert_ne|done].
Qed.

Lemma fold_update_in (l : list (Z * A)) (m : gmap Z A) (k : Z) (v : A) :
  NoDup l.*1 → (k, v) ∈ l →
  fold_left (update_step g) l m !! k = from_option Some (m !! k) (g v).
Proof.
  revert m. induction l as [|x l IH]; intros m Hnd Hin; simpl.
  { by apply elem_of_nil in Hin. }
  rewrite fmap_cons in Hnd. apply NoDup_cons in Hnd as [Hx Hnd].
  apply elem_of_cons in Hin as [<-|Hin].
  - rewrite fold_update_notin by done. unfold update_step. simpl.
    destruct (g v); [by rewrite lookup_insert_eq|done].
  - rewrite IH by done.
    assert (x.1 ≠ k) as Hne.
    { intros <-. apply Hx. apply list_elem_of_fmap. by exists (x.1, v). }
    unfold update_step. destruct (g x.2), (g v); simpl;
      by rewrite ?lookup_insert_ne.
Qed.

(** Updating in place the rows that a query selected changes exactly
    those rows. *)
Lemma fold_update_filter (P : A → Prop) `{!∀ x, Decision (P x)} (m : gmap Z A) :
  fold_left (update_step g) (filter (λ x, P x.2) (map_to_list m)) m
  = (λ v, if decide (P v) then default v (g v) else v) <$> m.
Proof.
  apply map_eq. intros k. rewrite lookup_fmap.
  assert (NoDup (filter (λ x : Z * A, P x.2) (map_to_list m)).*1) as Hnd.
  { eapply sublist_NoDup; [apply (NoDup_fst_map_to_list m)|].
    apply fmap_sublist, sublist_filter. }
  destruct (m !! k) as [v|] eqn:Hk; simpl.
  - destruct (decide (P v)) as [HP|HP].
    + rewrite (fold_update_in _ _ k v Hnd).
      * rewrite Hk. by destruct (g v).
      * apply list_elem_of_filter. split; [done|]. by apply elem_of_map_to_list.
    + rewrite fold_update_notin; [done|].
      intros [[k' v'] [Heq Hin]]%list_elem_of_fmap. simpl in Heq. subst k'.
      apply list_elem_of_filter in Hin as [HP' Hin].
      apply elem_of_map_to_list in Hin. simpl in HP'. congruence.
  - rewrite fold_update_notin; [done|].
    intros [[k' v'] [Heq Hin]]%list_elem_of_fmap. simpl in Heq. subst k'.
    apply list_elem_of_filter in Hin as [_ Hin].
    apply elem_of_map_to_list in Hin. congruence.
Qed.

End fold_update.

(** ** Running a request step by step *)

Lemma bind_run {A B} (c : M A) (k : A → M B) w :
  bind c k w = match c w with
               | (Return a, w') => k a w'
               | (Raise e, w') => (Raise e, w')
               end.
Proof. done. Qed.

Lemma ret_run {A} (a : A) w : ret a w = (Return a, w).
Proof. done. Qed.

Lemma raise_run {A} e w : @raise A e w = (Raise e, w).
Proof. done. Qed.

Lemma abort_run {A} code w : @abort A code w = (Raise (HTTPException code), w).
Proof. done. Qed.

Lemma get_session_run w : get_session w = (Return (session w), w).
Proof. done. Qed.

Lemma modify_session_run f w :
  modify_session f w = (Return tt, with_session f w).
Proof. done. Qed.

Lemma commit_run w :
  commit w = (Return tt, {| committed := session w; session := session w;
                            flashes := flashes w |}).
Proof. done. Qed.

Lemma flash_run msg cat w :
  flash msg cat w
  = (Return tt, {| committed := committed w; session := session w;
                   flashes := flashes w ++ [(msg, cat)] |}).
Proof. done. Qed.

Create Rewrite HintDb req.
#[local] Hint Rewrite @bind_run @ret_run @raise_run @abort_run get_session_run
  modify_session_run commit_run flash_run : req.

Ltac mstep :=
  repeat (autorewrite with req;
          cbn [session committed flashes with_session fst snd
               questions exams exam_questions exam_answers audit_logs
               with_exams with_exam_questions with_exam_answers with_audit_logs]).

(** A loop whose body either passes or raises: it raises at the first
    element that does not pass, and changes nothing. *)
Lemma for_each_guard {A} (P : A → Prop) `{!∀ x, Decision (P x)} (e : exn)
    (l : list A) (w : World) :
  for_each l (λ x, if decide (P x) then ret tt else raise e) w
  = if decide (Forall P l) then (Return tt, w) else (Raise e, w).
Proof.
  induction l as [|x l IH]; cbn [for_each].
  { by rewrite decide_True by constructor. }
  unfold bind at 1. destruct (decide (P x)) as [HP|HP].
  - unfold ret at 1. rewrite IH.
    destruct (decide (Forall P l)) as [Hl|Hl].
    + by rewrite decide_True by by constructor.
    + rewrite decide_False; [done|]. by inversion 1.
  - unfold raise at 1. rewrite decide_False; [done|]. by inversion 1.
Qed.

(** ** Grade *)

Lemma grade_exam_body_spec qs l : ∀ tot w,
  questions (session w) = qs →
  for_fold l grade_exam_body tot w
  = (Return (tot + sum_gains qs l),
     with_session
       (with_exam_answers (λ m, fold_left (update_step (regrade qs)) l m)) w).
Proof.
  induction l as [|x l IH]; intros tot w Hqs; simpl.
  { unfold ret. f_equal; [f_equal; lia|]. by destruct w as [c [] f]. }
  unfold grade_exam_body at 1, Question_get. mstep.
  rewrite Hqs. unfold gain at 1, update_step at 2, regrade.
  destruct (qs !! ExamAnswer.question_id x.2) as [q|] eqn:Hq; simpl.
  - destruct (grade_answer_text _ _) as [c s] eqn:Hg. simpl.
    unfold ExamAnswer_update. mstep.
    rewrite IH by done. f_equal. f_equal. lia.
  - rewrite IH by done. f_equal.
Qed.

Lemma grade_loop_spec st st0 fl exam_id :
  for_fold (answers_of st exam_id) grade_exam_body 0
    {| committed := st0; session := st; flashes := fl |}
  = (Return (grade_total st exam_id),
     {| committed := st0; session := graded_store st exam_id; flashes := fl |}).
Proof.
  rewrite (grade_exam_body_spec (questions st)) by done.
  rewrite Z.add_0_l.
  unfold with_session, with_exam_answers at 1, grade_total, graded_store,
    answers_of. simpl.
  pose proof (fold_update_filter (regrade (questions st))
    (λ a, ExamAnswer.exam_id a = exam_id) (exam_answers st)) as Hf.
  simpl in Hf. by rewrite Hf.
Qed.

Lemma grade_exam_spec st fl exam_id :
  grade_exam exam_id (clean st fl)
  = match exams st !! exam_id with
    | None =>
        (Raise AttributeError,
         {| committed := st; session := graded_store st exam_id; flashes := fl |})
    | Some ex =>
        (Return (grade_total st exam_id),
         clean (with_exams
                  (insert exam_id
                     (closed ex (grade_total st exam_id) "completed" None))
                  (graded_store st exam_id)) fl)
    end.
Proof.
  unfold grade_exam, Exam_get, ExamAnswer_filter_by. mstep.
  fold (answers_of st exam_id). rewrite grade_loop_spec.
  destruct (exams st !! exam_id) as [ex|]; simpl; done.
Qed.

Lemma run_eq {A} (c : M A) st r w :
  c (clean st []) = (r, w) →
  run c st = {| value := r; db := committed w; flashed := flashes w |}.
Proof. intros H. unfold run. by rewrite H. Qed.

Lemma run_eq_outcome {A} (c : M A) st (o : Outcome A) :
  c (clean st []) = (value o, {| committed := db o; session := db o;
                                  flashes := flashed o |}) →
  run c st = o.
Proof. intros H. unfold run. rewrite H. by destruct o. Qed.

(** The regrading keeps what a record is about. *)
Lemma regraded_exam_id qs eid a :
  ExamAnswer.exam_id (regraded qs eid a) = ExamAnswer.exam_id a.
Proof.
  unfold regraded, regrade. case_decide; [|done].
  by destruct (qs !! ExamAnswer.question_id a).
Qed.

Lemma regraded_question_id qs eid a :
  ExamAnswer.question_id (regraded qs eid a) = ExamAnswer.question_id a.
Proof.
  unfold regraded, regrade. case_decide; [|done].
  by destruct (qs !! ExamAnswer.question_id a).
Qed.

Lemma regraded_student_answer qs eid a :
  ExamAnswer.student_answer (regraded qs eid a) = ExamAnswer.student_answer a.
Proof.
  unfold regraded, regrade. case_decide; [|done].
  by destruct (qs !! ExamAnswer.question_id a).
Qed.

Lemma regrade_regraded qs eid a :
  regrade qs (regraded qs eid a) = regrade qs a.
Proof.
  unfold regrade.
  rewrite regraded_question_id, regraded_student_answer.
  destruct (qs !! ExamAnswer.question_id a) as [q|]; simpl; [|done].
  f_equal. unfold regraded, regrade. case_decide; [|done].
  by destruct (qs !! ExamAnswer.question_id a).
Qed.

Lemma regraded_idemp qs eid a :
  regraded qs eid (regraded qs eid a) = regraded qs eid a.
Proof.
  unfold regraded at 1. rewrite regraded_exam_id, regrade_regraded.
  unfold regraded. case_decide; [|done].
  by destruct (regrade qs a).
Qed.

Lemma answers_of_graded st st' eid :
  exam_answers st' = regraded (questions st) eid <$> exam_answers st →
  answers_of st' eid
  = prod_map id (regraded (questions st) eid) <$> answers_of st eid.
Proof.
  intros Ha. unfold answers_of. rewrite Ha, map_to_list_fmap.
  induction (map_to_list (exam_answers st)) as [|x l IH]; [done|].
  rewrite fmap_cons, !filter_cons. simpl. rewrite regraded_exam_id.
  case_decide; [rewrite fmap_cons|]; by rewrite IH.
Qed.

Lemma sum_gains_graded qs eid l :
  sum_gains qs (prod_map id (regraded qs eid) <$> l) = sum_gains qs l.
Proof.
  induction l as [|x l IH]; [done|]. rewrite fmap_cons. simpl. rewrite IH.
  f_equal. unfold gain. simpl. by rewrite regrade_regraded.
Qed.

Lemma sum_scores_cons x l :
  sum_scores (x :: l) = ExamAnswer.score x.2 + sum_scores l.
Proof. done. Qed.

Lemma sum_gains_cons qs x l : sum_gains qs (x :: l) = gain qs x + sum_gains qs l.
Proof. done. Qed.

(** After a pass of the grading loop, the scores of the records whose
    Question exists add up to what the pass has counted. *)
Lemma sum_scores_graded st st' eid :
  questions st' = questions st →
  exam_answers st' = regraded (questions st) eid <$> exam_answers st →
  sum_scores (filter (has_question st') (answers_of st' eid))
  = grade_total st eid.
Proof.
  intros Hq Ha. rewrite (answers_of_graded st st' eid Ha).
  unfold grade_total.
  assert (Forall (λ x, ExamAnswer.exam_id x.2 = eid) (answers_of st eid)) as HP.
  { apply Forall_forall. intros x Hx. unfold answers_of in Hx.
    by apply list_elem_of_filter in Hx as [? _]. }
  induction HP as [|x l Hx _ IH]; [done|].
  rewrite fmap_cons, filter_cons, sum_gains_cons.
  assert (has_question st' (prod_map id (regraded (questions st) eid) x)
          ↔ is_Some (questions st !! ExamAnswer.question_id x.2)) as Hiff.
  { unfold has_question. simpl. by rewrite regraded_question_id, Hq. }
  unfold gain at 1.
  destruct (decide (has_question st' _)) as [Hh|Hh].
  - apply Hiff in Hh as [q Hl]. rewrite sum_scores_cons, IH. f_equal. simpl.
    unfold regraded. rewrite decide_True by done. unfold regrade.
    by rewrite Hl.
  - rewrite IH.
    assert (questions st !! ExamAnswer.question_id x.2 = None) as Hl.
    { apply eq_None_not_Some. by rewrite <- Hiff. }
    unfold regrade. by rewrite Hl.
Qed.

Lemma filter_all {A} (P : A → Prop) `{!∀ x, Decision (P x)} (l : list A) :
  Forall P l → filter P l = l.
Proof.
  induction 1 as [|x l Hx _ IH]; [done|].
  by rewrite filter_cons, decide_True, IH.
Qed.

(** A record whose Question is missing passes the grading loop
    unchanged; with score 0 it adds nothing to either sum. *)
Lemma sum_scores_skipped st st' eid :
  questions st' = questions st →
  exam_answers st' = regraded (questions st) eid <$> exam_answers st →
  Forall (λ x, has_question st x ∨ ExamAnswer.score x.2 = 0)
    (answers_of st eid) →
  sum_scores (answers_of st' eid)
  = sum_scores (filter (has_question st') (answers_of st' eid)).
Proof.
  intros Hq Ha Hall. rewrite (answers_of_graded st st' eid Ha).
  induction Hall as [|x l Hx _ IH]; [done|].
  rewrite fmap_cons, filter_cons, sum_scores_cons, IH.
  assert (has_question st' (prod_map id (regraded (questions st) eid) x)
          ↔ has_question st x) as Hiff.
  { unfold has_question. simpl. by rewrite regraded_question_id, Hq. }
  destruct (decide (has_question st' _)) as [Hh|Hh]; [done|].
  destruct Hx as [Hx|Hx]; [by apply Hiff in Hx|].
  assert (questions st !! ExamAnswer.question_id x.2 = None) as Hl.
  { apply eq_None_not_Some. intros ?. by apply Hh, Hiff. }
  simpl. unfold regraded, regrade. rewrite Hl. simpl.
  case_decide; simpl; lia.
Qed.

(** [C1], amended.  Grade fails on an instance that is not in the store and
    changes nothing.  On an instance of the store it returns and stores, as
    [total_score], the sum of the scores of the AnswerRecords of the
    instance whose Question exists; records whose Question is missing are
    skipped and keep the score they hold.  When every record of the
    instance whose Question is missing holds the score 0, as every record
    that the program creates does, that is the sum over all the records
    of the instance. *)
Theorem grade_exam_total_score (st : Store) (exam_id : Z) :
  let o := run (grade_exam exam_id) st in
  let total := sum_scores (filter (has_question (db o)) (answers_of (db o) exam_id)) in
  match exams st !! exam_id with
  | None => value o = Raise AttributeError ∧ db o = st
  | Some _ =>
      value o = Return total
      ∧ Exam.total_score <$> exams (db o) !! exam_id = Some total
      ∧ (Forall (λ x, has_question st x ∨ ExamAnswer.score x.2 = 0)
           (answers_of st exam_id) →
         total = sum_scores (answers_of (db o) exam_id))
  end.
Proof.
  pose proof (grade_exam_spec st [] exam_id) as Hs.
  destruct (exams st !! exam_id) as [ex|] eqn:Hex;
    rewrite (run_eq _ _ _ _ Hs); cbn [value db committed]; [|done].
  set (st' := with_exams _ _).
  assert (sum_scores (filter (has_question st') (answers_of st' exam_id))
          = grade_total st exam_id) as Ht by by apply sum_scores_graded.
  rewrite Ht. split; [done|]. split.
  { subst st'. cbn [exams with_exams]. by rewrite lookup_insert_eq. }
  intros Hall. rewrite <- Ht. symmetry. by apply (sum_scores_skipped st).
Qed.

(** ** Auto-submit *)

Lemma unanswered_links_nil st eid :
  unanswered_links st eid = [] ↔
  Forall (λ ql : Z * ExamQuestion.t, ExamQuestion.question_id ql.2
            ∈ (list_to_set (map (λ a : Z * ExamAnswer.t,
                                   ExamAnswer.question_id a.2)
                              (filter (λ x : Z * ExamAnswer.t,
                                         ExamAnswer.exam_id x.2 = eid)
                                 (map_to_list (exam_answers st)))) : gset Z))
    (filter (λ x : Z * ExamQuestion.t, ExamQuestion.exam_id x.2 = eid)
       (map_to_list (exam_questions st))).
Proof.
  unfold unanswered_links, answers_of.
  induction (filter _ (map_to_list (exam_questions st))) as [|x l IH].
  { split; [constructor|done]. }
  rewrite filter_cons. destruct (decide _) as [Hx|Hx].
  - split; [done|]. inversion 1 as [|?? Hin]; subst.
    apply elem_of_list_to_set in Hin. done.
  - rewrite IH. split.
    + intros Hl. constructor; [|done]. apply elem_of_list_to_set.
      by apply dec_stable.
    + by inversion 1.
Qed.

Lemma auto_submit_exam_spec now st fl exam :
  auto_submit_exam now exam (clean st fl)
  = if decide (unanswered_links st exam.1 = []) then
      match exams st !! exam.1 with
      | None =>
          (Raise AttributeError,
           {| committed := st; session := graded_store st exam.1;
              flashes := fl |})
      | Some ex =>
          (Return (grade_total st exam.1),
           clean (auto_submitted_store now st exam.1 ex) fl)
      end
    else (Raise IntegrityError, clean st fl).
Proof.
  unfold auto_submit_exam, ExamQuestion_filter_by, ExamAnswer_filter_by.
  mstep. erewrite (for_each_guard _ IntegrityError).
  destruct (decide (Forall _ _)) as [Hall|Hall].
  - rewrite decide_True by by apply unanswered_links_nil.
    mstep. rewrite grade_exam_spec.
    destruct (exams st !! exam.1) as [ex|] eqn:Hex; [|done].
    unfold Exam_get, Exam_update, add_log, AuditLog_insert. mstep.
    rewrite lookup_insert_eq. simpl. mstep. done.
  - rewrite decide_False; [done|]. by rewrite unanswered_links_nil.
Qed.

Lemma unanswered_links_graded st st' eid :
  exam_questions st' = exam_questions st →
  exam_answers st' = regraded (questions st) eid <$> exam_answers st →
  unanswered_links st' eid = unanswered_links st eid.
Proof.
  intros Hq Ha. unfold unanswered_links. rewrite Hq.
  apply list_filter_iff. intros ql.
  rewrite (answers_of_graded st st' eid Ha).
  assert (map (λ a : Z * ExamAnswer.t, ExamAnswer.question_id a.2)
            (prod_map id (regraded (questions st) eid) <$> answers_of st eid)
          = map (λ a : Z * ExamAnswer.t, ExamAnswer.question_id a.2)
              (answers_of st eid)) as ->; [|done].
  induction (answers_of st eid) as [|x l IH]; [done|].
  rewrite fmap_cons. simpl. rewrite regraded_question_id. f_equal. apply IH.
Qed.

Lemma grade_total_graded st st' eid :
  questions st' = questions st →
  exam_answers st' = regraded (questions st) eid <$> exam_answers st →
  grade_total st' eid = grade_total st eid.
Proof.
  intros Hq Ha. unfold grade_total.
  by rewrite (answers_of_graded st st' eid Ha), Hq, sum_gains_graded.
Qed.

(** [C3].  Auto-submit twice in succession, at any two instants: the second
    invocation ends as the first did (the same total, or the same failure),
    leaves the table of AnswerRecords as the first left it, and leaves the
    instance with the same [total_score]. *)
Theorem auto_submit_exam_idempotent (st : Store) (now1 now2 : Z) (exam_id : Z)
    (e e' : Exam.t) :
  let o1 := run (auto_submit_exam now1 (exam_id, e)) st in
  let o2 := run (auto_submit_exam now2 (exam_id, e')) (db o1) in
  value o2 = value o1
  ∧ exam_answers (db o2) = exam_answers (db o1)
  ∧ Exam.total_score <$> exams (db o2) !! exam_id
    = Exam.total_score <$> exams (db o1) !! exam_id.
Proof.
  pose proof (auto_submit_exam_spec now1 st [] (exam_id, e)) as H1.
  pose proof (auto_submit_exam_spec now2 st [] (exam_id, e')) as H1'.
  cbn [fst] in H1, H1'.
  destruct (decide (unanswered_links st exam_id = [])) as [Hun|Hun].
  - destruct (exams st !! exam_id) as [ex|] eqn:Hex.
    + rewrite (run_eq _ _ _ _ H1). cbn [db value committed].
      set (st1 := auto_submitted_store now1 st exam_id ex).
      pose proof (auto_submit_exam_spec now2 st1 [] (exam_id, e')) as H2.
      cbn [fst] in H2.
      assert (exam_answers st1
              = regraded (questions st) exam_id <$> exam_answers st) as Ha
        by done.
      rewrite decide_True in H2
        by by rewrite (unanswered_links_graded st st1 exam_id).
      assert (exams st1 !! exam_id
              = Some (closed (closed ex (grade_total st exam_id) "completed" None)
                        (grade_total st exam_id) "auto-submitted" (Some now1)))
        as Hex1.
      { subst st1. unfold auto_submitted_store.
        cbn [exams with_audit_logs with_exams]. by rewrite lookup_insert_eq. }
      rewrite Hex1 in H2. rewrite (run_eq _ _ _ _ H2). cbn [db value committed].
      rewrite (grade_total_graded st st1 exam_id) by done.
      split; [done|]. split.
      * unfold auto_submitted_store at 1, graded_store.
        cbn [exam_answers with_audit_logs with_exams with_exam_answers].
        rewrite Ha. change (questions st1) with (questions st).
        rewrite <- map_fmap_compose. apply map_fmap_ext.
        intros k a _. simpl. apply regraded_idemp.
      * rewrite Hex1. unfold auto_submitted_store.
        cbn [exams with_audit_logs with_exams]. rewrite lookup_insert_eq.
        simpl. by rewrite (grade_total_graded st st1 exam_id).
    + rewrite (run_eq _ _ _ _ H1). cbn [db value committed].
      rewrite (run_eq _ _ _ _ H1'). done.
  - rewrite (run_eq _ _ _ _ H1). cbn [db value committed].
    rewrite (run_eq _ _ _ _ H1'). done.
Qed.

(** [C9] fails on the code.  The placeholder that Auto-submit builds for
    an unanswered question carries no [student_id], and the column rejects
    it: with a link that no AnswerRecord covers, Auto-submit raises and the
    store stays as it was.  No placeholder is created, and the instance is
    not graded. *)
Theorem auto_submit_exam_placeholder_rejected (st : Store) (now : Z)
    (exam : Z * Exam.t) :
  unanswered_links st exam.1 ≠ [] →
  let o := run (auto_submit_exam now exam) st in
  value o = Raise IntegrityError ∧ db o = st.
Proof.
  intros Hun. pose proof (auto_submit_exam_spec now st [] exam) as Hs.
  rewrite decide_False in Hs by done. by rewrite (run_eq _ _ _ _ Hs).
Qed.

(** ** Start *)

Lemma for_each_Exam_update (f : Exam.t → Exam.t) (l : list (Z * Exam.t)) :
  ∀ w, for_each l (λ e, Exam_update e.1 (f e.2)) w
       = (Return tt,
          with_session
            (with_exams (λ m, fold_left (update_step (Some ∘ f)) l m)) w).
Proof.
  induction l as [|x l IH]; intros w; cbn [for_each].
  { unfold ret. by destruct w as [c [] fl]. }
  unfold Exam_update at 1. mstep. by rewrite IH.
Qed.

(** A loop of inserts of links touches the table of links only. *)
Lemma for_each_links {A} (body : A → M unit) (l : list A) :
  (∀ x w, ∃ g, body x w = (Return tt, with_session (with_exam_questions g) w)) →
  ∀ w, ∃ g, for_each l body w
            = (Return tt, with_session (with_exam_questions g) w).
Proof.
  intros Hbody. induction l as [|x l IH]; intros w; cbn [for_each].
  { exists id. unfold ret. by destruct w as [c [] fl]. }
  destruct (Hbody x w) as [g Hg]. mstep. rewrite Hg.
  destruct (IH (with_session (with_exam_questions g) w)) as [g' Hg'].
  rewrite Hg'. by exists (g' ∘ g).
Qed.

Section Composer_facts.
Variable sample : list (Z * Question.t) → Z → list (Z * Question.t).

Lemma create_exam_for_student_spec now st fl student_id n d :
  let exam_id := next_id (exams st) in
  let exam := new_exam now student_id d in
  let st1 := with_exams (insert exam_id exam) st in
  ∃ links logs,
    create_exam_for_student sample now student_id n d (clean st fl)
    = if decide (map_to_list (questions st) = []) then
        (Return None, clean st1 fl)
      else
        (Return (Some (exam_id, exam)),
         clean (with_audit_logs logs (with_exam_questions links st1)) fl).
Proof.
  intros exam_id exam st1.
  unfold create_exam_for_student, Exam_insert, Exam_update, Question_all.
  mstep. fold exam_id exam.
  destruct (map_to_list (questions st)) as [|q qs] eqn:Hqs.
  { exists id, id. rewrite decide_True by done. by mstep. }
  set (selected := sample _ _).
  edestruct (for_each_links
    (λ '(idx, q), ExamQuestion_insert
       {| ExamQuestion.exam_id := exam_id;
          ExamQuestion.question_id := q.1;
          ExamQuestion.question_order := idx |})
    (zip (seqZ 1 (Z.of_nat (length selected))) selected)) as [links Hlinks].
  { intros [idx q'] w. eexists. unfold ExamQuestion_insert. by mstep. }
  mstep. rewrite Hlinks. unfold add_log, AuditLog_insert. mstep.
  eexists links, _. rewrite decide_False by done. reflexivity.
Qed.

Lemma start_exam_spec now st student_id :
  let st1 := with_exams (closed_exams now student_id) st in
  let exam_id := next_id (exams st1) in
  let exam := new_exam now student_id 60 in
  let st2 := with_exams (insert exam_id exam) st1 in
  ∃ links logs,
    run (start_exam sample now (Some student_id)) st
    = if decide (map_to_list (questions st) = []) then
        {| value := Return (redirect url_student_dashboard);
           db := st2;
           flashed := [("No questions available.", "danger")] |}
      else
        {| value := Return (redirect (url_exam_page exam_id));
           db := with_audit_logs logs (with_exam_questions links st2);
           flashed := [] |}.
Proof.
  intros st1 exam_id exam st2.
  destruct (create_exam_for_student_spec now st1 [] student_id 50 60)
    as (links & logs & Hc).
  exists links, logs.
  unfold start_exam, login_required_student, Exam_filter_by.
  apply run_eq_outcome. mstep.
  rewrite (for_each_Exam_update (force_completed now)).
  mstep.
  pose proof (fold_update_filter (Some ∘ force_completed now)
    (λ e, Exam.student_id e = student_id ∧ Exam.status e = "in-progress")
    (exams st)) as Hf.
  simpl in Hf.
  replace (with_exams (λ m, fold_left _ _ m) st) with st1
    by (unfold st1, with_exams, closed_exams; by rewrite Hf).
  rewrite Hc. change (questions st1) with (questions st).
  destruct (decide (map_to_list (questions st) = [])); by mstep.
Qed.

End Composer_facts.

Lemma next_id_fmap {A B} (f : A → B) (m : gmap Z A) : next_id (f <$> m) = next_id m.
Proof.
  unfold next_id. rewrite map_to_list_fmap. do 2 f_equal.
  induction (map_to_list m) as [|x l IH]; [done|].
  rewrite fmap_cons. simpl. by rewrite IH.
Qed.

Lemma in_progress_closed now student_id (m : gmap Z Exam.t) :
  filter (λ x : Z * Exam.t,
            Exam.student_id x.2 = student_id ∧ Exam.status x.2 = "in-progress")
    (map_to_list (closed_exams now student_id m)) = [].
Proof.
  unfold closed_exams. rewrite map_to_list_fmap.
  induction (map_to_list m) as [|x l IH]; [done|].
  rewrite fmap_cons, filter_cons_False; [done|].
  simpl. case_decide as Hx; [|done]. simpl. by intros [_ ?].
Qed.

Section Start_facts.
Variable sample : list (Z * Question.t) → Z → list (Z * Question.t).

Lemma start_exam_exams now st student_id :
  exams (db (run (start_exam sample now (Some student_id)) st))
  = <[next_id (exams st) := new_exam now student_id 60]>
      (closed_exams now student_id (exams st)).
Proof.
  destruct (start_exam_spec sample now st student_id) as (links & logs & ->).
  destruct (decide _); cbn [db exams with_exams with_audit_logs
    with_exam_questions]; unfold closed_exams at 1; by rewrite next_id_fmap.
Qed.

(** [C6].  After Start, the student has at most one instance in progress
    (the one just created), and every instance of the student that was in
    progress is completed and carries the instant of the request as its
    end time. *)
Theorem start_exam_one_in_progress (st : Store) (now : Z) (student_id : Z) :
  let o := run (start_exam sample now (Some student_id)) st in
  (length (in_progress_of (db o) student_id) ≤ 1)%nat
  ∧ ∀ id e,
      exams st !! id = Some e →
      Exam.student_id e = student_id → Exam.status e = "in-progress" →
      ∃ e', exams (db o) !! id = Some e'
            ∧ Exam.status e' = "completed" ∧ Exam.end_time e' = Some now.
Proof.
  intros o. unfold in_progress_of. subst o. rewrite start_exam_exams.
  set (m1 := closed_exams now student_id (exams st)).
  assert (m1 !! next_id (exams st) = None) as Hfresh.
  { unfold m1, closed_exams. rewrite lookup_fmap, next_id_fresh. done. }
  split.
  - rewrite (map_to_list_insert m1) by done.
    rewrite filter_cons. subst m1. rewrite in_progress_closed. case_decide; simpl; lia.
  - intros id e He Hs Hp.
    assert (m1 !! id = Some (force_completed now e)) as Hid.
    { unfold m1, closed_exams. rewrite lookup_fmap, He. simpl.
      by rewrite decide_True. }
    exists (force_completed now e). split; [|done].
    rewrite lookup_insert_ne; [done|]. intros <-. congruence.
Qed.

(** [C2] fails on the code.  With an empty pool, Start reports that there
    are no questions, and yet a new instance, in progress, has been
    committed under a fresh key: [create_exam_for_student] commits the
    instance before it looks at the pool. *)
Theorem start_exam_empty_pool_persists (st : Store) (now : Z) (student_id : Z) :
  questions st = ∅ →
  let o := run (start_exam sample now (Some student_id)) st in
  let exam_id := next_id (exams st) in
  value o = Return (redirect url_student_dashboard)
  ∧ flashed o = [("No questions available.", "danger")]
  ∧ exams st !! exam_id = None
  ∧ exams (db o) !! exam_id = Some (new_exam now student_id 60).
Proof.
  intros Hq o exam_id. subst o.
  split; [|split; [|split]].
  - destruct (start_exam_spec sample now st student_id) as (links & logs & ->).
    by rewrite Hq, map_to_list_empty, decide_True.
  - destruct (start_exam_spec sample now st student_id) as (links & logs & ->).
    by rewrite Hq, map_to_list_empty, decide_True.
  - apply next_id_fresh.
  - rewrite start_exam_exams. by rewrite lookup_insert_eq.
Qed.

End Start_facts.

(** ** The time limit *)

(** [C7].  The instance is within its allowed time exactly when it has a
    start time and [now] is no later than the start time plus the
    duration; in particular not when it has no start time. *)
Theorem check_time_allowed_iff (now : Z) (exam : Z * Exam.t) :
  (check_time_allowed now exam = true ↔
   ∃ start_time,
     Exam.start_time exam.2 = Some start_time
     ∧ now ≤ start_time + timedelta_minutes (Exam.duration_minutes exam.2))
  ∧ (Exam.start_time exam.2 = None → check_time_allowed now exam = false).
Proof.
  unfold check_time_allowed.
  destruct (Exam.start_time exam.2) as [start|]; split; try done.
  - rewrite Z.leb_le. split; [eauto|]. by intros (? & [= <-] & ?).
  - split; [done|]. by intros (? & ? & _).
Qed.

Lemma remaining_seconds_sub_second limit now :
  limit < now < limit + 1000000 → remaining_seconds limit now = 0.
Proof.
  intros H. unfold remaining_seconds.
  replace (limit - now) with (- (now - limit)) by lia.
  rewrite Z.quot_opp_l by lia. rewrite Z.quot_small by lia. done.
Qed.

(** [C8] fails on the code.  Less than a second past the limit,
    [check_time_allowed] already says that the time is over, but
    [exam_page] computes zero whole seconds of remaining time, renders the
    exam and leaves the store as it was. *)
Theorem exam_page_sub_second_expiry (st : Store) (now : Z) (exam_id : Z)
    (ex : Exam.t) (start_time : Z) :
  exams st !! exam_id = Some ex →
  Exam.start_time ex = Some start_time →
  let limit := start_time + timedelta_minutes (Exam.duration_minutes ex) in
  limit < now < limit + 1000000 →
  let o := run (exam_page now exam_id (Some (Exam.student_id ex))) st in
  check_time_allowed now (exam_id, ex) = false
  ∧ value o = Return (render_exam (exam_id, ex) 0)
  ∧ db o = st.
Proof.
  intros Hex Hstart limit Hnow o. split.
  { unfold check_time_allowed. simpl. rewrite Hstart. apply Z.leb_gt.
    fold limit. lia. }
  subst o.
  assert (run (exam_page now exam_id (Some (Exam.student_id ex))) st
          = {| value := Return (render_exam (exam_id, ex) 0); db := st;
               flashed := [] |}) as ->; [|done].
  apply run_eq_outcome.
  unfold exam_page, login_required_student, Exam_get_or_404, Exam_get.
  mstep. rewrite Hex. simpl. mstep.
  rewrite decide_False by (by intros ?). rewrite Hstart.
  fold limit. rewrite remaining_seconds_sub_second by done. by mstep.
Qed.

(** [X1].  A full second or more past the limit, the page of an instance
    in progress runs Auto-submit: it redirects to the results when no
    placeholder is needed, and fails otherwise, leaving the store as it
    was. *)
Theorem exam_page_expired (st : Store) (now : Z) (exam_id : Z) (ex : Exam.t)
    (start_time : Z) :
  exams st !! exam_id = Some ex →
  Exam.start_time ex = Some start_time →
  Exam.status ex = "in-progress" →
  start_time + timedelta_minutes (Exam.duration_minutes ex) + 1000000 ≤ now →
  run (exam_page now exam_id (Some (Exam.student_id ex))) st
  = if decide (unanswered_links st exam_id = []) then
      {| value := Return (redirect (url_results_page exam_id));
         db := auto_submitted_store now st exam_id ex;
         flashed := [] |}
    else {| value := Raise IntegrityError; db := st; flashed := [] |}.
Proof.
  intros Hex Hstart Hstatus Hnow.
  unfold exam_page, login_required_student, Exam_get_or_404, Exam_get.
  apply run_eq_outcome. mstep. rewrite Hex. simpl. mstep.
  rewrite decide_False by (by intros ?). rewrite Hstart.
  set (limit := start_time + timedelta_minutes (Exam.duration_minutes ex)) in *.
  assert ((remaining_seconds limit now <? 0) = true) as ->.
  { apply Z.ltb_lt. unfold remaining_seconds.
    replace (limit - now) with (- (now - limit)) by lia.
    rewrite Z.quot_opp_l by lia.
    pose proof (Z.quot_le_lower_bound (now - limit) 1000000 1). lia. }
  rewrite decide_True by done. mstep.
  rewrite auto_submit_exam_spec. cbn [fst]. rewrite Hex.
  destruct (decide (unanswered_links st exam_id = [])); by mstep.
Qed.

(** The page of an instance is refused to a student who does not
    own it, and nothing changes. *)
Theorem exam_page_forbidden (st : Store) (now : Z) (exam_id : Z) (ex : Exam.t)
    (student_id : Z) :
  exams st !! exam_id = Some ex →
  Exam.student_id ex ≠ student_id →
  run (exam_page now exam_id (Some student_id)) st
  = {| value := Raise (HTTPException 403); db := st; flashed := [] |}.
Proof.
  intros Hex Hne.
  unfold exam_page, login_required_student, Exam_get_or_404, Exam_get.
  apply run_eq_outcome. mstep. rewrite Hex. simpl. mstep.
  rewrite decide_True by done. by mstep.
Qed.

(** Without a student in the session, a route behind
    [login_required_student] redirects to the login page and does not run;
    the store is untouched. *)
Theorem login_required_student_redirects (f : Z → M response) (st : Store) :
  run (login_required_student f None) st
  = {| value := Return (redirect url_login); db := st;
       flashed := [("Please log in to continue.", "warning")] |}.
Proof. done. Qed.

(** ** Record answers *)

Lemma upsert_loop_spec exam items :
  ∀ w, for_each items (submit_exam_upsert_body exam) w
       = (Return tt,
          with_session
            (with_exam_answers (λ m, fold_left (upsert_item exam) items m)) w).
Proof.
  induction items as [|item items IH]; intros w; cbn [for_each fold_left].
  { unfold ret. by destruct w as [c [] fl]. }
  destruct w as [c s fl]. unfold with_session at 1, with_exam_answers at 1.
  cbn [session committed flashes exam_answers].
  unfold upsert_item at 2, submit_exam_upsert_body at 1. mstep.
  destruct (item_question_id item) as [qid|]; mstep.
  - unfold ExamAnswer_first, ExamAnswer_insert, ExamAnswer_update. mstep.
    destruct (head _) as [existing|]; mstep; by rewrite IH.
  - by rewrite IH.
Qed.

Lemma submit_grade_ok qs l :
  ∀ tot w, questions (session w) = qs →
  Forall (λ x : Z * ExamAnswer.t, is_Some (qs !! ExamAnswer.question_id x.2)) l →
  for_fold l submit_exam_grade_body tot w = for_fold l grade_exam_body tot w.
Proof.
  induction l as [|x l IH]; intros tot w Hqs Hall; [done|].
  inversion Hall as [|?? [q Hq] Hall']; subst. cbn [for_fold].
  unfold submit_exam_grade_body at 1, grade_exam_body at 1, Question_get.
  mstep. rewrite Hq. simpl.
  destruct (grade_answer_text _ _) as [c s]. unfold ExamAnswer_update. mstep.
  by apply IH.
Qed.

Lemma submit_grade_fails qs l :
  ∀ tot w, questions (session w) = qs →
  ¬ Forall (λ x : Z * ExamAnswer.t, is_Some (qs !! ExamAnswer.question_id x.2)) l →
  ∃ w', for_fold l submit_exam_grade_body tot w = (Raise AttributeError, w')
        ∧ committed w' = committed w ∧ flashes w' = flashes w.
Proof.
  induction l as [|x l IH]; intros tot w Hqs Hall.
  { destruct Hall. constructor. }
  cbn [for_fold]. unfold submit_exam_grade_body at 1, Question_get. mstep.
  rewrite Hqs.
  destruct (qs !! ExamAnswer.question_id x.2) as [q|] eqn:Hq; simpl.
  - destruct (grade_answer_text _ _) as [c s]. unfold ExamAnswer_update. mstep.
    edestruct (IH (tot + s)) as (w' & -> & Hc & Hf); [|..|by eauto].
    + done.
    + intros Hl. apply Hall. constructor; [by eauto|done].
  - mstep. eauto.
Qed.

Lemma submit_exam_spec st now exam_id ex items :
  exams st !! exam_id = Some ex →
  check_time_allowed now (exam_id, ex) = true →
  let o := run (submit_exam now exam_id (Some (Some items))
                  (Some (Exam.student_id ex))) st in
  let st1 := with_exam_answers
               (λ m, fold_left (upsert_item (exam_id, ex)) items m) st in
  if decide (Forall (has_question st1) (answers_of st1 exam_id)) then
    o = {| value := Return (json_graded (grade_total st1 exam_id)
                              (url_results_page exam_id));
           db := with_exams
                   (insert exam_id
                      (closed ex (grade_total st1 exam_id) "completed" None))
                   (graded_store st1 exam_id);
           flashed := [] |}
  else value o = Raise AttributeError ∧ db o = st1.
Proof.
  intros Hex Htime o st1.
  assert (submit_exam now exam_id (Some (Some items))
            (Some (Exam.student_id ex)) (clean st [])
          = bind (for_fold (answers_of st1 exam_id) submit_exam_grade_body 0)
              (λ total_score,
                 bind (Exam_update exam_id
                         (closed ex total_score "completed" None))
                   (λ _, bind commit
                      (λ _, ret (json_graded total_score
                                   (url_results_page exam_id)))))
              (clean st1 [])) as Hrun.
  { unfold submit_exam, login_required_student, Exam_get_or_404, Exam_get.
    mstep. rewrite Hex. simpl. mstep.
    rewrite decide_False by (by intros ?). rewrite Htime. simpl. mstep.
    rewrite upsert_loop_spec. mstep. unfold ExamAnswer_filter_by. mstep.
    done. }
  destruct (decide _) as [Hall|Hall].
  - subst o. apply run_eq_outcome. rewrite Hrun. rewrite bind_run.
    rewrite (submit_grade_ok (questions st1)) by done.
    rewrite grade_loop_spec. unfold Exam_update. by mstep.
  - destruct (submit_grade_fails (questions st1) (answers_of st1 exam_id) 0
                (clean st1 [])) as (w' & Hw & Hc & Hf); [done|done|].
    subst o. unfold run. rewrite Hrun, bind_run, Hw. simpl. by rewrite Hc.
Qed.

Lemma head_filter_lookup {A} (P : Z * A → Prop) `{!∀ x, Decision (P x)}
    (m : gmap Z A) (x : Z * A) :
  head (filter P (map_to_list m)) = Some x → P x ∧ m !! x.1 = Some x.2.
Proof.
  intros Hh. apply head_Some_elem_of, list_elem_of_filter in Hh as [HP Hin].
  split; [done|]. destruct x. by apply elem_of_map_to_list.
Qed.








(** ** Concrete stores and requests *)

(** [C1] as stated fails: instance 1 holds a record with score 1 whose
    Question is gone; Grade skips it and stores the total 0, while the
    scores of the records of the instance add up to 1. *)
Lemma grade_exam_total_score_counterexample :
  let o := run (grade_exam 1) stale_store in
  Exam.total_score <$> exams (db o) !! 1
  ≠ Some (sum_scores (answers_of (db o) 1)).
Proof. vm_compute. intros H. discriminate H. Qed.

(** [start_exam_empty_pool_persists] on the empty store. *)
Lemma start_exam_empty_pool_persists_witness :
  questions empty_store = ∅
  ∧ let o := run (start_exam first_k 100 (Some 1)) empty_store in
    let exam_id := next_id (exams empty_store) in
    value o = Return (redirect url_student_dashboard)
    ∧ flashed o = [("No questions available."%string, "danger"%string)]
    ∧ exams empty_store !! exam_id = None
    ∧ exams (db o) !! exam_id = Some (new_exam 100 1 60).
Proof.
  split; [reflexivity|].
  exact (start_exam_empty_pool_persists first_k empty_store 100 1 eq_refl).
Defined.

(** [exam_page_sub_second_expiry] half a second past the hour. *)
Lemma exam_page_sub_second_expiry_witness :
  exams no_question_store !! 1 = Some sitting
  ∧ Exam.start_time sitting = Some 0
  ∧ (0 + timedelta_minutes (Exam.duration_minutes sitting) < 3600500000
     < 0 + timedelta_minutes (Exam.duration_minutes sitting) + 1000000)
  ∧ let o := run (exam_page 3600500000 1 (Some (Exam.student_id sitting)))
               no_question_store in
    check_time_allowed 3600500000 (1, sitting) = false
    ∧ value o = Return (render_exam (1, sitting) 0)
    ∧ db o = no_question_store.
Proof.
  assert (exams no_question_store !! 1 = Some sitting) as H1 by reflexivity.
  assert (Exam.start_time sitting = Some 0) as H2 by reflexivity.
  assert (0 + timedelta_minutes (Exam.duration_minutes sitting) < 3600500000
          < 0 + timedelta_minutes (Exam.duration_minutes sitting) + 1000000)
    as H3 by (vm_compute; split; reflexivity).
  split; [exact H1|]. split; [exact H2|]. split; [exact H3|].
  exact (exam_page_sub_second_expiry no_question_store 3600500000 1 sitting 0
           H1 H2 H3).
Defined.

(** [auto_submit_exam_placeholder_rejected] on an instance with one
    unanswered question. *)
Lemma auto_submit_exam_placeholder_rejected_witness :
  unanswered_links unanswered_store (1, sitting).1 ≠ []
  ∧ let o := run (auto_submit_exam 3600500000 (1, sitting)) unanswered_store in
    value o = Raise IntegrityError ∧ db o = unanswered_store.
Proof.
  assert (unanswered_links unanswered_store (1, sitting).1 ≠ []) as H
    by (vm_compute; intros H; discriminate H).
  split; [exact H|].
  exact (auto_submit_exam_placeholder_rejected unanswered_store 3600500000
           (1, sitting) H).
Defined.



(** [exam_page_expired] a second past the hour, on an instance without
    links. *)
Lemma exam_page_expired_witness :
  exams no_question_store !! 1 = Some sitting
  ∧ Exam.start_time sitting = Some 0
  ∧ Exam.status sitting = "in-progress"%string
  ∧ 0 + timedelta_minutes (Exam.duration_minutes sitting) + 1000000 ≤ 3601000000
  ∧ run (exam_page 3601000000 1 (Some (Exam.student_id sitting)))
      no_question_store
    = if decide (unanswered_links no_question_store 1 = []) then
        {| value := Return (redirect (url_results_page 1));
           db := auto_submitted_store 3601000000 no_question_store 1 sitting;
           flashed := [] |}
      else {| value := Raise IntegrityError; db := no_question_store;
              flashed := [] |}.
Proof.
  assert (exams no_question_store !! 1 = Some sitting) as H1 by reflexivity.
  assert (Exam.start_time sitting = Some 0) as H2 by reflexivity.
  assert (Exam.status sitting = "in-progress"%string) as H3 by reflexivity.
  assert (0 + timedelta_minutes (Exam.duration_minutes sitting) + 1000000
          ≤ 3601000000) as H4 by (vm_compute; intros H; discriminate H).
  split; [exact H1|]. split; [exact H2|]. split; [exact H3|]. split; [exact H4|].
  exact (exam_page_expired no_question_store 3601000000 1 sitting 0 H1 H2 H3 H4).
Defined.

(** [exam_page_forbidden] for student 2 on the instance of student 1. *)
Lemma exam_page_forbidden_witness :
  exams no_question_store !! 1 = Some sitting
  ∧ Exam.student_id sitting ≠ 2
  ∧ run (exam_page 100 1 (Some 2)) no_question_store
    = {| value := Raise (HTTPException 403); db := no_question_store;
         flashed := [] |}.
Proof.
  assert (exams no_question_store !! 1 = Some sitting) as H1 by reflexivity.
  assert (Exam.student_id sitting ≠ 2) as H2 by (intros H; discriminate H).
  split; [exact H1|]. split; [exact H2|].
  exact (exam_page_forbidden no_question_store 100 1 sitting 2 H1 H2).
Defined.

(** The answer "Paris" to a question whose reference answer is
    "Paris": the request answers "graded" with total 1, the record is
    correct with score 1, and the instance is completed with total 1. *)
Theorem submit_exam_paris :
  let o := run (submit_exam 100 1 (Some (Some [answer_to 1 "Paris"])) (Some 1))
             unanswered_store in
  value o = Return (json_graded 1 (url_results_page 1))
  ∧ map (λ x, (ExamAnswer.question_id x.2, ExamAnswer.is_correct x.2,
               ExamAnswer.score x.2)) (answers_of (db o) 1) = [(1, true, 1)]
  ∧ (λ e, (Exam.status e, Exam.total_score e)) <$> exams (db o) !! 1
    = Some ("completed"%string, 1).
Proof. vm_compute. done. Qed.

(** ** The sequence matcher *)

Module DifflibFacts.
Import Difflib DifflibInv.

(** *** Loops *)

Lemma while_false {S} fuel (cond : S → bool) body s :
  cond s = false → while fuel cond body s = s.
Proof. intros H. destruct fuel; simpl; [done|]. by rewrite H. Qed.

Lemma while_inv {S} (P : S → Prop) fuel (cond : S → bool) body :
  (∀ s, P s → cond s = true → P (body s)) →
  ∀ s, P s → P (while fuel cond body s).
Proof.
  intros Hstep. induction fuel as [|fuel IH]; intros s Hs; simpl; [done|].
  destruct (cond s) eqn:Hc; [|done]. by apply IH, Hstep.
Qed.

(** With a measure that every turn decreases, the loop has left when the
    fuel covers the measure: the result does not satisfy the condition. *)
Lemma while_exits {S} (P : S → Prop) (μ : S → nat) fuel (cond : S → bool) body :
  (∀ s, P s → cond s = true → P (body s) ∧ (μ (body s) < μ s)%nat) →
  ∀ s, P s → (μ s ≤ fuel)%nat → cond (while fuel cond body s) = false.
Proof.
  intros Hstep. induction fuel as [|fuel IH]; intros s Hs Hμ; simpl.
  - destruct (cond s) eqn:Hc; [|done].
    destruct (Hstep s Hs Hc) as [_ ?]. lia.
  - destruct (cond s) eqn:Hc; [|done].
    destruct (Hstep s Hs Hc) as [? ?]. apply IH; [done|lia].
Qed.

Lemma fold_left_seqZ_inv {St} (f : St → Z → St) (I : Z → St → Prop) lo n s0 :
  I lo s0 →
  (∀ i s, lo ≤ i < lo + n → I i s → I (i + 1) (f s i)) →
  I (lo + Z.max 0 n) (fold_left f (seqZ lo n) s0).
Proof.
  intros H0 Hstep. destruct (decide (n ≤ 0)) as [Hn|Hn].
  { rewrite seqZ_nil by done. simpl. by replace (lo + Z.max 0 n) with lo by lia. }
  replace (Z.max 0 n) with n by lia.
  rewrite <- (Z2Nat.id n) in * by lia.
  assert (∀ k : nat, (k ≤ Z.to_nat n)%nat →
    I (lo + Z.of_nat k) (fold_left f (seqZ lo (Z.of_nat k)) s0)) as Hk;
    [|by apply Hk].
  induction k as [|k IH]; intros Hle.
  { simpl. by rewrite Z.add_0_r. }
  rewrite seqZ_S, fold_left_app. simpl.
  replace (lo + Z.of_nat (S k)) with (lo + Z.of_nat k + 1) by lia.
  apply Hstep; [lia|]. apply IH. lia.
Qed.

(** *** The index of positions *)

Lemma elem_of_positions l c : ∀ off j,
  j ∈ positions off l c ↔ off ≤ j ∧ l !! Z.to_nat (j - off) = Some c.
Proof.
  induction l as [|x l IH]; intros off j; simpl.
  { split; [by intros ?%elem_of_nil|by intros [_ ?]]. }
  rewrite elem_of_app, IH. split.
  - intros [Hj|[Hle Hl]].
    + case_decide; [|by apply elem_of_nil in Hj].
      apply list_elem_of_singleton in Hj as ->. subst.
      split; [lia|]. by replace (off - off) with 0 by lia.
    + split; [lia|]. replace (Z.to_nat (j - off)) with (S (Z.to_nat (j - (off + 1))))
        by lia. done.
  - intros [Hle Hl]. destruct (decide (j = off)) as [->|Hne].
    + left. replace (off - off) with 0 in Hl by lia. simpl in Hl.
      injection Hl as ->. rewrite decide_True by done. by apply list_elem_of_singleton.
    + right. split; [lia|].
      replace (Z.to_nat (j - off)) with (S (Z.to_nat (j - (off + 1)))) in Hl
        by lia. done.
Qed.

Lemma positions_sorted l c : ∀ off, StronglySorted Z.lt (positions off l c).
Proof.
  induction l as [|x l IH]; intros off; simpl; [constructor|].
  case_decide; simpl; [|apply IH].
  constructor; [apply IH|]. apply Forall_forall. intros j Hj.
  apply elem_of_positions in Hj. lia.
Qed.

Lemma index_fold_lookup l c : ∀ off (b2j : gmap ascii (list Z)),
  fold_left index_step (zip (seqZ off (Z.of_nat (length l))) l) b2j !! c
  = match positions off l c with
    | [] => b2j !! c
    | ps => Some (default [] (b2j !! c) ++ ps)
    end.
Proof.
  induction l as [|x l IH]; intros off b2j; [done|].
  cbn [length]. rewrite seqZ_cons by lia.
  replace (Z.pred (Z.of_nat (S (length l)))) with (Z.of_nat (length l)) by lia.
  cbn [zip zip_with fold_left positions]. rewrite IH.
  replace (Z.succ off) with (off + 1) by lia.
  unfold index_step. destruct (decide (x = c)) as [->|Hne].
  - rewrite lookup_insert_eq. simpl.
    destruct (positions (off + 1) l c); simpl; [done|].
    by rewrite <- app_assoc.
  - rewrite lookup_insert_ne by done. done.
Qed.

Lemma chain_b_index_lookup b c :
  chain_b_index b !! c
  = match positions 0 b c with [] => None | ps => Some ps end.
Proof.
  unfold chain_b_index, enumerate.
  change (λ (b2j : gmap ascii (list Z)) '(i, elt),
            let indices := default [] (b2j !! elt) in
            <[elt:=indices ++ [i]]> b2j) with index_step.
  rewrite index_fold_lookup. by rewrite lookup_empty.
Qed.

(** Whatever [__chain_b] keeps for an element is the list of all its
    positions. *)
Lemma chain_b_lookup b c js :
  chain_b b !! c = Some js → js = positions 0 b c.
Proof.
  unfold chain_b. intros [Hl _]%map_lookup_filter_Some.
  rewrite chain_b_index_lookup in Hl.
  by destruct (positions 0 b c); simplify_eq.
Qed.

(** *** [find_longest_match] stays inside the window *)

Lemma scan_row_bounded js i alo blo bhi (j2len : gmap Z Z) :
  alo ≤ i →
  (∀ j l, j2len !! j = Some l → 0 ≤ l ∧ l ≤ i - alo ∧ l ≤ j - blo + 1) →
  ∀ newj2len best,
    rows_bounded alo blo bhi (i + 1) (newj2len, best) →
    rows_bounded alo blo bhi (i + 1) (scan_row js i blo bhi j2len newj2len best).
Proof.
  intros Hi Hj2len.
  induction js as [|j js IH]; intros newj2len best Hb; [done|].
  cbn [scan_row]. destruct (j <? blo) eqn:Hlo; [by apply IH|].
  destruct (bhi <=? j) eqn:Hhi; [done|].
  apply Z.ltb_ge in Hlo. apply Z.leb_gt in Hhi.
  set (k := default 0 (j2len !! (j - 1)) + 1).
  assert (1 ≤ k ∧ k ≤ i + 1 - alo ∧ k ≤ j - blo + 1) as Hk.
  { subst k. destruct (j2len !! (j - 1)) as [l|] eqn:Hl; simpl.
    - apply Hj2len in Hl. lia.
    - lia. }
  apply IH. destruct Hb as [Hnew Hw]. split; cbn [fst snd].
  - intros j' l'. destruct (decide (j = j')) as [<-|Hne].
    + rewrite lookup_insert_eq. intros [= <-]. lia.
    + rewrite lookup_insert_ne by done. apply Hnew.
  - destruct (size best <? k) eqn:Hlt; [|done].
    unfold in_window, size. cbn [fst snd]. lia.
Qed.

Lemma scan_rows_bounded m alo ahi blo bhi :
  alo ≤ ahi → blo ≤ bhi →
  in_window alo ahi blo bhi (scan_rows m alo ahi blo bhi).2.
Proof.
  intros Ha Hb. unfold scan_rows.
  pose proof (fold_left_seqZ_inv
    (λ '(j2len, best) i,
       let js := match item (a m) i with
                 | Some x => default [] (b2j m !! x)
                 | None => []
                 end in
       scan_row js i blo bhi j2len ∅ best)
    (rows_bounded alo blo bhi) alo (ahi - alo) (∅, (alo, blo, 0))) as Hinv.
  replace (alo + Z.max 0 (ahi - alo)) with ahi in Hinv by lia.
  apply Hinv.
  - split; [intros j l Hl; cbn [fst] in Hl; by apply lookup_empty_Some in Hl|].
    unfold in_window, size. cbn [fst snd]. lia.
  - intros i [j2len best] Hi [Hj Hw]. cbn [fst snd] in Hj, Hw.
    apply scan_row_bounded; [lia|..].
    + intros j l Hl. apply Hj in Hl. lia.
    + split; [intros j l Hl; cbn [fst] in Hl; by apply lookup_empty_Some in Hl|].
      cbn [snd]. unfold in_window in *. lia.
Qed.

Lemma back_cond_true m junk alo blo x :
  back_cond m junk alo blo x = true → alo < x.1.1 ∧ blo < x.1.2.
Proof.
  destruct x as [[besti bestj] bestsize]. unfold back_cond.
  intros [[?%Z.ltb_lt ?%Z.ltb_lt]%andb_true_iff _]%andb_true_iff. done.
Qed.

Lemma forth_cond_true m junk ahi bhi x :
  forth_cond m junk ahi bhi x = true →
  x.1.1 + size x < ahi ∧ x.1.2 + size x < bhi.
Proof.
  destruct x as [[besti bestj] bestsize]. unfold forth_cond.
  intros [[?%Z.ltb_lt ?%Z.ltb_lt]%andb_true_iff _]%andb_true_iff. done.
Qed.

Lemma extend_back_in_window m junk alo ahi blo bhi x :
  in_window alo ahi blo bhi x →
  in_window alo ahi blo bhi (extend_back m junk alo blo x).
Proof.
  unfold extend_back. apply while_inv. clear x.
  intros [[besti bestj] bestsize] Hw Hc%back_cond_true.
  unfold in_window, size in *. cbn [fst snd back_body] in *. lia.
Qed.

Lemma extend_forth_in_window m junk alo ahi blo bhi x :
  in_window alo ahi blo bhi x →
  in_window alo ahi blo bhi (extend_forth m junk ahi bhi x).
Proof.
  unfold extend_forth. apply while_inv. clear x.
  intros [[besti bestj] bestsize] Hw Hc%forth_cond_true.
  unfold in_window, size in *. cbn [fst snd forth_body] in *. lia.
Qed.

(** The extension loops leave because their condition fails, not because
    the fuel is spent. *)
Lemma extend_back_exits m junk alo blo x :
  back_cond m junk alo blo (extend_back m junk alo blo x) = false.
Proof.
  unfold extend_back.
  apply (while_exits (λ _, True) (λ x, Z.to_nat (x.1.1 - alo))); [|done|done].
  intros [[besti bestj] bestsize] _ Hc%back_cond_true.
  cbn [fst snd back_body] in *. split; [done|lia].
Qed.

Lemma extend_forth_exits m junk ahi bhi x :
  forth_cond m junk ahi bhi (extend_forth m junk ahi bhi x) = false.
Proof.
  unfold extend_forth.
  apply (while_exits (λ _, True) (λ x, Z.to_nat (ahi - (x.1.1 + size x))));
    [|done|done].
  intros [[besti bestj] bestsize] _ Hc%forth_cond_true.
  unfold size in *. cbn [fst snd forth_body] in *. split; [done|lia].
Qed.

Lemma find_longest_match_in_window m alo ahi blo bhi :
  alo ≤ ahi → blo ≤ bhi →
  in_window alo ahi blo bhi (find_longest_match m alo ahi blo bhi).
Proof.
  intros Ha Hb. unfold find_longest_match.
  apply extend_forth_in_window, extend_back_in_window,
    extend_forth_in_window, extend_back_in_window.
  by apply scan_rows_bounded.
Qed.

(** *** The work list of [get_matching_blocks] empties *)

Lemma queue_body_decreases m st :
  Forall range_ok st.1 → queue_cond st = true →
  Forall range_ok (queue_body m st).1
  ∧ (queue_weight (queue_body m st) < queue_weight st)%nat.
Proof.
  destruct st as [[|[[[alo ahi] blo] bhi] queue] blocks]; [done|].
  intros Hq _. cbn [fst] in Hq. apply Forall_cons in Hq as [[Ha Hb] Hq].
  cbn [fst snd] in Ha, Hb. cbn [queue_body].
  pose proof (find_longest_match_in_window m alo ahi blo bhi Ha Hb) as Hw.
  destruct (find_longest_match m alo ahi blo bhi) as [[i j] k].
  unfold in_window, size in Hw. cbn [fst snd] in Hw.
  destruct (k =? 0) eqn:Hk.
  { split; [done|]. unfold queue_weight, range_weight. cbn [fst snd foldr]. lia. }
  apply Z.eqb_neq in Hk.
  destruct ((alo <? i) && (blo <? j)) eqn:H1;
    destruct ((i + k <? ahi) && (j + k <? bhi)) eqn:H2;
    try (apply andb_true_iff in H1 as [?%Z.ltb_lt ?%Z.ltb_lt]);
    try (apply andb_true_iff in H2 as [?%Z.ltb_lt ?%Z.ltb_lt]);
    (split; [repeat (apply Forall_cons; split; [unfold range_ok; cbn [fst snd]; lia|]);
             done
            |unfold queue_weight, range_weight; cbn [fst snd foldr]; lia]).
Qed.

(** [get_matching_blocks] leaves its loop with an empty work list. *)
Lemma queue_loop_exits m : queue_cond (queue_loop m) = false.
Proof.
  unfold queue_loop.
  apply (while_exits (λ st, Forall range_ok st.1) queue_weight).
  - intros st. apply queue_body_decreases.
  - cbn [fst]. apply Forall_cons. split; [|done].
    unfold range_ok. cbn [fst snd]. lia.
  - unfold queue_weight, range_weight, queue_fuel. cbn [fst snd foldr]. lia.
Qed.

(** *** A sequence against itself *)

Section equal_sequences.
Variable x : list ascii.

Let n : Z := Z.of_nat (length x).
Let m : SequenceMatcher := new_matcher x x.

Lemma run_at_kept j : 0 ≤ j → kept x j = true → run_at x j = run_at x (j - 1) + 1.
Proof.
  intros Hj Hk. unfold run_at.
  replace (Z.to_nat (j + 1)) with (Datatypes.S (Z.to_nat j)) by lia.
  cbn [run_upto]. rewrite Z2Nat.id by lia. rewrite Hk.
  by replace (j - 1 + 1) with j by lia.
Qed.

Lemma run_at_dropped j : 0 ≤ j → kept x j = false → run_at x j = 0.
Proof.
  intros Hj Hk. unfold run_at.
  replace (Z.to_nat (j + 1)) with (Datatypes.S (Z.to_nat j)) by lia.
  cbn [run_upto]. rewrite Z2Nat.id by lia. by rewrite Hk.
Qed.

Lemma run_upto_bound k : 0 ≤ run_upto x k ≤ Z.of_nat k.
Proof.
  induction k as [|k IH]; cbn [run_upto]; [lia|].
  destruct (kept x (Z.of_nat k)); lia.
Qed.

Lemma run_at_bound j : -1 ≤ j → 0 ≤ run_at x j ≤ j + 1.
Proof.
  intros Hj. unfold run_at. pose proof (run_upto_bound (Z.to_nat (j + 1))). lia.
Qed.

Lemma n_nonneg : 0 ≤ n.
Proof. unfold n. lia. Qed.

Lemma item_in_range j : 0 ≤ j < n → ∃ c, item x j = Some c.
Proof.
  intros Hj. unfold item. rewrite (proj2 (Z.ltb_ge j 0)) by lia.
  apply lookup_lt_is_Some. unfold n in Hj. lia.
Qed.

Lemma item_positions c j :
  j ∈ positions 0 x c ↔ 0 ≤ j < n ∧ item x j = Some c.
Proof.
  rewrite elem_of_positions. unfold item. replace (j - 0) with j by lia.
  split.
  - intros [Hj Hl]. rewrite (proj2 (Z.ltb_ge j 0)) by lia.
    split; [|done]. apply lookup_lt_Some in Hl. unfold n. lia.
  - intros [Hj Hl]. rewrite (proj2 (Z.ltb_ge j 0)) in Hl by lia. split; [lia|done].
Qed.

Lemma scan_row_diagonal i (j2len : gmap Z Z) :
  0 ≤ i < n → kept x i = true →
  (∀ j l, j2len !! j = Some l →
          0 ≤ j < n ∧ 0 ≤ l ∧ l ≤ run_at x (i - 1) ∧ l ≤ run_at x j) →
  default 0 (j2len !! (i - 1)) = run_at x (i - 1) →
  ∀ rem newj2len best,
    StronglySorted Z.lt rem →
    Forall (λ j, 0 ≤ j < n ∧ kept x j = true) rem →
    (best.1.1 = best.1.2 ∧ 0 ≤ best.1.1 ∧ 0 ≤ size best
     ∧ best.1.1 + size best ≤ i + 1) →
    (∀ j l, newj2len !! j = Some l →
            0 ≤ j < n ∧ 0 ≤ l ∧ l ≤ run_at x i ∧ l ≤ run_at x j) →
    (∀ j, 0 ≤ j < i → run_at x j ≤ size best) →
    ((i ∈ rem ∧ newj2len !! i = None)
     ∨ (newj2len !! i = Some (run_at x i) ∧ run_at x i ≤ size best
        ∧ Forall (λ j, i < j) rem)) →
    diagonal_inv x (i + 1) (scan_row rem i 0 n j2len newj2len best).
Proof.
  intros Hi Hkept Hj2len Hdiag.
  pose proof (run_at_kept i (proj1 Hi) Hkept) as Hrun.
  pose proof (run_at_bound (i - 1) ltac:(lia)) as Hrb.
  induction rem as [|j rem IH];
    intros newj2len best Hsorted Hrem Hbest Hnew Hruns Hcase.
  { cbn [scan_row]. destruct Hcase as [[Hin _]|(Hl & Hle & _)].
    { by apply elem_of_nil in Hin. }
    unfold diagonal_inv. cbn [fst snd].
    replace (i + 1 - 1) with i by lia. rewrite Hl.
    split; [done|]. split; [done|]. split; [|done].
    intros j Hj. destruct (decide (j = i)) as [->|]; [done|]. apply Hruns. lia. }
  apply StronglySorted_inv in Hsorted as [Hsorted Hgt].
  apply Forall_cons in Hrem as [[Hj Hkj] Hrem].
  cbn [scan_row]. rewrite (proj2 (Z.ltb_ge j 0)) by lia.
  rewrite (proj2 (Z.leb_gt n j)) by lia.
  set (k := default 0 (j2len !! (j - 1)) + 1).
  pose proof (run_at_kept j (proj1 Hj) Hkj) as Hrunj.
  pose proof (run_at_bound (j - 1) ltac:(lia)) as Hrbj.
  assert (1 ≤ k ∧ k ≤ run_at x i ∧ k ≤ run_at x j) as Hk.
  { subst k. destruct (j2len !! (j - 1)) as [l|] eqn:Hl; simpl.
    - apply Hj2len in Hl. replace (j - 1 - 1 + 1) with (j - 1) in * by lia. lia.
    - lia. }
  assert (∀ j' l, <[j:=k]> newj2len !! j' = Some l →
            0 ≤ j' < n ∧ 0 ≤ l ∧ l ≤ run_at x i ∧ l ≤ run_at x j') as Hnew'.
  { intros j' l. destruct (decide (j = j')) as [<-|Hne].
    - rewrite lookup_insert_eq. intros [= <-]. lia.
    - rewrite lookup_insert_ne by done. apply Hnew. }
  destruct (decide (j = i)) as [->|Hne].
  - (* the diagonal entry *)
    assert (k = run_at x i) as Hki by (subst k; lia).
    destruct Hcase as [[_ Hnone]|(_ & _ & Hall)];
      [|apply Forall_cons in Hall as [? _]; lia].
    apply IH.
    + done.
    + done.
    + destruct (size best <? k) eqn:Hlt; [|done].
      pose proof (run_at_bound i ltac:(lia)). unfold size. cbn [fst snd]. lia.
    + exact Hnew'.
    + intros j' Hj'. specialize (Hruns j' Hj').
      destruct (size best <? k) eqn:Hlt; [|done].
      apply Z.ltb_lt in Hlt. unfold size in *. cbn [snd]. lia.
    + right. rewrite lookup_insert_eq, Hki. split; [done|]. split.
      * destruct (size best <? run_at x i) eqn:Hlt.
        -- unfold size. cbn [snd]. lia.
        -- by apply Z.ltb_ge in Hlt.
      * eapply Forall_impl; [exact Hgt|]. intros ??. lia.
  - (* off the diagonal: no better than what is known *)
    assert (k ≤ size best) as Hnot.
    { destruct (decide (j < i)) as [Hji|Hji].
      - specialize (Hruns j ltac:(lia)). lia.
      - destruct Hcase as [[Hin _]|(_ & Hle & _)]; [|lia].
        apply elem_of_cons in Hin as [->|Hin]; [done|].
        eapply Forall_forall in Hgt; [|exact Hin]. lia. }
    rewrite (proj2 (Z.ltb_ge (size best) k)) by lia.
    apply IH; [done|done|done|done|done|].
    destruct Hcase as [[Hin Hnone]|(Hl & Hle & Hall)].
    + left. apply elem_of_cons in Hin as [->|Hin]; [done|].
      split; [done|]. by rewrite lookup_insert_ne.
    + right. rewrite lookup_insert_ne by done.
      apply Forall_cons in Hall as [_ Hall]. done.
Qed.

Lemma kept_positions c js j :
  chain_b x !! c = Some js → j ∈ js → 0 ≤ j < n ∧ kept x j = true.
Proof.
  intros Hc Hj. rewrite (chain_b_lookup x c js Hc) in Hj.
  apply item_positions in Hj as [Hj Hitem]. split; [done|].
  unfold kept. rewrite Hitem. apply bool_decide_eq_true. by rewrite Hc.
Qed.

Lemma scan_rows_diagonal : diagonal_inv x n (scan_rows m 0 n 0 n).
Proof.
  unfold scan_rows.
  pose proof (fold_left_seqZ_inv
    (λ '(j2len, best) i,
       let js := match item (a m) i with
                 | Some c => default [] (b2j m !! c)
                 | None => []
                 end in
       scan_row js i 0 n j2len ∅ best)
    (diagonal_inv x) 0 (n - 0) (∅, (0, 0, 0))) as Hinv.
  replace (0 + Z.max 0 (n - 0)) with n in Hinv by (pose proof n_nonneg; lia).
  apply Hinv; clear Hinv.
  - unfold diagonal_inv, size. cbn [fst snd]. rewrite !lookup_empty.
    split; [lia|]. split; [by intros j l ?%lookup_empty_Some|].
    split; [lia|]. done.
  - intros i [j2len best] Hi (Hbest & Hj2len & Hruns & Hdiag).
    cbn [fst snd] in Hbest, Hj2len, Hruns, Hdiag.
    destruct (item_in_range i ltac:(lia)) as [c Hc].
    change (a m) with x. change (b2j m) with (chain_b x). rewrite Hc.
    destruct (chain_b x !! c) as [js|] eqn:Hjs; cbn [default].
    + assert (kept x i = true) as Hk.
      { unfold kept. rewrite Hc. apply bool_decide_eq_true. by rewrite Hjs. }
      apply scan_row_diagonal; try done; unfold id.
      * lia.
      * rewrite (chain_b_lookup x c js Hjs). apply positions_sorted.
      * apply Forall_forall. intros j Hj. by eapply kept_positions.
      * lia.
      * left. split; [|by rewrite lookup_empty].
        rewrite (chain_b_lookup x c js Hjs). apply item_positions.
        split; [lia|done].
    + assert (run_at x i = 0) as Hr.
      { apply run_at_dropped; [lia|]. unfold kept. rewrite Hc.
        apply bool_decide_eq_false. rewrite Hjs. by intros [? ?]. }
      cbn [scan_row]. unfold diagonal_inv. cbn [fst snd].
      replace (i + 1 - 1) with i by lia. rewrite lookup_empty, Hr.
      split; [lia|]. split; [by intros j l ?%lookup_empty_Some|].
      split; [|done]. intros j Hj.
      destruct (decide (j = i)) as [->|]; [lia|]. apply Hruns. lia.
Qed.

Lemma isbjunk_new_matcher c : isbjunk m c = false.
Proof. unfold isbjunk. by apply bool_decide_eq_false, not_elem_of_empty. Qed.

Lemma extend_back_diagonal (k : nat) : ∀ size0,
  Z.of_nat k ≤ n →
  while k (back_cond m false 0 0) back_body (Z.of_nat k, Z.of_nat k, size0)
  = (0, 0, size0 + Z.of_nat k).
Proof.
  induction k as [|k IH]; intros size0 Hk.
  { simpl. f_equal. lia. }
  cbn [while].
  assert (back_cond m false 0 0
            (Z.of_nat (Datatypes.S k), Z.of_nat (Datatypes.S k), size0) = true)
    as ->.
  { unfold back_cond. destruct (item_in_range (Z.of_nat (Datatypes.S k) - 1)
      ltac:(lia)) as [c Hc].
    change (b m) with x. change (a m) with x. rewrite Hc.
    rewrite isbjunk_new_matcher, !bool_decide_true by done.
    rewrite ?andb_true_r.
    repeat match goal with
           | |- (_ && _) = true => apply andb_true_iff; split
           end; apply Z.ltb_lt; lia. }
  cbn [back_body].
  replace (Z.of_nat (Datatypes.S k) - 1) with (Z.of_nat k) by lia.
  rewrite IH by lia. f_equal. lia.
Qed.

Lemma extend_forth_diagonal (k : nat) : ∀ size0,
  0 ≤ size0 → size0 + Z.of_nat k = n →
  while k (forth_cond m false n n) forth_body (0, 0, size0) = (0, 0, n).
Proof.
  induction k as [|k IH]; intros size0 H0 Hk.
  { simpl. do 2 f_equal. lia. }
  cbn [while].
  assert (forth_cond m false n n (0, 0, size0) = true) as ->.
  { unfold forth_cond. rewrite !Z.add_0_l.
    destruct (item_in_range size0 ltac:(lia)) as [c Hc].
    change (b m) with x. change (a m) with x. rewrite Hc.
    rewrite isbjunk_new_matcher, !bool_decide_true by done.
    rewrite ?andb_true_r.
    repeat match goal with
           | |- (_ && _) = true => apply andb_true_iff; split
           end; apply Z.ltb_lt; lia. }
  cbn [forth_body]. apply IH; lia.
Qed.

Lemma back_cond_junk alo blo best : back_cond m true alo blo best = false.
Proof.
  destruct best as [[besti bestj] bestsize]. unfold back_cond.
  destruct (item _ _) as [y|]; [|by rewrite andb_false_r].
  destruct (item _ _) as [x'|]; [|by rewrite andb_false_r].
  rewrite isbjunk_new_matcher, bool_decide_false by done.
  by rewrite andb_false_r.
Qed.

Lemma forth_cond_junk ahi bhi best : forth_cond m true ahi bhi best = false.
Proof.
  destruct best as [[besti bestj] bestsize]. unfold forth_cond.
  destruct (item _ _) as [y|]; [|by rewrite andb_false_r].
  destruct (item _ _) as [x'|]; [|by rewrite andb_false_r].
  rewrite isbjunk_new_matcher, bool_decide_false by done.
  by rewrite andb_false_r.
Qed.

(** The longest match of a sequence with itself is the whole sequence,
    whatever [__chain_b] dropped as popular. *)
Lemma find_longest_match_self : find_longest_match m 0 n 0 n = (0, 0, n).
Proof.
  unfold find_longest_match.
  destruct scan_rows_diagonal as (Hbest & _).
  destruct (scan_rows m 0 n 0 n) as [j2len [[besti bestj] bestsize]].
  unfold size in Hbest. cbn [fst snd] in Hbest.
  destruct Hbest as (<- & Hi & Hs & Hle).
  unfold extend_back at 2. cbn [fst snd]. rewrite Z.sub_0_r.
  rewrite <- (Z2Nat.id besti) at 2 3 by done.
  rewrite extend_back_diagonal by lia. rewrite Z2Nat.id by done.
  unfold extend_forth at 2. unfold size. cbn [fst snd].
  rewrite (extend_forth_diagonal _ (bestsize + besti)) by lia.
  unfold extend_back, extend_forth.
  by rewrite !while_false by (apply back_cond_junk || apply forth_cond_junk).
Qed.

Lemma get_matching_blocks_self :
  get_matching_blocks m = if n =? 0 then [(0, 0, 0)] else [(0, 0, n); (n, n, 0)].
Proof.
  unfold get_matching_blocks, queue_loop, queue_fuel.
  change (Z.of_nat (length (a m))) with n.
  change (Z.of_nat (length (b m))) with n.
  cbn [while queue_cond fst queue_body]. rewrite find_longest_match_self.
  destruct (n =? 0) eqn:Hn.
  - rewrite while_false by done. by apply Z.eqb_eq in Hn as ->.
  - rewrite !Z.add_0_l, !Z.ltb_irrefl. cbn [andb].
    rewrite while_false by done. cbn.
    rewrite !Z.add_0_l, Z.eqb_refl. cbn [andb]. by rewrite Hn.
Qed.

Lemma ratio_self : Qle_bool (6 # 10) (ratio m) = true.
Proof.
  unfold ratio. rewrite get_matching_blocks_self.
  change (Z.of_nat (length (a m))) with n.
  change (Z.of_nat (length (b m))) with n.
  unfold _calculate_ratio. destruct (n =? 0) eqn:Hn.
  - apply Z.eqb_eq in Hn as ->. done.
  - apply Z.eqb_neq in Hn. assert (0 < n) by (pose proof n_nonneg; lia).
    rewrite (proj2 (Z.eqb_neq (n + n) 0)) by lia.
    unfold Qle_bool, sum_sizes, size. cbn [foldr snd Qnum Qden].
    rewrite Z2Pos.id by lia. apply Z.leb_le. lia.
Qed.

End equal_sequences.

End DifflibFacts.

(** ** The grader *)

(** An empty submission is graded [(false, 0)], whatever the
    reference answer. *)
Theorem grade_answer_text_empty (model_answer : string) :
  grade_answer_text "" model_answer = (false, 0).
Proof. done. Qed.

(** [C4] as stated fails at the empty string: an empty submission is
    refused before any comparison. *)
Lemma grade_answer_text_same_counterexample :
  grade_answer_text "" "" ≠ (true, 1).
Proof. vm_compute. intros H. discriminate H. Qed.

(** [C4], amended.  Grading a non-empty submission against itself gives
    [(true, 1)], for texts of every length: the elements that the matcher
    drops as popular in long texts are recovered when the match is
    extended. *)
Theorem grade_answer_text_same (x : string) :
  x ≠ EmptyString → grade_answer_text x x = (true, 1).
Proof.
  intros Hx. unfold grade_answer_text. rewrite bool_decide_false by done.
  by rewrite DifflibFacts.ratio_self.
Qed.

(** [grade_answer_text_same] on "Paris". *)
Lemma grade_answer_text_same_witness :
  "Paris"%string ≠ EmptyString
  ∧ grade_answer_text "Paris" "Paris" = (true, 1).
Proof.
  assert ("Paris"%string ≠ EmptyString) as H by (intros H; discriminate H).
  split; [exact H|]. exact (grade_answer_text_same "Paris" H).
Defined.

(** [C5] as stated fails.  The matcher pairs up two characters of "ab"
    with "bacb" but only one of "bacb" with "ab", so that the ratio is
    2/3 in one order and 1/3 in the other.  And a blank submission
    matches an empty reference, while an empty submission is refused. *)
Lemma grade_answer_text_symmetric_counterexample :
  (grade_answer_text "ab" "bacb").1 ≠ (grade_answer_text "bacb" "ab").1
  ∧ (grade_answer_text "  " "").1 ≠ (grade_answer_text "" "  ").1.
Proof. split; vm_compute; intros H; discriminate H. Qed.

(** ** Grade: what it keeps, and grading twice *)

Lemma grade_answer_text_binary s m :
  grade_answer_text s m = (true, 1) ∨ grade_answer_text s m = (false, 0).
Proof.
  unfold grade_answer_text. case_bool_decide; [by right|].
  destruct (Qle_bool _ _); auto.
Qed.

Lemma closed_closed ex t t' s :
  closed (closed ex t s None) t' s None = closed ex t' s None.
Proof. done. Qed.

Lemma regraded_student_id qs eid a :
  ExamAnswer.student_id (regraded qs eid a) = ExamAnswer.student_id a.
Proof.
  unfold regraded, regrade. case_decide; [|done].
  by destruct (qs !! ExamAnswer.question_id a).
Qed.

(** A record of another instance, or one whose Question is missing, goes
    through the grading loop unchanged. *)
Lemma regraded_skipped qs eid a :
  ExamAnswer.exam_id a ≠ eid ∨ qs !! ExamAnswer.question_id a = None →
  regraded qs eid a = a.
Proof.
  unfold regraded, regrade. intros [Hne|Hq].
  - by rewrite decide_False.
  - rewrite Hq. simpl. by case_decide.
Qed.

(** A record of the instance whose Question exists comes out with the
    verdict of the grader on its text. *)
Lemma regraded_verdict qs eid a q :
  ExamAnswer.exam_id a = eid → qs !! ExamAnswer.question_id a = Some q →
  (ExamAnswer.is_correct (regraded qs eid a),
   ExamAnswer.score (regraded qs eid a))
  = grade_answer_text (default EmptyString (ExamAnswer.student_answer a))
      (Question.model_answer q).
Proof.
  intros He Hq. unfold regraded, regrade. rewrite decide_True, Hq by done.
  simpl. by destruct (grade_answer_text _ _).
Qed.

Lemma sum_scores_count (l : list (Z * ExamAnswer.t)) :
  Forall (λ x, ExamAnswer.score x.2 = if ExamAnswer.is_correct x.2 then 1 else 0)
    l →
  sum_scores l
  = Z.of_nat (length (filter (λ x, ExamAnswer.is_correct x.2 = true) l)).
Proof.
  induction 1 as [|x l Hx _ IH]; [done|].
  rewrite sum_scores_cons, filter_cons, IH, Hx.
  destruct (ExamAnswer.is_correct x.2).
  - rewrite decide_True by done. cbn [length]. lia.
  - rewrite decide_False by done. lia.
Qed.

Lemma elem_of_answers_of st eid x :
  x ∈ answers_of st eid
  ↔ exam_answers st !! x.1 = Some x.2 ∧ ExamAnswer.exam_id x.2 = eid.
Proof.
  unfold answers_of. rewrite list_elem_of_filter.
  destruct x as [id a]. rewrite elem_of_map_to_list. simpl. tauto.
Qed.

(** [X2].  Grade (on an instance of the store) leaves the questions, the
    links and the audit log as they were, and every other instance too.
    The graded instance keeps its owner, its times and its duration, and
    is completed; no end time is stamped.  The table of AnswerRecords
    keeps its keys, and every record keeps its instance, question, student
    and text; a record of another instance, or one whose Question is
    missing, is not changed at all. *)
Theorem grade_exam_frame (st : Store) (exam_id : Z) (ex : Exam.t) :
  exams st !! exam_id = Some ex →
  let o := run (grade_exam exam_id) st in
  questions (db o) = questions st
  ∧ exam_questions (db o) = exam_questions st
  ∧ audit_logs (db o) = audit_logs st
  ∧ (∀ id, id ≠ exam_id → exams (db o) !! id = exams st !! id)
  ∧ (∃ total,
       exams (db o) !! exam_id
       = Some {| Exam.student_id := Exam.student_id ex;
                 Exam.start_time := Exam.start_time ex;
                 Exam.end_time := Exam.end_time ex;
                 Exam.total_score := total;
                 Exam.status := "completed";
                 Exam.duration_minutes := Exam.duration_minutes ex;
                 Exam.created_at := Exam.created_at ex |})
  ∧ dom (exam_answers (db o)) = dom (exam_answers st)
  ∧ ∀ id a,
      exam_answers st !! id = Some a →
      ∃ a', exam_answers (db o) !! id = Some a'
            ∧ ExamAnswer.exam_id a' = ExamAnswer.exam_id a
            ∧ ExamAnswer.question_id a' = ExamAnswer.question_id a
            ∧ ExamAnswer.student_id a' = ExamAnswer.student_id a
            ∧ ExamAnswer.student_answer a' = ExamAnswer.student_answer a
            ∧ (ExamAnswer.exam_id a ≠ exam_id
               ∨ questions st !! ExamAnswer.question_id a = None → a' = a).
Proof.
  intros Hex o. pose proof (grade_exam_spec st [] exam_id) as Hs.
  rewrite Hex in Hs. subst o. rewrite (run_eq _ _ _ _ Hs).
  cbn [db committed questions exam_questions audit_logs exams exam_answers
       with_exams graded_store with_exam_answers].
  repeat split.
  - intros id Hne. by rewrite lookup_insert_ne.
  - eexists. rewrite lookup_insert_eq. reflexivity.
  - apply dom_fmap_L.
  - intros id a Ha. exists (regraded (questions st) exam_id a).
    rewrite lookup_fmap, Ha.
    rewrite regraded_exam_id, regraded_question_id, regraded_student_id,
      regraded_student_answer.
    repeat split. apply regraded_skipped.
Qed.

(** [X3].  Grading twice is grading once: a second Grade of the same
    instance returns what the first returned (the same total, or the same
    failure on an instance that is not in the store) and leaves the store
    exactly as the first left it. *)
Theorem grade_exam_idempotent (st : Store) (exam_id : Z) :
  let o1 := run (grade_exam exam_id) st in
  let o2 := run (grade_exam exam_id) (db o1) in
  value o2 = value o1 ∧ db o2 = db o1.
Proof.
  pose proof (grade_exam_spec st [] exam_id) as H1.
  destruct (exams st !! exam_id) as [ex|] eqn:Hex.
  - rewrite (run_eq _ _ _ _ H1). cbn [db value committed].
    set (total := grade_total st exam_id) in *.
    set (st1 := with_exams _ (graded_store st exam_id)).
    pose proof (grade_exam_spec st1 [] exam_id) as H2.
    assert (exams st1 !! exam_id = Some (closed ex total "completed" None))
      as Hex1.
    { subst st1. cbn [exams with_exams]. by rewrite lookup_insert_eq. }
    rewrite Hex1 in H2. rewrite (run_eq _ _ _ _ H2). cbn [db value committed].
    rewrite (grade_total_graded st st1 exam_id) by done. fold total.
    split; [done|]. rewrite closed_closed.
    unfold st1, graded_store, with_exams, with_exam_answers.
    cbn [questions exams exam_questions exam_answers audit_logs].
    f_equal.
    + by rewrite insert_insert_eq.
    + rewrite <- map_fmap_compose. apply map_fmap_ext.
      intros k a _. simpl. apply regraded_idemp.
  - rewrite (run_eq _ _ _ _ H1). cbn [db value committed].
    rewrite (run_eq _ _ _ _ H1). done.
Qed.

Lemma graded_binary st eid x :
  x ∈ prod_map id (regraded (questions st) eid) <$> answers_of st eid →
  is_Some (questions st !! ExamAnswer.question_id x.2) →
  ExamAnswer.score x.2 = if ExamAnswer.is_correct x.2 then 1 else 0.
Proof.
  intros [y [-> Hy]]%list_elem_of_fmap. simpl.
  rewrite regraded_question_id. intros [q Hq].
  apply elem_of_answers_of in Hy as [_ He].
  pose proof (regraded_verdict (questions st) eid y.2 q He Hq) as Hv.
  destruct (grade_answer_text_binary
              (default EmptyString (ExamAnswer.student_answer y.2))
              (Question.model_answer q)) as [Hg|Hg];
    rewrite Hg in Hv; injection Hv as -> ->; done.
Qed.

(** [X4].  Scores are binary.  After Grade, every AnswerRecord of the
    instance whose Question exists holds the score 1 when it is marked
    correct and 0 when it is not, and the total that Grade returns is the
    number of those records that are marked correct: it lies between 0 and
    the number of records of the instance. *)
Theorem grade_exam_binary_scores (st : Store) (exam_id : Z) (ex : Exam.t) :
  exams st !! exam_id = Some ex →
  let o := run (grade_exam exam_id) st in
  let records := filter (has_question (db o)) (answers_of (db o) exam_id) in
  Forall (λ x, ExamAnswer.score x.2 = if ExamAnswer.is_correct x.2 then 1 else 0)
    records
  ∧ value o
    = Return (Z.of_nat (length (filter (λ x, ExamAnswer.is_correct x.2 = true)
                                  records)))
  ∧ (length (filter (λ x, ExamAnswer.is_correct x.2 = true) records)
     ≤ length (answers_of st exam_id))%nat.
Proof.
  intros Hex. pose proof (grade_exam_spec st [] exam_id) as Hs.
  rewrite Hex in Hs. cbv zeta. rewrite (run_eq _ _ _ _ Hs).
  cbn [db value committed].
  set (st' := with_exams _ _).
  assert (exam_answers st'
          = regraded (questions st) exam_id <$> exam_answers st) as Ha by done.
  pose proof (sum_scores_graded st st' exam_id eq_refl Ha) as Ht.
  set (records := filter (has_question st') (answers_of st' exam_id)) in *.
  assert (Forall (λ x : Z * ExamAnswer.t,
            ExamAnswer.score x.2 = if ExamAnswer.is_correct x.2 then 1 else 0)
            records) as Hbin.
  { apply Forall_forall. intros x [Hq Hx]%list_elem_of_filter.
    rewrite (answers_of_graded st st' exam_id Ha) in Hx.
    by apply (graded_binary st exam_id). }
  split; [done|]. split.
  - rewrite <- Ht. fold records. by rewrite sum_scores_count.
  - etrans; [apply length_filter|]. etrans; [apply length_filter|].
    rewrite (answers_of_graded st st' exam_id Ha). by rewrite length_fmap.
Qed.

(** A submission that is not empty and has the normal form of the
    reference answer is correct. *)
Lemma grade_answer_text_match s m :
  s ≠ EmptyString → normalise s = normalise m →
  grade_answer_text s m = (true, 1).
Proof.
  intros Hs Hn. unfold grade_answer_text. rewrite bool_decide_false by done.
  fold (normalise s) (normalise m). rewrite Hn.
  by rewrite DifflibFacts.ratio_self.
Qed.

(** [X5].  Full marks.  When every AnswerRecord of the instance holds a
    text that is not empty and that equals, up to case and surrounding
    whitespace, the reference answer of its Question, Grade returns the
    number of records of the instance, and leaves every one of them
    marked correct with the score 1. *)
Theorem grade_exam_full_marks (st : Store) (exam_id : Z) (ex : Exam.t) :
  exams st !! exam_id = Some ex →
  Forall (λ x : Z * ExamAnswer.t,
            ∃ q text,
              questions st !! ExamAnswer.question_id x.2 = Some q
              ∧ ExamAnswer.student_answer x.2 = Some text
              ∧ text ≠ EmptyString
              ∧ normalise text = normalise (Question.model_answer q))
    (answers_of st exam_id) →
  let o := run (grade_exam exam_id) st in
  value o = Return (Z.of_nat (length (answers_of st exam_id)))
  ∧ Forall (λ x : Z * ExamAnswer.t,
              ExamAnswer.is_correct x.2 = true ∧ ExamAnswer.score x.2 = 1)
      (answers_of (db o) exam_id).
Proof.
  intros Hex Hall. pose proof (grade_exam_spec st [] exam_id) as Hs.
  rewrite Hex in Hs. cbv zeta. rewrite (run_eq _ _ _ _ Hs).
  cbn [db value committed].
  set (st' := with_exams _ _).
  assert (exam_answers st'
          = regraded (questions st) exam_id <$> exam_answers st) as Ha by done.
  rewrite (answers_of_graded st st' exam_id Ha).
  assert (Forall (λ x : Z * ExamAnswer.t, ExamAnswer.exam_id x.2 = exam_id)
            (answers_of st exam_id)) as Hid.
  { apply Forall_forall. intros x Hx. by apply elem_of_answers_of in Hx as [_ ?]. }
  unfold grade_total.
  induction Hall as [|x l (q & text & Hq & Ht & Hne & Hn) _ IH].
  { split; [done|constructor]. }
  apply Forall_cons in Hid as [Hx Hid]. destruct (IH Hid) as [IH1 IH2].
  pose proof (regraded_verdict (questions st) exam_id x.2 q Hx Hq) as Hv.
  rewrite Ht in Hv. cbn [default from_option id] in Hv.
  rewrite (grade_answer_text_match text _ Hne Hn) in Hv.
  injection Hv as Hc Hsc. split.
  - rewrite sum_gains_cons. injection IH1 as ->. unfold gain, regrade.
    rewrite Hq. cbn [mbind option_bind from_option graded ExamAnswer.score].
    rewrite Ht. cbn [default from_option id].
    rewrite (grade_answer_text_match text _ Hne Hn). cbn [snd length].
    f_equal. lia.
  - rewrite fmap_cons. apply Forall_cons. split; [|done]. done.
Qed.

(** ** Who may use the exam-scoped routes *)

Lemma Exam_get_or_404_run exam_id w :
  Exam_get_or_404 exam_id w
  = match exams (session w) !! exam_id with
    | Some ex => (Return (exam_id, ex), w)
    | None => (Raise (HTTPException 404), w)
    end.
Proof.
  unfold Exam_get_or_404, Exam_get. mstep.
  by destruct (exams (session w) !! exam_id).
Qed.


(** ** The exam page *)

(** [X7].  Up to one second past the limit (the second not included), the
    owner's GET /exam/{id} renders the exam with the whole seconds that
    are left, zero once the limit has passed, and changes nothing; this
    does not depend on the status of the instance: a completed or
    auto-submitted instance is rendered as well. *)
Theorem exam_page_within_limit (st : Store) (now : Z) (exam_id : Z)
    (ex : Exam.t) (start_time : Z) :
  exams st !! exam_id = Some ex →
  Exam.start_time ex = Some start_time →
  let limit := start_time + timedelta_minutes (Exam.duration_minutes ex) in
  now < limit + 1000000 →
  run (exam_page now exam_id (Some (Exam.student_id ex))) st
  = {| value := Return (render_exam (exam_id, ex)
                          (Z.max 0 ((limit - now) `div` 1000000)));
       db := st; flashed := [] |}.
Proof.
  intros Hex Hstart limit Hnow. apply run_eq_outcome.
  unfold exam_page, login_required_student.
  rewrite bind_run, Exam_get_or_404_run. cbn [session]. rewrite Hex.
  cbn [snd value db flashed]. rewrite decide_False by (by intros ?).
  rewrite Hstart. fold limit.
  assert (remaining_seconds limit now = Z.max 0 ((limit - now) `div` 1000000))
    as ->.
  { unfold remaining_seconds. destruct (decide (now ≤ limit)) as [Hle|Hgt].
    - rewrite Z.quot_div_nonneg by lia.
      pose proof (Z.div_pos (limit - now) 1000000). lia.
    - rewrite Z.max_l.
      + replace (limit - now) with (- (now - limit)) by lia.
        rewrite Z.quot_opp_l by lia. rewrite Z.quot_small by lia. done.
      + assert ((limit - now) `div` 1000000 < 0); [|lia].
        apply Z.div_lt_upper_bound; lia. }
  assert ((Z.max 0 ((limit - now) `div` 1000000) <? 0) = false) as ->
    by (apply Z.ltb_ge; lia).
  done.
Qed.

(** [X8].  A second or more past the limit, the owner's GET /exam/{id} of
    an instance that is not in progress redirects to the results and
    changes nothing: a closed instance is not submitted again. *)
Theorem exam_page_closed_instance (st : Store) (now : Z) (exam_id : Z)
    (ex : Exam.t) (start_time : Z) :
  exams st !! exam_id = Some ex →
  Exam.start_time ex = Some start_time →
  Exam.status ex ≠ "in-progress" →
  start_time + timedelta_minutes (Exam.duration_minutes ex) + 1000000 ≤ now →
  run (exam_page now exam_id (Some (Exam.student_id ex))) st
  = {| value := Return (redirect (url_results_page exam_id)); db := st;
       flashed := [] |}.
Proof.
  intros Hex Hstart Hstatus Hnow. apply run_eq_outcome.
  unfold exam_page, login_required_student.
  rewrite bind_run, Exam_get_or_404_run. cbn [session]. rewrite Hex.
  cbn [snd value db flashed]. rewrite decide_False by (by intros ?).
  rewrite Hstart.
  set (limit := start_time + timedelta_minutes (Exam.duration_minutes ex)) in *.
  assert ((remaining_seconds limit now <? 0) = true) as ->.
  { apply Z.ltb_lt. unfold remaining_seconds.
    replace (limit - now) with (- (now - limit)) by lia.
    rewrite Z.quot_opp_l by lia.
    pose proof (Z.quot_le_lower_bound (now - limit) 1000000 1). lia. }
  rewrite decide_False by done. by mstep.
Qed.

(** ** Auto-submit, from the outside *)

(** [X9].  Auto-submit never adds an AnswerRecord, and never changes what
    a record is about or the text it holds: whether it succeeds or fails,
    the table of AnswerRecords has the keys it had, and every record has
    the instance, question, student and text it had. *)
Theorem auto_submit_exam_adds_no_record (st : Store) (now : Z)
    (exam : Z * Exam.t) :
  let o := run (auto_submit_exam now exam) st in
  dom (exam_answers (db o)) = dom (exam_answers st)
  ∧ ∀ id a,
      exam_answers st !! id = Some a →
      ∃ a', exam_answers (db o) !! id = Some a'
            ∧ ExamAnswer.exam_id a' = ExamAnswer.exam_id a
            ∧ ExamAnswer.question_id a' = ExamAnswer.question_id a
            ∧ ExamAnswer.student_id a' = ExamAnswer.student_id a
            ∧ ExamAnswer.student_answer a' = ExamAnswer.student_answer a.
Proof.
  pose proof (auto_submit_exam_spec now st [] exam) as Hs. cbv zeta.
  destruct (decide (unanswered_links st exam.1 = [])) as [Hun|Hun];
    [destruct (exams st !! exam.1) as [ex|]|];
    rewrite (run_eq _ _ _ _ Hs); cbn [db committed snd].
  - unfold auto_submitted_store.
    cbn [exam_answers with_audit_logs with_exams graded_store
         with_exam_answers].
    split; [apply dom_fmap_L|]. intros id a Ha.
    exists (regraded (questions st) exam.1 a). rewrite lookup_fmap, Ha.
    by rewrite regraded_exam_id, regraded_question_id, regraded_student_id,
      regraded_student_answer.
  - split; [done|]. intros id a Ha. by exists a.
  - split; [done|]. intros id a Ha. by exists a.
Qed.

(** [X10].  Auto-submit succeeds exactly on an instance of the store all of
    whose linked questions have an AnswerRecord.  It then returns the
    total of Grade, leaves the instance with that total, the status
    "auto-submitted" and the instant of the call as end time (whatever
    the status and the end time were), and appends one audit entry, under
    a key that was not in use, in the name of the owner. *)
Theorem auto_submit_exam_success (st : Store) (now : Z) (exam : Z * Exam.t) :
  let o := run (auto_submit_exam now exam) st in
  ((∃ total, value o = Return total)
   ↔ unanswered_links st exam.1 = [] ∧ is_Some (exams st !! exam.1))
  ∧ ∀ total,
      value o = Return total →
      ∃ ex,
        exams st !! exam.1 = Some ex
        ∧ value (run (grade_exam exam.1) st) = Return total
        ∧ exams (db o) !! exam.1
          = Some {| Exam.student_id := Exam.student_id ex;
                    Exam.start_time := Exam.start_time ex;
                    Exam.end_time := Some now;
                    Exam.total_score := total;
                    Exam.status := "auto-submitted";
                    Exam.duration_minutes := Exam.duration_minutes ex;
                    Exam.created_at := Exam.created_at ex |}
        ∧ audit_logs st !! next_id (audit_logs st) = None
        ∧ audit_logs (db o)
          = <[next_id (audit_logs st) :=
                {| AuditLog.student_id := Some (Exam.student_id ex);
                   AuditLog.action :=
                     "Exam " +:+ pretty exam.1
                     +:+ " auto-submitted with score " +:+ pretty total;
                   AuditLog.timestamp := now |}]> (audit_logs st).
Proof.
  pose proof (auto_submit_exam_spec now st [] exam) as Hs. cbv zeta.
  pose proof (grade_exam_spec st [] exam.1) as Hg.
  destruct (decide (unanswered_links st exam.1 = [])) as [Hun|Hun];
    [destruct (exams st !! exam.1) as [ex|] eqn:Hex|];
    rewrite (run_eq _ _ _ _ Hs); cbn [value db committed fst snd].
  - split; [split; [by eauto|by eauto]|].
    intros total [= <-]. exists ex. split; [done|]. split.
    { by rewrite (run_eq _ _ _ _ Hg). }
    unfold auto_submitted_store.
    cbn [exams audit_logs with_audit_logs with_exams graded_store
         with_exam_answers].
    rewrite lookup_insert_eq. split; [done|]. split; [apply next_id_fresh|done].
  - split; [|done]. split; [by intros [? ?]|]. by intros [_ [? ?]].
  - split; [|done]. split; [by intros [? ?]|]. by intros [? _].
Qed.

(** ** Record answers: requests that are not accepted *)

(** [X11].  Past the time limit, the owner's POST /submit_exam does not
    look at the payload: whatever it carries, no answer is recorded and
    the request runs Auto-submit.  With every linked question answered
    it reports "auto-submitted", flashes the expiry and leaves the store
    that Auto-submit leaves; with a linked question unanswered it fails
    with IntegrityError and leaves the store as it was.  The status of the
    instance is not looked at either: a completed instance becomes
    auto-submitted. *)
Theorem submit_exam_expired (st : Store) (now : Z) (exam_id : Z) (ex : Exam.t)
    (data : payload) :
  exams st !! exam_id = Some ex →
  check_time_allowed now (exam_id, ex) = false →
  let o := run (submit_exam now exam_id data (Some (Exam.student_id ex))) st in
  o = run (bind (auto_submit_exam now (exam_id, ex))
             (λ _, bind (flash "Time expired; exam auto-submitted." "warning")
                     (λ _, ret (json_auto_submitted (url_results_page exam_id)))))
        st
  ∧ exam_answers (db o)
    = exam_answers (db (run (auto_submit_exam now (exam_id, ex)) st))
  ∧ if decide (unanswered_links st exam_id = []) then
      value o = Return (json_auto_submitted (url_results_page exam_id))
      ∧ flashed o = [("Time expired; exam auto-submitted.", "warning")]
      ∧ db o = db (run (auto_submit_exam now (exam_id, ex)) st)
      ∧ Exam.status <$> exams (db o) !! exam_id = Some "auto-submitted"
      ∧ Exam.end_time <$> exams (db o) !! exam_id = Some (Some now)
    else value o = Raise IntegrityError ∧ db o = st ∧ flashed o = [].
Proof.
  intros Hex Htime.
  assert (run (submit_exam now exam_id data (Some (Exam.student_id ex))) st
          = run (bind (auto_submit_exam now (exam_id, ex))
                   (λ _, bind (flash "Time expired; exam auto-submitted."
                                 "warning")
                           (λ _, ret (json_auto_submitted
                                        (url_results_page exam_id))))) st)
    as Hrun.
  { unfold run, submit_exam, login_required_student.
    rewrite bind_run, Exam_get_or_404_run. cbn [session]. rewrite Hex.
    cbn [snd]. rewrite decide_False by (by intros ?). by rewrite Htime. }
  cbv zeta. rewrite Hrun. split; [done|].
  pose proof (auto_submit_exam_spec now st [] (exam_id, ex)) as Hs.
  cbn [fst] in Hs. rewrite Hex in Hs.
  destruct (decide (unanswered_links st exam_id = [])) as [Hun|Hun];
    rewrite (run_eq _ _ _ _ Hs); unfold run; rewrite !bind_run, Hs.
  - mstep. cbn [value db flashed committed flashes]. split; [done|].
    repeat split; unfold auto_submitted_store;
      cbn [exams with_audit_logs with_exams]; by rewrite lookup_insert_eq.
  - cbn [value db flashed committed flashes]. done.
Qed.

(** Within the time limit, the owner's POST /submit_exam without a
    JSON object, with an empty one, or with one that has no "answers"
    key is answered "Invalid payload", and nothing is changed: the
    instance stays as it is and no record is touched. *)
Theorem submit_exam_invalid_payload (st : Store) (now : Z) (exam_id : Z)
    (ex : Exam.t) (data : payload) :
  exams st !! exam_id = Some ex →
  check_time_allowed now (exam_id, ex) = true →
  data = None ∨ data = Some None →
  run (submit_exam now exam_id data (Some (Exam.student_id ex))) st
  = {| value := Return json_invalid_payload; db := st; flashed := [] |}.
Proof.
  intros Hex Htime Hdata. apply run_eq_outcome.
  unfold submit_exam, login_required_student.
  rewrite bind_run, Exam_get_or_404_run. cbn [session]. rewrite Hex.
  cbn [snd]. rewrite decide_False by (by intros ?). rewrite Htime.
  by destruct Hdata as [-> | ->].
Qed.

(** ** Record answers: what an accepted submission does to the records *)

Lemma head_filter_None {A} (P : A → Prop) `{!∀ x, Decision (P x)} (l : list A)
    (x : A) :
  head (filter P l) = None → x ∈ l → ¬ P x.
Proof.
  intros Hh Hin HP. apply head_None in Hh.
  assert (x ∈ filter P l) as Hx by by apply list_elem_of_filter.
  rewrite Hh in Hx. by apply elem_of_nil in Hx.
Qed.

(** A record that is there stays under its key, about the same question
    of the same instance and student; it is left alone unless the entry
    is about it. *)
Lemma upsert_item_old exam m item id a :
  m !! id = Some a →
  ∃ a', upsert_item exam m item !! id = Some a'
        ∧ ExamAnswer.exam_id a' = ExamAnswer.exam_id a
        ∧ ExamAnswer.question_id a' = ExamAnswer.question_id a
        ∧ ExamAnswer.student_id a' = ExamAnswer.student_id a
        ∧ (ExamAnswer.exam_id a ≠ exam.1
           ∨ item_question_id item ≠ Some (ExamAnswer.question_id a) → a' = a).
Proof.
  intros Ha. unfold upsert_item.
  destruct (item_question_id item) as [qid|]; [|by exists a].
  destruct (head _) as [existing|] eqn:Hh.
  - apply head_filter_lookup in Hh as [[He Hq] Hex].
    destruct (decide (existing.1 = id)) as [Heq|Hne].
    + subst id. rewrite Hex in Ha. injection Ha as <-.
      eexists. rewrite lookup_insert_eq. split; [done|]. simpl.
      repeat split. intros [H|H]; [done|]. by rewrite Hq in H.
    + exists a. by rewrite lookup_insert_ne.
  - exists a. rewrite lookup_insert_ne; [done|].
    intros Heq. rewrite <- Heq, next_id_fresh in Ha. done.
Qed.

(** A record that was not there is a record of the instance, in the name
    of its owner, for the question and with the text of the entry. *)
Lemma upsert_item_new exam m item id a' :
  upsert_item exam m item !! id = Some a' → m !! id = None →
  ExamAnswer.exam_id a' = exam.1
  ∧ ExamAnswer.student_id a' = Exam.student_id exam.2
  ∧ item_question_id item = Some (ExamAnswer.question_id a')
  ∧ ExamAnswer.student_answer a' = item_text item.
Proof.
  unfold upsert_item. intros Ha' Hnone.
  destruct (item_question_id item) as [qid|]; [|congruence].
  destruct (head _) as [existing|] eqn:Hh.
  - apply head_filter_lookup in Hh as [_ Hex].
    destruct (decide (existing.1 = id)) as [Heq|Hne]; [congruence|].
    rewrite lookup_insert_ne in Ha' by done. congruence.
  - destruct (decide (next_id m = id)) as [Heq|Hne].
    + rewrite <- Heq, lookup_insert_eq in Ha'. by injection Ha' as <-.
    + rewrite lookup_insert_ne in Ha' by done. congruence.
Qed.


Lemma upsert_fold_old exam items : ∀ m id a,
  m !! id = Some a →
  ∃ a', fold_left (upsert_item exam) items m !! id = Some a'
        ∧ ExamAnswer.exam_id a' = ExamAnswer.exam_id a
        ∧ ExamAnswer.question_id a' = ExamAnswer.question_id a
        ∧ ExamAnswer.student_id a' = ExamAnswer.student_id a
        ∧ (ExamAnswer.exam_id a ≠ exam.1
           ∨ (∀ item, item ∈ items →
                item_question_id item ≠ Some (ExamAnswer.question_id a)) →
           a' = a).
Proof.
  induction items as [|item items IH]; intros m id a Ha.
  { exists a. by repeat split. }
  destruct (upsert_item_old exam m item id a Ha)
    as (a1 & Ha1 & He1 & Hq1 & Hs1 & Hsame1).
  destruct (IH _ id a1 Ha1) as (a' & Ha' & He' & Hq' & Hs' & Hsame').
  exists a'. cbn [fold_left]. split; [done|].
  split; [congruence|]. split; [congruence|]. split; [congruence|].
  intros Hskip.
  assert (a1 = a) as ->.
  { apply Hsame1. destruct Hskip as [?|Hskip]; [by left|right].
    apply Hskip. by left. }
  apply Hsame'. destruct Hskip as [?|Hskip]; [by left|right].
  intros item' Hin. apply Hskip. by right.
Qed.

Lemma upsert_fold_new exam items : ∀ m id a',
  fold_left (upsert_item exam) items m !! id = Some a' → m !! id = None →
  ExamAnswer.exam_id a' = exam.1
  ∧ ExamAnswer.student_id a' = Exam.student_id exam.2
  ∧ ∃ item, item ∈ items
            ∧ item_question_id item = Some (ExamAnswer.question_id a').
Proof.
  induction items as [|item items IH]; intros m id a' Ha' Hnone.
  { simpl in Ha'. congruence. }
  cbn [fold_left] in Ha'.
  destruct (upsert_item exam m item !! id) as [a1|] eqn:Ha1.
  - destruct (upsert_item_new exam m item id a1 Ha1 Hnone)
      as (He1 & Hs1 & Hq1 & _).
    destruct (upsert_fold_old exam items _ id a1 Ha1)
      as (a2 & Ha2 & He2 & Hq2 & Hs2 & _).
    rewrite Ha' in Ha2. injection Ha2 as <-.
    split; [congruence|]. split; [congruence|].
    exists item. split; [by left|congruence].
  - destruct (IH _ id a' Ha' Ha1) as (He & Hs & item' & Hin & Hq).
    split; [done|]. split; [done|]. exists item'. split; [by right|done].
Qed.


(** *** No two records for one question of one instance *)

Lemma upsert_item_unique exam m item :
  unique_records m → unique_records (upsert_item exam m item).
Proof.
  intros Hu. unfold upsert_item.
  destruct (item_question_id item) as [qid|]; [|done].
  destruct (head _) as [existing|] eqn:Hh.
  - apply head_filter_lookup in Hh as [_ Hex].
    set (text := default (Some EmptyString) (item_answer item)).
    assert (∀ k c, <[existing.1 := answered existing.2 text]> m !! k = Some c →
            ∃ c0, m !! k = Some c0
                  ∧ ExamAnswer.exam_id c0 = ExamAnswer.exam_id c
                  ∧ ExamAnswer.question_id c0 = ExamAnswer.question_id c)
      as Hold.
    { intros k c. destruct (decide (existing.1 = k)) as [Heq|Hne].
      - subst k. rewrite lookup_insert_eq. intros [= <-]. by exists existing.2.
      - rewrite lookup_insert_ne by done. intros ?. by exists c. }
    intros i j a b Hi Hj He Hq.
    destruct (Hold _ _ Hi) as (a0 & Ha0 & Hea & Hqa).
    destruct (Hold _ _ Hj) as (b0 & Hb0 & Heb & Hqb).
    eapply Hu; [exact Ha0|exact Hb0|congruence|congruence].
  - assert (∀ k c, m !! k = Some c →
            ¬ (ExamAnswer.exam_id c = exam.1 ∧ ExamAnswer.question_id c = qid))
      as Hnone.
    { intros k c Hk.
      apply (head_filter_None _ _ (k, c) Hh). by apply elem_of_map_to_list. }
    intros i j a b Hi Hj He Hq.
    destruct (decide (i = next_id m)) as [Hin|Hin],
             (decide (j = next_id m)) as [Hjn|Hjn].
    + congruence.
    + subst i. rewrite lookup_insert_eq in Hi. injection Hi as <-.
      rewrite lookup_insert_ne in Hj by done. simpl in He, Hq.
      by destruct (Hnone _ _ Hj).
    + subst j. rewrite lookup_insert_eq in Hj. injection Hj as <-.
      rewrite lookup_insert_ne in Hi by done. simpl in He, Hq.
      by destruct (Hnone _ _ Hi).
    + rewrite lookup_insert_ne in Hi by done.
      rewrite lookup_insert_ne in Hj by done. by eapply Hu.
Qed.

Lemma upsert_fold_unique exam items : ∀ m,
  unique_records m → unique_records (fold_left (upsert_item exam) items m).
Proof.
  induction items as [|item items IH]; intros m Hu; [done|].
  cbn [fold_left]. by apply IH, upsert_item_unique.
Qed.

Lemma regraded_unique qs eid m :
  unique_records m → unique_records (regraded qs eid <$> m).
Proof.
  intros Hu i j a b. rewrite !lookup_fmap.
  destruct (m !! i) as [a0|] eqn:Ha0; [|done].
  destruct (m !! j) as [b0|] eqn:Hb0; [|done].
  intros [= <-] [= <-]. rewrite !regraded_exam_id, !regraded_question_id.
  by apply Hu.
Qed.

(** What a POST /submit_exam can make of the table of AnswerRecords,
    whoever sends it, whenever, and whatever it carries. *)
Lemma submit_exam_answers_cases st now exam_id data http_session :
  let m := exam_answers st in
  let m' := exam_answers
              (db (run (submit_exam now exam_id data http_session) st)) in
  m' = m ∨ m' = regraded (questions st) exam_id <$> m
  ∨ ∃ ex items,
      exams st !! exam_id = Some ex
      ∧ http_session = Some (Exam.student_id ex)
      ∧ check_time_allowed now (exam_id, ex) = true
      ∧ data = Some (Some items)
      ∧ (m' = fold_left (upsert_item (exam_id, ex)) items m
         ∨ m' = regraded (questions st) exam_id
                <$> fold_left (upsert_item (exam_id, ex)) items m).
Proof.
  cbv zeta. destruct http_session as [student_id|]; [|by left].
  destruct (exams st !! exam_id) as [ex|] eqn:Hex.
  2:{ left. unfold run, submit_exam, login_required_student.
      rewrite bind_run, Exam_get_or_404_run. cbn [session]. by rewrite Hex. }
  destruct (decide (Exam.student_id ex = student_id)) as [<-|Hne].
  2:{ left. unfold run, submit_exam, login_required_student.
      rewrite bind_run, Exam_get_or_404_run. cbn [session]. rewrite Hex.
      cbn [snd]. by rewrite decide_True. }
  destruct (check_time_allowed now (exam_id, ex)) eqn:Htime.
  - destruct data as [[items|]|].
    + right. right. exists ex, items. repeat (split; [done|]).
      pose proof (submit_exam_spec st now exam_id ex items Hex Htime) as Hs.
      cbv zeta in Hs. destruct (decide _) as [Hall|Hall].
      * right. by rewrite Hs.
      * left. destruct Hs as [_ ->]. done.
    + left. unfold run, submit_exam, login_required_student.
      rewrite bind_run, Exam_get_or_404_run. cbn [session]. rewrite Hex.
      cbn [snd]. rewrite decide_False by (by intros ?). by rewrite Htime.
    + left. unfold run, submit_exam, login_required_student.
      rewrite bind_run, Exam_get_or_404_run. cbn [session]. rewrite Hex.
      cbn [snd]. rewrite decide_False by (by intros ?). by rewrite Htime.
  - pose proof (auto_submit_exam_spec now st [] (exam_id, ex)) as Hs.
    cbn [fst] in Hs. rewrite Hex in Hs.
    unfold run, submit_exam, login_required_student.
    rewrite bind_run, Exam_get_or_404_run. cbn [session]. rewrite Hex.
    cbn [snd]. rewrite decide_False by (by intros ?). rewrite Htime.
    cbn [negb]. rewrite bind_run, Hs.
    destruct (decide (unanswered_links st exam_id = [])); [right; left|left];
      by mstep.
Qed.

(** [X12].  POST /submit_exam keeps the pairs (instance, question) of the
    AnswerRecords unique: if no two records of the store are about the
    same question of the same instance, then none are after the request,
    whoever sends it, at whatever instant, with whatever payload (entries
    that repeat a question included), and however the request ends. *)
Theorem submit_exam_unique_records (st : Store) (now : Z) (exam_id : Z)
    (data : payload) (http_session : option Z) :
  unique_records (exam_answers st) →
  unique_records
    (exam_answers (db (run (submit_exam now exam_id data http_session) st))).
Proof.
  intros Hu.
  destruct (submit_exam_answers_cases st now exam_id data http_session)
    as [-> | [-> | (ex & items & _ & _ & _ & _ & [-> | ->])]].
  - done.
  - by apply regraded_unique.
  - by apply upsert_fold_unique.
  - by apply regraded_unique, upsert_fold_unique.
Qed.

(** The store that an accepted submission leaves, whether the grading
    that follows the upsert succeeds or not. *)
Lemma submit_exam_accepted st now exam_id ex items :
  exams st !! exam_id = Some ex →
  check_time_allowed now (exam_id, ex) = true →
  let o := run (submit_exam now exam_id (Some (Some items))
                  (Some (Exam.student_id ex))) st in
  let m1 := fold_left (upsert_item (exam_id, ex)) items (exam_answers st) in
  questions (db o) = questions st
  ∧ exam_questions (db o) = exam_questions st
  ∧ audit_logs (db o) = audit_logs st
  ∧ (∀ id, id ≠ exam_id → exams (db o) !! id = exams st !! id)
  ∧ (exams (db o) !! exam_id = Some ex
     ∨ ∃ total, exams (db o) !! exam_id
                = Some (closed ex total "completed" None))
  ∧ (exam_answers (db o) = m1
     ∨ exam_answers (db o) = regraded (questions st) exam_id <$> m1).
Proof.
  intros Hex Htime.
  pose proof (submit_exam_spec st now exam_id ex items Hex Htime) as Hs.
  cbv zeta in Hs |- *. destruct (decide _) as [Hall|Hall].
  - rewrite Hs. cbn [db questions exam_questions audit_logs exams exam_answers
      with_exams graded_store with_exam_answers].
    repeat split; [| |by right].
    + intros id Hne. by rewrite lookup_insert_ne.
    + right. eexists. by rewrite lookup_insert_eq.
  - destruct Hs as [_ ->]. repeat split; by left.
Qed.

(** [X13].  An accepted POST /submit_exam (the owner's, within the time
    limit, with an [answers] list) touches the AnswerRecords of its
    instance and the row of the instance, and nothing else: the
    questions, the links and the other instances are as they were, and
    no audit entry is written.  The instance keeps its owner, its times
    and its duration: no end time is stamped.  A record that was there
    keeps its key, instance, question and student; it is not changed at
    all when it belongs to another instance, and it keeps its text when
    no entry of the payload names its question.  A record that was not
    there belongs to the instance, carries the student id of the owner,
    and is for a question that some entry of the payload names. *)
Theorem submit_exam_frame (st : Store) (now : Z) (exam_id : Z) (ex : Exam.t)
    (items : list answer_item) :
  exams st !! exam_id = Some ex →
  check_time_allowed now (exam_id, ex) = true →
  let o := run (submit_exam now exam_id (Some (Some items))
                  (Some (Exam.student_id ex))) st in
  questions (db o) = questions st
  ∧ exam_questions (db o) = exam_questions st
  ∧ audit_logs (db o) = audit_logs st
  ∧ (∀ id, id ≠ exam_id → exams (db o) !! id = exams st !! id)
  ∧ (∃ ex', exams (db o) !! exam_id = Some ex'
            ∧ Exam.student_id ex' = Exam.student_id ex
            ∧ Exam.start_time ex' = Exam.start_time ex
            ∧ Exam.end_time ex' = Exam.end_time ex
            ∧ Exam.duration_minutes ex' = Exam.duration_minutes ex)
  ∧ (∀ id a,
       exam_answers st !! id = Some a →
       ∃ a', exam_answers (db o) !! id = Some a'
             ∧ ExamAnswer.exam_id a' = ExamAnswer.exam_id a
             ∧ ExamAnswer.question_id a' = ExamAnswer.question_id a
             ∧ ExamAnswer.student_id a' = ExamAnswer.student_id a
             ∧ (ExamAnswer.exam_id a ≠ exam_id → a' = a)
             ∧ ((∀ item, item ∈ items →
                   item_question_id item ≠ Some (ExamAnswer.question_id a)) →
                ExamAnswer.student_answer a' = ExamAnswer.student_answer a))
  ∧ (∀ id a',
       exam_answers (db o) !! id = Some a' → exam_answers st !! id = None →
       ExamAnswer.exam_id a' = exam_id
       ∧ ExamAnswer.student_id a' = Exam.student_id ex
       ∧ ∃ item, item ∈ items
                 ∧ item_question_id item = Some (ExamAnswer.question_id a')).
Proof.
  intros Hex Htime o.
  destruct (submit_exam_accepted st now exam_id ex items Hex Htime)
    as (Hq & Hl & Hlog & Hexams & Hrow & Hans).
  fold o in Hq, Hl, Hlog, Hexams, Hrow, Hans.
  repeat (split; [done|]). split.
  { destruct Hrow as [Hrow | [total Hrow]]; rewrite Hrow; by eexists. }
  split.
  - intros id a Ha.
    destruct (upsert_fold_old (exam_id, ex) items _ id a Ha)
      as (a1 & Ha1 & He1 & Hq1 & Hs1 & Hsame).
    cbn [fst] in Hsame.
    destruct Hans as [-> | ->].
    + exists a1. repeat (split; [done|]). split.
      * intros Hne. apply Hsame. by left.
      * intros Hno. rewrite Hsame; [done|by right].
    + exists (regraded (questions st) exam_id a1).
      rewrite lookup_fmap, Ha1.
      rewrite regraded_exam_id, regraded_question_id, regraded_student_id,
        regraded_student_answer.
      repeat (split; [done|]). split.
      * intros Hne. rewrite Hsame by by left.
        apply regraded_skipped. by left.
      * intros Hno. rewrite Hsame; [done|by right].
  - intros id a' Ha' Hnone. destruct Hans as [Hm | Hm]; rewrite Hm in Ha'.
    + by apply (upsert_fold_new (exam_id, ex) items (exam_answers st) id a').
    + rewrite lookup_fmap in Ha'.
      destruct (fold_left _ _ _ !! id) as [a1|] eqn:Ha1; [|done].
      injection Ha' as <-.
      rewrite regraded_exam_id, regraded_question_id, regraded_student_id.
      by apply (upsert_fold_new (exam_id, ex) items (exam_answers st) id a1).
Qed.


(** ** The results *)

Lemma topic_summary_fold (l : list (Z * ExamAnswer.t)) : ∀ t c : Z,
  fold_left
    (λ (topic_summary : gmap string (Z * Z)) (a : Z * ExamAnswer.t),
       let topic := "General"%string in
       let entry := default (0, 0) (topic_summary !! topic) in
       <[topic := (entry.1 + 1,
                   if ExamAnswer.is_correct a.2 then entry.2 + 1
                   else entry.2)]> topic_summary)
    l {["General"%string := (t, c)]}
  = {["General"%string :=
        (t + Z.of_nat (length l),
         c + Z.of_nat (length (filter (λ a : Z * ExamAnswer.t,
                                         ExamAnswer.is_correct a.2 = true) l)))]}.
Proof.
  induction l as [|x l IH]; intros t c.
  { simpl. by rewrite !Z.add_0_r. }
  cbn [fold_left]. cbv zeta. rewrite lookup_singleton_eq, insert_singleton_eq.
  cbn [from_option id fst snd]. rewrite IH, filter_cons.
  destruct (ExamAnswer.is_correct x.2).
  - rewrite decide_True by done. cbn [length]. do 2 f_equal; lia.
  - rewrite decide_False by done. cbn [length]. do 2 f_equal; lia.
Qed.

Lemma api_results_data_run st exam_id ex :
  exams st !! exam_id = Some ex →
  let answers := answers_of st exam_id in
  let n := Z.of_nat (length answers) in
  let c := Z.of_nat (length (filter (λ a : Z * ExamAnswer.t,
                                       ExamAnswer.is_correct a.2 = true)
                               answers)) in
  run (api_results_data exam_id (Some (Exam.student_id ex))) st
  = {| value :=
         Return (json_results
                   {| rd_exam_id := exam_id;
                      rd_total_score := Exam.total_score ex;
                      max_score := n;
                      correct_count := c;
                      incorrect_count := n - c;
                      topics := if decide (answers = []) then []
                                else ["General"%string];
                      topic_correct := if decide (answers = []) then [] else [c];
                      topic_total := if decide (answers = []) then [] else [n] |});
       db := st; flashed := [] |}.
Proof.
  intros Hex answers n c. apply run_eq_outcome.
  unfold api_results_data, login_required_student.
  rewrite bind_run, Exam_get_or_404_run. cbn [session]. rewrite Hex.
  cbn [snd value db flashed]. rewrite decide_False by (by intros ?).
  unfold ExamAnswer_filter_by. mstep. fold (answers_of st exam_id).
  fold answers. do 3 f_equal.
  destruct answers as [|x l] eqn:Hl.
  { rewrite decide_True by done. done. }
  rewrite decide_False by done.
  cbn [fold_left]. cbv zeta. rewrite lookup_empty, insert_empty.
  cbn [from_option id fst snd]. rewrite topic_summary_fold.
  rewrite map_to_list_singleton. cbn [map fst snd].
  rewrite lookup_singleton_eq. cbn [from_option id fst snd].
  subst n c. rewrite filter_cons. cbn [length].
  destruct (ExamAnswer.is_correct x.2).
  - rewrite decide_True by done. cbn [length]. do 2 f_equal; f_equal; lia.
  - rewrite decide_False by done. do 2 f_equal; f_equal; lia.
Qed.

(** [X15].  The summary that GET /api/results_data gives the owner, and
    that it reads without changing anything: the stored total of the
    instance; [max_score], the number of AnswerRecords of the instance;
    [correct_count], the number of those marked correct;
    [incorrect_count], the rest, so that the two counts are not negative
    and add up to [max_score]; and one bucket "General" holding the same
    two figures, or no bucket at all when the instance has no record. *)
Theorem api_results_data_summary (st : Store) (exam_id : Z) (ex : Exam.t) :
  exams st !! exam_id = Some ex →
  let answers := answers_of st exam_id in
  let n := Z.of_nat (length answers) in
  let c := Z.of_nat (length (filter (λ a : Z * ExamAnswer.t,
                                       ExamAnswer.is_correct a.2 = true)
                               answers)) in
  run (api_results_data exam_id (Some (Exam.student_id ex))) st
  = {| value :=
         Return (json_results
                   {| rd_exam_id := exam_id;
                      rd_total_score := Exam.total_score ex;
                      max_score := n;
                      correct_count := c;
                      incorrect_count := n - c;
                      topics := if decide (answers = []) then []
                                else ["General"%string];
                      topic_correct := if decide (answers = []) then [] else [c];
                      topic_total := if decide (answers = []) then [] else [n] |});
       db := st; flashed := [] |}
  ∧ 0 ≤ c ≤ n.
Proof.
  intros Hex answers n c. split; [by apply api_results_data_run|].
  subst n c. split; [lia|]. apply Nat2Z.inj_le, length_filter.
Qed.

(** The rows that [results_page] shows for a list of records, as far as
    their Questions exist. *)
Lemma results_loop_spec qs l : ∀ results w,
  questions (session w) = qs →
  ∃ rows,
    for_fold l results_page_body results w
    = (if decide (Forall (λ x : Z * ExamAnswer.t,
                            is_Some (qs !! ExamAnswer.question_id x.2)) l)
       then Return (results ++ rows) else Raise AttributeError, w)
    ∧ (Forall (λ x : Z * ExamAnswer.t,
                 is_Some (qs !! ExamAnswer.question_id x.2)) l →
       Forall2 (λ (x : Z * ExamAnswer.t) r,
                  result_question_id r = ExamAnswer.question_id x.2
                  ∧ result_student_answer r = ExamAnswer.student_answer x.2
                  ∧ result_is_correct r = ExamAnswer.is_correct x.2
                  ∧ result_score r = ExamAnswer.score x.2
                  ∧ ∃ q, qs !! ExamAnswer.question_id x.2 = Some q
                         ∧ result_question_text r = Question.question_text q
                         ∧ correct_answer r = Question.model_answer q)
         l rows).
Proof.
  induction l as [|x l IH]; intros results w Hqs.
  { exists []. rewrite decide_True by constructor. rewrite app_nil_r.
    split; [done|]. constructor. }
  cbn [for_fold]. unfold results_page_body at 1, Question_get. mstep.
  rewrite Hqs.
  destruct (qs !! ExamAnswer.question_id x.2) as [q|] eqn:Hq; simpl.
  - mstep. destruct (IH (results ++ [
      {| result_question_id := ExamAnswer.question_id x.2;
         result_question_text := Question.question_text q;
         result_student_answer := ExamAnswer.student_answer x.2;
         correct_answer := Question.model_answer q;
         result_is_correct := ExamAnswer.is_correct x.2;
         result_score := ExamAnswer.score x.2 |}]) w Hqs) as (rows & -> & Hrows).
    eexists (_ :: rows). split.
    + destruct (decide (Forall _ l)) as [Hl|Hl].
      * rewrite decide_True by (constructor; [by eauto|done]).
        by rewrite <- app_assoc.
      * rewrite decide_False; [done|]. by inversion 1.
    + inversion 1 as [|?? _ Hl]; subst. constructor; [|by apply Hrows].
      simpl. repeat split. by exists q.
  - mstep. exists []. rewrite decide_False.
    + split; [done|]. inversion 1 as [|?? [? ?] _]; congruence.
    + inversion 1 as [|?? [? ?] _]; congruence.
Qed.

Lemma order_by_id_sorted {A} (l : list (Z * A)) :
  NoDup l.*1 → StronglySorted (λ x y : Z * A, x.1 < y.1) (order_by_id l).
Proof.
  intros Hnd.
  assert (NoDup (order_by_id l).*1) as Hnd'.
  { unfold order_by_id. by rewrite merge_sort_Permutation. }
  assert (StronglySorted id_le (order_by_id l)) as Hs.
  { apply StronglySorted_merge_sort.
    - intros x y z. unfold id_le. lia.
    - intros x y. unfold id_le. lia. }
  induction Hs as [|x k Hk IH Hx]; [constructor|].
  rewrite fmap_cons in Hnd'. apply NoDup_cons in Hnd' as [Hnotin Hnd'].
  constructor; [by apply IH|].
  apply Forall_forall. intros y Hy. rewrite Forall_forall in Hx.
  specialize (Hx y Hy). unfold id_le in Hx.
  assert (x.1 ≠ y.1); [|lia].
  intros Heq. apply Hnotin. rewrite Heq. apply list_elem_of_fmap. by exists y.
Qed.

Lemma answers_of_NoDup st exam_id : NoDup (answers_of st exam_id).*1.
Proof.
  unfold answers_of. eapply sublist_NoDup;
    [apply (NoDup_fst_map_to_list (exam_answers st))|].
  apply fmap_sublist, sublist_filter.
Qed.

Lemma results_page_run st exam_id ex :
  exams st !! exam_id = Some ex →
  ∃ rows,
    run (results_page exam_id (Some (Exam.student_id ex))) st
    = {| value := if decide (Forall (has_question st) (answers_of st exam_id))
                  then Return (render_results (exam_id, ex) rows)
                  else Raise AttributeError;
         db := st; flashed := [] |}
    ∧ (Forall (has_question st) (answers_of st exam_id) →
       Forall2 (λ (x : Z * ExamAnswer.t) r,
                  result_question_id r = ExamAnswer.question_id x.2
                  ∧ result_student_answer r = ExamAnswer.student_answer x.2
                  ∧ result_is_correct r = ExamAnswer.is_correct x.2
                  ∧ result_score r = ExamAnswer.score x.2
                  ∧ ∃ q, questions st !! ExamAnswer.question_id x.2 = Some q
                         ∧ result_question_text r = Question.question_text q
                         ∧ correct_answer r = Question.model_answer q)
         (order_by_id (answers_of st exam_id)) rows).
Proof.
  intros Hex.
  destruct (results_loop_spec (questions st)
              (order_by_id (answers_of st exam_id)) []
              (clean st []) eq_refl) as (rows & Hloop & Hrows).
  assert (Forall (λ x : Z * ExamAnswer.t,
                    is_Some (questions st !! ExamAnswer.question_id x.2))
            (order_by_id (answers_of st exam_id))
          ↔ Forall (has_question st) (answers_of st exam_id)) as Hiff.
  { unfold order_by_id. by rewrite merge_sort_Permutation. }
  exists rows. split; [|by intros ?%Hiff%Hrows]. apply run_eq_outcome.
  unfold results_page, login_required_student_at.
  rewrite bind_run, Exam_get_or_404_run. cbn [session]. rewrite Hex.
  cbn [snd value db flashed]. rewrite decide_False by (by intros ?).
  unfold ExamAnswer_filter_by. mstep. fold (answers_of st exam_id).
  rewrite Hloop.
  destruct (decide (Forall _ (order_by_id _))) as [Hall|Hall];
    destruct (decide (Forall (has_question st) _)) as [Hall'|Hall'];
    try (by mstep); by rewrite Hiff in Hall.
Qed.

(** [X16].  GET /results/{id} by the owner changes nothing.  When every
    AnswerRecord of the instance refers to a Question that exists, it
    renders one row per record, in the increasing order of the ids of the
    records, with the question, the submitted text, the verdict and the
    score of the record, and with the text and the reference answer of
    its Question.  When some record refers to a Question that is missing,
    the request fails with AttributeError. *)
Theorem results_page_rows (st : Store) (exam_id : Z) (ex : Exam.t) :
  exams st !! exam_id = Some ex →
  ∃ answers rows,
    answers ≡ₚ answers_of st exam_id
    ∧ StronglySorted (λ x y : Z * ExamAnswer.t, x.1 < y.1) answers
    ∧ run (results_page exam_id (Some (Exam.student_id ex))) st
      = {| value := if decide (Forall (has_question st) answers)
                    then Return (render_results (exam_id, ex) rows)
                    else Raise AttributeError;
           db := st; flashed := [] |}
    ∧ (Forall (has_question st) answers →
       Forall2 (λ (x : Z * ExamAnswer.t) r,
                  result_question_id r = ExamAnswer.question_id x.2
                  ∧ result_student_answer r = ExamAnswer.student_answer x.2
                  ∧ result_is_correct r = ExamAnswer.is_correct x.2
                  ∧ result_score r = ExamAnswer.score x.2
                  ∧ ∃ q, questions st !! ExamAnswer.question_id x.2 = Some q
                         ∧ result_question_text r = Question.question_text q
                         ∧ correct_answer r = Question.model_answer q)
         answers rows).
Proof.
  intros Hex. destruct (results_page_run st exam_id ex Hex) as (rows & Hrun & Hrows).
  assert (order_by_id (answers_of st exam_id) ≡ₚ answers_of st exam_id) as Hp
    by apply merge_sort_Permutation.
  exists (order_by_id (answers_of st exam_id)), rows.
  split; [done|]. split; [apply order_by_id_sorted, answers_of_NoDup|].
  split.
  - rewrite Hrun. f_equal.
    destruct (decide (Forall _ (answers_of _ _))) as [Hall|Hall];
      destruct (decide (Forall _ (order_by_id _))) as [Hall'|Hall'];
      try done; by rewrite Hp in Hall'.
  - intros Hall. apply Hrows. by rewrite <- Hp.
Qed.

(** The three answers of [three_answers_store] come in the order of their
    ids, whatever the order in which the table lists them. *)
Lemma results_page_three_rows :
  ∃ rows,
    value (run (results_page 1 (Some 1)) three_answers_store)
    = Return (render_results (1, sitting) rows)
    ∧ result_question_id <$> rows = [1; 2; 3]
    ∧ result_student_answer <$> rows
      = [Some "Paris"%string; Some "Bonn"%string; Some "Rome"%string].
Proof. eexists. split; [vm_compute; reflexivity|]. split; reflexivity. Qed.

(** ** Submission and results together *)



(** ** Start: the links of the new instance *)

Lemma for_each_add_link exam_id (l : list (Z * (Z * Question.t))) : ∀ w,
  for_each l
    (λ '(idx, q),
       ExamQuestion_insert {| ExamQuestion.exam_id := exam_id;
                              ExamQuestion.question_id := q.1;
                              ExamQuestion.question_order := idx |}) w
  = (Return tt,
     with_session
       (with_exam_questions (λ t, fold_left (add_link exam_id) l t)) w).
Proof.
  induction l as [|[idx q] l IH]; intros w; cbn [for_each].
  { unfold ret. by destruct w as [c [] fl]. }
  unfold ExamQuestion_insert at 1. mstep. by rewrite IH.
Qed.

Section Start_run.
Variable sample : list (Z * Question.t) → Z → list (Z * Question.t).

Lemma create_exam_for_student_run now st fl student_id n d :
  let exam_id := next_id (exams st) in
  let exam := new_exam now student_id d in
  let st1 := with_exams (insert exam_id exam) st in
  let pool := map_to_list (questions st) in
  let selected := sample pool (Z.min n (Z.of_nat (length pool))) in
  create_exam_for_student sample now student_id n d (clean st fl)
  = if decide (pool = []) then (Return None, clean st1 fl)
    else
      (Return (Some (exam_id, exam)),
       clean (with_audit_logs
                (λ t, <[next_id t :=
                          started_log now student_id exam_id (length selected)]> t)
                (with_exam_questions
                   (λ t, fold_left (add_link exam_id)
                           (zip (seqZ 1 (Z.of_nat (length selected))) selected) t)
                   st1)) fl).
Proof.
  intros exam_id exam st1 pool selected.
  unfold create_exam_for_student, Exam_insert, Exam_update, Question_all.
  mstep. fold exam_id exam. change (map_to_list (questions st)) with pool.
  destruct pool as [|q qs] eqn:Hpool.
  { rewrite decide_True by done. by mstep. }
  rewrite decide_False by done. fold selected.
  mstep. rewrite for_each_add_link. unfold add_log, AuditLog_insert. by mstep.
Qed.

Lemma start_exam_run now st student_id :
  let st1 := with_exams (closed_exams now student_id) st in
  let exam_id := next_id (exams st) in
  let exam := new_exam now student_id 60 in
  let st2 := with_exams (insert exam_id exam) st1 in
  let pool := map_to_list (questions st) in
  let selected := sample pool (Z.min 50 (Z.of_nat (length pool))) in
  run (start_exam sample now (Some student_id)) st
  = if decide (pool = []) then
      {| value := Return (redirect url_student_dashboard);
         db := st2;
         flashed := [("No questions available.", "danger")] |}
    else
      {| value := Return (redirect (url_exam_page exam_id));
         db := with_audit_logs
                 (λ t, <[next_id t :=
                           started_log now student_id exam_id
                             (length selected)]> t)
                 (with_exam_questions
                    (λ t, fold_left (add_link exam_id)
                            (zip (seqZ 1 (Z.of_nat (length selected))) selected)
                            t)
                    st2);
         flashed := [] |}.
Proof.
  intros st1 exam_id exam st2 pool selected.
  pose proof (create_exam_for_student_run now st1 [] student_id 50 60) as Hc.
  cbv zeta in Hc. change (questions st1) with (questions st) in Hc.
  assert (next_id (exams st1) = exam_id) as Hid.
  { unfold st1, with_exams, closed_exams. cbn [exams]. apply next_id_fmap. }
  rewrite Hid in Hc. fold exam pool selected st2 in Hc.
  unfold start_exam, login_required_student, Exam_filter_by.
  apply run_eq_outcome. mstep.
  rewrite (for_each_Exam_update (force_completed now)).
  mstep.
  pose proof (fold_update_filter (Some ∘ force_completed now)
    (λ e, Exam.student_id e = student_id ∧ Exam.status e = "in-progress")
    (exams st)) as Hf.
  simpl in Hf.
  replace (with_exams (λ m, fold_left _ _ m) st) with st1
    by (unfold st1, with_exams, closed_exams; by rewrite Hf).
  rewrite Hc. destruct (decide (pool = [])); by mstep.
Qed.

End Start_run.

(** Adding links leaves the links that are there alone. *)
Lemma add_links_old exam_id l : ∀ (t : gmap Z ExamQuestion.t) id x,
  t !! id = Some x → fold_left (add_link exam_id) l t !! id = Some x.
Proof.
  induction l as [|iq l IH]; intros t id x Hx; [done|].
  cbn [fold_left]. apply IH. unfold add_link.
  rewrite lookup_insert_ne; [done|].
  intros Heq. rewrite <- Heq, next_id_fresh in Hx. done.
Qed.

(** The table after the links are added holds the old rows and the new
    links. *)
Lemma add_links_rows exam_id l : ∀ t : gmap Z ExamQuestion.t,
  (map_to_list (fold_left (add_link exam_id) l t)).*2
  ≡ₚ (map_to_list t).*2 ++ (new_link exam_id <$> l).
Proof.
  induction l as [|iq l IH]; intros t.
  { by rewrite app_nil_r. }
  cbn [fold_left]. rewrite IH. unfold add_link.
  rewrite map_to_list_insert by apply next_id_fresh.
  rewrite !fmap_cons. cbn [snd].
  apply Permutation_middle.
Qed.

Lemma filter_snd {A} (P : A → Prop) `{!∀ x, Decision (P x)} (l : list (Z * A)) :
  (filter (λ x, P x.2) l).*2 = filter P l.*2.
Proof.
  induction l as [|x l IH]; [done|].
  rewrite fmap_cons, !filter_cons. case_decide; [rewrite fmap_cons|]; by rewrite IH.
Qed.

Lemma filter_none {A} (P : A → Prop) `{!∀ x, Decision (P x)} (l : list A) :
  Forall (λ x, ¬ P x) l → filter P l = [].
Proof.
  induction 1 as [|x l Hx _ IH]; [done|]. by rewrite filter_cons, decide_False.
Qed.

(** Two sorted lists with the same elements, the keys of which differ,
    are the same list. *)
Lemma sorted_unique {A} (key : A → Z) (l1 : list A) : ∀ l2,
  StronglySorted (λ x y, key x < key y) l1 →
  StronglySorted (λ x y, key x ≤ key y) l2 →
  l1 ≡ₚ l2 → l1 = l2.
Proof.
  induction l1 as [|x l1 IH]; intros l2 H1 H2 Hp.
  { by apply Permutation_nil_l in Hp. }
  destruct l2 as [|y l2]; [by apply Permutation_nil_r in Hp|].
  apply StronglySorted_inv in H1 as [H1 Hx].
  apply StronglySorted_inv in H2 as [H2 Hy].
  assert (x = y) as ->.
  { assert (x ∈ y :: l2) as Hin by (rewrite <- Hp; by left).
    apply elem_of_cons in Hin as [?|Hin]; [done|].
    assert (y ∈ x :: l1) as Hin' by (rewrite Hp; by left).
    apply elem_of_cons in Hin' as [?|Hin']; [done|].
    rewrite Forall_forall in Hx, Hy.
    specialize (Hx y Hin'). specialize (Hy x Hin). lia. }
  f_equal. apply IH; [done|done|]. by apply Permutation_cons_inv in Hp.
Qed.

Lemma zip_seqZ_sorted {A} (l : list A) : ∀ lo,
  StronglySorted (λ x y : Z * A, x.1 < y.1) (zip (seqZ lo (Z.of_nat (length l))) l)
  ∧ Forall (λ x : Z * A, lo ≤ x.1) (zip (seqZ lo (Z.of_nat (length l))) l).
Proof.
  induction l as [|x l IH]; intros lo.
  { split; constructor. }
  cbn [length]. rewrite seqZ_cons by lia.
  replace (Z.pred (Z.of_nat (S (length l)))) with (Z.of_nat (length l)) by lia.
  cbn [zip zip_with]. destruct (IH (Z.succ lo)) as [Hs Hlo]. split.
  - constructor; [done|]. eapply Forall_impl; [exact Hlo|]. simpl. lia.
  - constructor; [simpl; lia|]. eapply Forall_impl; [exact Hlo|]. simpl. lia.
Qed.

(** The rows that [api_get_exam_questions] builds from a list of links
    whose Questions exist. *)
Lemma questions_loop_spec qs (l : list (Z * ExamQuestion.t))
    (rows : list (Z * (Z * Question.t))) : ∀ payload w,
  questions (session w) = qs →
  Forall2 (λ ql iq, ExamQuestion.question_order ql.2 = iq.1
                    ∧ ExamQuestion.question_id ql.2 = iq.2.1
                    ∧ qs !! iq.2.1 = Some iq.2.2) l rows →
  for_fold l api_get_exam_questions_body payload w
  = (Return (payload ++ (question_row_of <$> rows)), w).
Proof.
  intros payload w Hqs Hall. revert payload.
  induction Hall as [|ql iq l rows (Ho & Hq & Hl) _ IH]; intros payload.
  { cbn [for_fold]. by rewrite fmap_nil, app_nil_r. }
  cbn [for_fold]. unfold api_get_exam_questions_body at 1, Question_get.
  mstep. rewrite Hqs, Hq, Hl. cbn [fmap option_fmap option_map]. mstep.
  rewrite IH, fmap_cons, <- app_assoc. unfold question_row_of at 2.
  by rewrite Ho.
Qed.

Section Start_links.
Variable sample : list (Z * Question.t) → Z → list (Z * Question.t).

(** [X19].  Start leaves alone what it is not about: the questions, the
    AnswerRecords, every link and every audit entry that is there, every
    instance of another student, and every instance of the student that
    is not in progress.  It adds one instance, under a key that was not
    in use; with an empty pool it adds no audit entry, and otherwise one,
    under a key that was not in use, in the name of the student, that
    tells the new instance and the number of its questions. *)
Theorem start_exam_frame (st : Store) (now : Z) (student_id : Z) :
  let o := run (start_exam sample now (Some student_id)) st in
  let pool := map_to_list (questions st) in
  let selected := sample pool (Z.min 50 (Z.of_nat (length pool))) in
  questions (db o) = questions st
  ∧ exam_answers (db o) = exam_answers st
  ∧ (∀ id x, exam_questions st !! id = Some x →
             exam_questions (db o) !! id = Some x)
  ∧ (∀ id e, exams st !! id = Some e →
             Exam.student_id e ≠ student_id ∨ Exam.status e ≠ "in-progress" →
             exams (db o) !! id = Some e)
  ∧ dom (exams (db o)) = {[next_id (exams st)]} ∪ dom (exams st)
  ∧ (next_id (exams st) ∉ dom (exams st))
  ∧ audit_logs st !! next_id (audit_logs st) = None
  ∧ audit_logs (db o)
    = if decide (pool = []) then audit_logs st
      else <[next_id (audit_logs st) :=
               started_log now student_id (next_id (exams st))
                 (length selected)]> (audit_logs st).
Proof.
  intros o pool selected. subst o. rewrite start_exam_run. fold pool selected.
  assert (∀ id e, exams st !! id = Some e →
            Exam.student_id e ≠ student_id ∨ Exam.status e ≠ "in-progress" →
            <[next_id (exams st) := new_exam now student_id 60]>
              (closed_exams now student_id (exams st)) !! id = Some e) as Hold.
  { intros id e He Hne. rewrite lookup_insert_ne.
    - unfold closed_exams. rewrite lookup_fmap, He. simpl.
      rewrite decide_False; [done|]. intros [? ?]. by destruct Hne.
    - intros Heq. rewrite <- Heq, next_id_fresh in He. done. }
  assert (dom (<[next_id (exams st) := new_exam now student_id 60]>
                 (closed_exams now student_id (exams st)))
          = {[next_id (exams st)]} ∪ dom (exams st)) as Hdom.
  { rewrite dom_insert_L. unfold closed_exams. by rewrite dom_fmap_L. }
  assert (next_id (exams st) ∉ dom (exams st)) as Hfresh.
  { apply not_elem_of_dom, next_id_fresh. }
  pose proof (next_id_fresh (audit_logs st)) as Hlog.
  destruct (decide (pool = [])); cbn [db questions exam_answers exam_questions
    exams audit_logs with_exams with_audit_logs with_exam_questions].
  - done.
  - repeat split; try done. intros id x Hx. by apply add_links_old.
Qed.

(** [X20].  Start, then the list of questions.  On a store whose links
    all belong to instances of the store, with a pool that is not empty
    and a sample taken from the pool, Start redirects to the page of the
    new instance, and GET /api/exam_questions for that instance then
    lists exactly the sampled questions, in the order of the sample,
    numbered from 1, each with its id and its text; it changes
    nothing. *)
Theorem start_exam_then_questions (st : Store) (now : Z) (student_id : Z) :
  let pool := map_to_list (questions st) in
  let selected := sample pool (Z.min 50 (Z.of_nat (length pool))) in
  let exam_id := next_id (exams st) in
  pool ≠ [] →
  selected ⊆ pool →
  (∀ id x, exam_questions st !! id = Some x →
           is_Some (exams st !! ExamQuestion.exam_id x)) →
  let o := run (start_exam sample now (Some student_id)) st in
  value o = Return (redirect (url_exam_page exam_id))
  ∧ run (api_get_exam_questions exam_id (Some student_id)) (db o)
    = {| value :=
           Return (json_exam_questions exam_id
                     (question_row_of
                      <$> zip (seqZ 1 (Z.of_nat (length selected))) selected));
         db := db o; flashed := [] |}.
Proof.
  intros pool selected exam_id Hpool Hsub Hfk o.
  subst o. rewrite start_exam_run. fold pool selected exam_id.
  rewrite decide_False by done. cbn [value db]. split; [done|].
  set (rows := zip (seqZ 1 (Z.of_nat (length selected))) selected).
  set (st' := with_audit_logs _ _).
  assert (exams st' !! exam_id = Some (new_exam now student_id 60)) as Hex.
  { subst st'. cbn [exams with_audit_logs with_exam_questions with_exams].
    by rewrite lookup_insert_eq. }
  (* the links of the new instance, in the order of the query *)
  assert ((order_by_question_order (links_of st' exam_id)).*2
          = new_link exam_id <$> rows) as Hlinks.
  { symmetry. apply (sorted_unique ExamQuestion.question_order).
    - apply (StronglySorted_fmap _ (λ x y : Z * (Z * Question.t), x.1 < y.1));
        [done|]. apply zip_seqZ_sorted.
    - apply (StronglySorted_fmap _ question_order_le); [done|].
      apply StronglySorted_merge_sort.
      + intros x y z. unfold question_order_le. lia.
      + intros x y. unfold question_order_le. lia.
    - unfold order_by_question_order. rewrite merge_sort_Permutation.
      unfold links_of.
      pose proof (filter_snd (λ x, ExamQuestion.exam_id x = exam_id)
                    (map_to_list (exam_questions st'))) as Hf.
      cbv beta in Hf. rewrite Hf. clear Hf.
      subst st'. cbn [exam_questions with_audit_logs with_exam_questions
        with_exams].
      rewrite add_links_rows, filter_app.
      rewrite (filter_none _ (map_to_list (exam_questions st)).*2).
      + rewrite filter_all; [done|]. apply Forall_forall.
        by intros x [iq [-> _]]%list_elem_of_fmap.
      + apply Forall_forall. intros x [[id x'] [-> Hx]]%list_elem_of_fmap.
        apply elem_of_map_to_list in Hx. simpl. intros Heq.
        destruct (Hfk id x' Hx) as [e He]. rewrite Heq in He.
        unfold exam_id in He. rewrite next_id_fresh in He. done. }
  apply run_eq_outcome.
  unfold api_get_exam_questions, login_required_student_at.
  rewrite bind_run, Exam_get_or_404_run. cbn [session]. rewrite Hex.
  cbn [snd new_exam Exam.student_id value db flashed].
  rewrite decide_False by (by intros ?).
  unfold ExamQuestion_filter_by. mstep. fold (links_of st' exam_id).
  rewrite (questions_loop_spec (questions st) _ rows); [done|done|].
  apply (proj1 (Forall2_fmap_l snd
    (λ (x : ExamQuestion.t) (iq : Z * (Z * Question.t)),
       ExamQuestion.question_order x = iq.1
       ∧ ExamQuestion.question_id x = iq.2.1
       ∧ questions st !! iq.2.1 = Some iq.2.2) _ _)).
  rewrite Hlinks.
  apply Forall2_fmap_l, Forall_Forall2_diag, Forall_forall.
  intros [idx q] Hin. cbn. repeat split.
  assert (q ∈ pool) as Hq.
  { apply Hsub. apply (elem_of_zip_r _ _ _ _ Hin). }
  destruct q as [qid q]. by apply elem_of_map_to_list in Hq.
Qed.

End Start_links.

(** ** Adding a question *)

Section Add_question.
Variable sample : list (Z * Question.t) → Z → list (Z * Question.t).

(** [X21].  A POST to /admin/add_question with a question text and a
    reference answer that are not empty adds the question under a fresh
    key, with the instant of the request, and touches nothing else; the
    route asks for no login.  From then on the pool is not empty: Start
    redirects every student to the page of a new instance and no longer
    reports that there are no questions. *)
Theorem admin_add_question_opens_exams (st : Store) (now : Z)
    (question_text model_answer : string) :
  question_text ≠ EmptyString → model_answer ≠ EmptyString →
  let o := run (admin_add_question now POST (Some question_text)
                  (Some model_answer)) st in
  value o = Return (redirect_to admin_dashboard_page)
  ∧ flashed o = [("Question added successfully!", "success")]
  ∧ questions st !! next_id (questions st) = None
  ∧ db o = with_questions
             (insert (next_id (questions st))
                {| Question.question_text := question_text;
                   Question.model_answer := model_answer;
                   Question.created_at := now |}) st
  ∧ ∀ now' student_id,
      value (run (start_exam sample now' (Some student_id)) (db o))
      = Return (redirect (url_exam_page (next_id (exams st)))).
Proof.
  intros Hq Ha.
  assert (run (admin_add_question now POST (Some question_text)
                 (Some model_answer)) st
          = {| value := Return (redirect_to admin_dashboard_page);
               db := with_questions
                       (insert (next_id (questions st))
                          {| Question.question_text := question_text;
                             Question.model_answer := model_answer;
                             Question.created_at := now |}) st;
               flashed := [("Question added successfully!", "success")] |})
    as Hrun.
  { apply run_eq_outcome. unfold admin_add_question, blank.
    rewrite !bool_decide_false by done. cbn [orb].
    unfold Question_insert. by mstep. }
  cbv zeta. rewrite Hrun. cbn [value db flashed].
  repeat split; [apply next_id_fresh|].
  intros now' student_id. rewrite start_exam_run.
  cbn [questions exams with_questions]. rewrite decide_False; [done|].
  intros Hnil. apply map_to_list_empty_iff in Hnil.
  by apply insert_non_empty in Hnil.
Qed.

End Add_question.

(** ** Accounts *)

Lemma Student_first_lookup students username x :
  Student_first students username = Some x →
  students !! x.1 = Some x.2 ∧ username = Some (Student.username x.2).
Proof.
  destruct username as [u|]; [|done]. cbn [Student_first]. intros Hh.
  apply head_filter_lookup in Hh as [Hu Hx]. split; [done|]. by rewrite Hu.
Qed.

Lemma Student_first_none students u id s :
  Student_first students (Some u) = None →
  students !! id = Some s → Student.username s ≠ u.
Proof.
  cbn [Student_first]. intros Hh Hs.
  apply (head_filter_None _ _ (id, s) Hh). by apply elem_of_map_to_list.
Qed.

(** With usernames that differ, the query by username finds the
    student of that name. *)
Lemma Student_first_unique students id s :
  unique_usernames students → students !! id = Some s →
  Student_first students (Some (Student.username s)) = Some (id, s).
Proof.
  intros Hu Hs. cbn [Student_first].
  destruct (head _) as [x|] eqn:Hh.
  - apply head_filter_lookup in Hh as [Hx Hl]. simpl in Hx.
    assert (x.1 = id) as Hid by by eapply Hu.
    destruct x as [j b]. simpl in *. subst j. congruence.
  - exfalso. apply (head_filter_None _ _ (id, s) Hh); [|done].
    by apply elem_of_map_to_list.
Qed.

Lemma register_unique students s :
  unique_usernames students →
  (∀ id s', students !! id = Some s' → Student.username s' ≠ Student.username s) →
  unique_usernames (<[next_id students := s]> students).
Proof.
  intros Hu Hnew i j a b Hi Hj Heq.
  destruct (decide (i = next_id students)) as [Hin|Hin],
           (decide (j = next_id students)) as [Hjn|Hjn].
  - congruence.
  - subst i. rewrite lookup_insert_eq in Hi. injection Hi as <-.
    rewrite lookup_insert_ne in Hj by done. by destruct (Hnew _ _ Hj).
  - subst j. rewrite lookup_insert_eq in Hj. injection Hj as <-.
    rewrite lookup_insert_ne in Hi by done. by destruct (Hnew _ _ Hi).
  - rewrite lookup_insert_ne in Hi by done.
    rewrite lookup_insert_ne in Hj by done. by eapply Hu.
Qed.

(** What [register] does, case by case. *)
Lemma register_run now method form students st :
  let accepted :=
    match method, form_fullname form, form_username form, form_password form with
    | POST, Some fullname, Some username, Some password =>
        if bool_decide (fullname ≠ EmptyString ∧ username ≠ EmptyString
                        ∧ password ≠ EmptyString
                        ∧ Student_first students (Some username) = None)
        then Some {| Student.fullname := fullname;
                     Student.username := username;
                     Student.password := password;
                     Student.class_level := form_class_level form;
                     Student.gender := None;
                     Student.created_at := now |}
        else None
    | _, _, _, _ => None
    end in
  ∃ pg students' fl,
    run (register now method form students) st
    = {| value := Return (pg, students'); db := st; flashed := fl |}
    ∧ match accepted with
      | Some s =>
          pg = redirect_to login_page
          ∧ students' = <[next_id students := s]> students
      | None => pg ≠ redirect_to login_page ∧ students' = students
      end.
Proof.
  destruct method; [by eexists _, _, _|].
  destruct form as [fullname username password class_level].
  unfold register. cbn [form_fullname form_username form_password
    form_class_level].
  destruct fullname as [fullname|]; [|by eexists _, _, _].
  destruct username as [username|];
    [|unfold blank; case_bool_decide; by eexists _, _, _].
  destruct password as [password|];
    [|unfold blank; do 2 case_bool_decide; by eexists _, _, _].
  unfold blank. cbv zeta.
  destruct (Student_first students (Some username)) as [x|] eqn:Hfirst;
    repeat case_bool_decide; cbn [orb];
    (eexists _, _, _; split; [reflexivity|]);
    first [done | exfalso; tauto | by destruct_and!].
Qed.

(** [X22].  Registration keeps the accounts that are there and keeps the
    usernames unique.  Whatever the request, [register] leaves every
    student of the table as it is and does not touch the store; and if no
    two students of the table have the same username, none have after
    the request. *)
Theorem register_keeps_accounts (st : Store) (now : Z) (method : http_method)
    (form : register_form) (students : gmap Z Student.t) :
  let o := run (register now method form students) st in
  db o = st
  ∧ ∃ pg students',
      value o = Return (pg, students')
      ∧ (∀ id s, students !! id = Some s → students' !! id = Some s)
      ∧ (unique_usernames students → unique_usernames students').
Proof.
  destruct (register_run now method form students st)
    as (pg & students' & fl & Hrun & Hacc).
  cbv zeta. rewrite Hrun. split; [done|]. exists pg, students'.
  split; [done|].
  destruct method; [destruct Hacc as [_ ->]; done|].
  destruct (form_fullname form) as [fullname|];
    [|destruct Hacc as [_ ->]; done].
  destruct (form_username form) as [username|];
    [|destruct Hacc as [_ ->]; done].
  destruct (form_password form) as [password|];
    [|destruct Hacc as [_ ->]; done].
  case_bool_decide as Hok; [|destruct Hacc as [_ ->]; done].
  destruct Hok as (_ & _ & _ & Hfirst). destruct Hacc as [_ ->]. split.
  - intros id s Hs. rewrite lookup_insert_ne; [done|].
    intros Heq. rewrite <- Heq, next_id_fresh in Hs. done.
  - intros Hu. apply register_unique; [done|].
    intros id s' Hs'. by apply (Student_first_none students username id).
Qed.

Lemma login_found now username password students sess st x :
  Student_first students username = Some x →
  password = Some (Student.password x.2) →
  run (login now POST username password students sess) st
  = {| value :=
         Return (redirect_to student_dashboard_page,
                 {| session_student_id := Some x.1;
                    session_student_name := Some (Student.fullname x.2);
                    session_admin_id := None;
                    session_admin_name := None |});
       db := with_audit_logs
               (λ t, <[next_id t := {| AuditLog.student_id := Some x.1;
                                       AuditLog.action := "Logged in";
                                       AuditLog.timestamp := now |}]> t) st;
       flashed := [] |}.
Proof.
  intros Hfirst ->. apply run_eq_outcome. unfold login. rewrite Hfirst.
  rewrite bool_decide_true by done. unfold add_log, AuditLog_insert. by mstep.
Qed.

(** [X23].  A session is opened only for a student of the table whose
    username and password are the ones sent.  [login] either finds such
    a student, replaces the session by one of that student alone, writes
    the audit entry "Logged in" under a key that was not in use, and
    redirects to the dashboard; or it
    renders the login page and leaves the session and the store as they
    were. *)
Theorem login_sound (st : Store) (now : Z) (method : http_method)
    (username password : option string) (students : gmap Z Student.t)
    (sess : flask_session) :
  let o := run (login now method username password students sess) st in
  (∃ id s,
     students !! id = Some s
     ∧ method = POST
     ∧ username = Some (Student.username s)
     ∧ password = Some (Student.password s)
     ∧ value o
       = Return (redirect_to student_dashboard_page,
                 {| session_student_id := Some id;
                    session_student_name := Some (Student.fullname s);
                    session_admin_id := None;
                    session_admin_name := None |})
     ∧ audit_logs st !! next_id (audit_logs st) = None
     ∧ db o = with_audit_logs
                (insert (next_id (audit_logs st))
                   {| AuditLog.student_id := Some id;
                      AuditLog.action := "Logged in";
                      AuditLog.timestamp := now |}) st)
  ∨ (value o = Return (render_template login_html, sess) ∧ db o = st).
Proof.
  cbv zeta. destruct method; [by right|].
  destruct (Student_first students username) as [x|] eqn:Hfirst.
  - destruct (decide (password = Some (Student.password x.2))) as [Hp|Hp].
    + left. exists x.1, x.2.
      destruct (Student_first_lookup _ _ _ Hfirst) as [Hx Hu].
      rewrite (login_found now username password students sess st x) by done.
      repeat (split; [done|]). split; [apply next_id_fresh|done].
    + right. unfold run, login. rewrite Hfirst.
      rewrite bool_decide_false by done. done.
  - right. unfold run, login. by rewrite Hfirst.
Qed.

(** With unique usernames, every student of the table can log in:
    a POST to /login with the username and the password of a student
    opens the session of that student, and of no other. *)
Theorem login_registered (st : Store) (now : Z) (students : gmap Z Student.t)
    (sess : flask_session) (id : Z) (s : Student.t) :
  unique_usernames students →
  students !! id = Some s →
  value (run (login now POST (Some (Student.username s))
                (Some (Student.password s)) students sess) st)
  = Return (redirect_to student_dashboard_page,
            {| session_student_id := Some id;
               session_student_name := Some (Student.fullname s);
               session_admin_id := None;
               session_admin_name := None |}).
Proof.
  intros Hu Hs.
  by rewrite (login_found now _ _ students sess st (id, s))
    by (by apply Student_first_unique || done).
Qed.

(** [X24].  Register, then log in.  When a POST to /register is answered
    with the redirect to the login page, the table has one more student,
    under a fresh key, with the full name, the username and the password
    of the form, none of them empty; and a POST to /login with that
    username and password then opens the session of the new student,
    whatever usernames the older accounts share. *)
Theorem register_then_login (st : Store) (now : Z) (form : register_form)
    (students students' : gmap Z Student.t) :
  value (run (register now POST form students) st)
  = Return (redirect_to login_page, students') →
  ∃ s,
    students !! next_id students = None
    ∧ students' = <[next_id students := s]> students
    ∧ form_fullname form = Some (Student.fullname s)
    ∧ form_username form = Some (Student.username s)
    ∧ form_password form = Some (Student.password s)
    ∧ Student.fullname s ≠ EmptyString
    ∧ Student.username s ≠ EmptyString
    ∧ Student.password s ≠ EmptyString
    ∧ ∀ now' sess st',
        value (run (login now' POST (form_username form) (form_password form)
                      students' sess) st')
        = Return (redirect_to student_dashboard_page,
                  {| session_student_id := Some (next_id students);
                     session_student_name := Some (Student.fullname s);
                     session_admin_id := None;
                     session_admin_name := None |}).
Proof.
  intros Hreg.
  destruct (register_run now POST form students st)
    as (pg & students1 & fl & Hrun & Hacc).
  rewrite Hrun in Hreg. cbn [value] in Hreg. injection Hreg as -> ->.
  cbv zeta in Hacc.
  destruct (form_fullname form) as [fullname|]; [|by destruct Hacc].
  destruct (form_username form) as [username|]; [|by destruct Hacc].
  destruct (form_password form) as [password|]; [|by destruct Hacc].
  case_bool_decide as Hok; [|by destruct Hacc].
  destruct Hok as (Hf & Hu & Hp & Hfirst). destruct Hacc as [_ ->].
  eexists. split; [apply next_id_fresh|]. split; [reflexivity|].
  cbn [Student.fullname Student.username Student.password].
  repeat (split; [done|]).
  intros now' sess st'.
  set (s := {| Student.fullname := fullname; Student.username := username;
               Student.password := password;
               Student.class_level := form_class_level form;
               Student.gender := None; Student.created_at := now |}).
  rewrite (login_found now' _ _ _ sess st' (next_id students, s)); [done| |done].
  cbn [Student_first].
  destruct (head _) as [x|] eqn:Hh.
  - apply head_filter_lookup in Hh as [Hx Hl]. simpl in Hx.
    destruct (decide (x.1 = next_id students)) as [Heq|Hne].
    + rewrite Heq, lookup_insert_eq in Hl. destruct x as [j b].
      simpl in *. congruence.
    + rewrite lookup_insert_ne in Hl by done.
      by destruct (Student_first_none students username x.1 x.2 Hfirst Hl).
  - exfalso. apply (head_filter_None _ _ (next_id students, s) Hh); [|done].
    apply elem_of_map_to_list. by rewrite lookup_insert_eq.
Qed.

(** [logout] empties the session, so that every route behind
    [login_required_student] then redirects to the login page, and
    redirects home; nothing in the store changes, but for one audit entry
    "Logged out" in the name of the student who was logged in.  No entry
    is written without a student in the session, nor for the student
    id 0, which [if sid:] takes for none. *)
Theorem logout_closes_session (st : Store) (now : Z) (sess : flask_session) :
  let o := run (logout now sess) st in
  ∃ sess',
    value o = Return (redirect_to home_page, sess')
    ∧ session_student_id sess' = None
    ∧ session_admin_id sess' = None
    ∧ flashed o = [("Logged out", "info")]
    ∧ db o = match session_student_id sess with
             | Some sid =>
                 if decide (sid = 0) then st
                 else with_audit_logs
                        (λ t, <[next_id t :=
                                  {| AuditLog.student_id := Some sid;
                                     AuditLog.action := "Logged out";
                                     AuditLog.timestamp := now |}]> t) st
             | None => st
             end
    ∧ ∀ (f : Z → M response) st' ,
        run (login_required_student f (session_student_id sess')) st'
        = {| value := Return (redirect url_login); db := st';
             flashed := [("Please log in to continue.", "warning")] |}.
Proof.
  cbv zeta. exists session_clear. unfold run, logout.
  destruct (session_student_id sess) as [sid|]; [|done].
  destruct (decide (sid = 0)); [done|].
  unfold add_log, AuditLog_insert. mstep. done.
Qed.

(** ** The matcher: how much it can pair up *)

Module DifflibBounds.
Import Difflib DifflibInv DifflibMeasure DifflibFacts.

Lemma sum_sizes_app l1 l2 : sum_sizes (l1 ++ l2) = sum_sizes l1 + sum_sizes l2.
Proof.
  induction l1 as [|x l1 IH]; [done|]. unfold sum_sizes in *. simpl.
  rewrite IH. lia.
Qed.

Lemma sum_sizes_cons x l : sum_sizes (x :: l) = size x + sum_sizes l.
Proof. done. Qed.

Lemma queue_body_bound m la lb st :
  queue_bound la lb st → queue_cond st = true →
  queue_bound la lb (queue_body m st).
Proof.
  destruct st as [[|[[[alo ahi] blo] bhi] queue] blocks]; [done|].
  intros (Hq & Hpos & Ha & Hb) _. cbn [fst snd] in *.
  apply Forall_cons in Hq as [[Hra Hrb] Hq]. cbn [fst snd] in Hra, Hrb.
  unfold sum_a, sum_b in Ha, Hb. cbn [foldr fst snd] in Ha, Hb.
  fold (sum_a queue) in Ha. fold (sum_b queue) in Hb.
  cbn [queue_body].
  pose proof (find_longest_match_in_window m alo ahi blo bhi Hra Hrb) as Hw.
  destruct (find_longest_match m alo ahi blo bhi) as [[i j] k].
  unfold in_window, size in Hw. cbn [fst snd] in Hw.
  destruct Hw as (Hk & Hi & Hj & Hik & Hjk).
  destruct (k =? 0) eqn:Hk0.
  { unfold queue_bound. cbn [fst snd]. repeat split; try done; lia. }
  destruct ((alo <? i) && (blo <? j)) eqn:Hleft;
    destruct ((i + k <? ahi) && (j + k <? bhi)) eqn:Hright;
    unfold queue_bound; cbn [fst snd]; rewrite sum_sizes_app, sum_sizes_cons;
    unfold sum_a, sum_b, size, sum_sizes at 2 4; cbn [foldr fst snd];
    fold (sum_a queue); fold (sum_b queue);
    (split;
      [repeat (apply Forall_cons;
               split; [unfold range_ok; cbn [fst snd]; lia|]); done|]);
    (split;
      [apply Forall_app; split; [done|];
       apply Forall_cons; split; [by cbn|done]|]);
    lia.
Qed.

Lemma queue_loop_bound m :
  queue_bound (Z.of_nat (length (a m))) (Z.of_nat (length (b m))) (queue_loop m).
Proof.
  unfold queue_loop. apply while_inv.
  - intros st. apply queue_body_bound.
  - unfold queue_bound, sum_a, sum_b, sum_sizes. cbn [fst snd foldr].
    repeat split; [|done|lia|lia].
    apply Forall_cons. split; [|done]. unfold range_ok. cbn [fst snd]. lia.
Qed.

Lemma sum_sizes_insert_sorted x l :
  sum_sizes (insert_sorted x l) = size x + sum_sizes l.
Proof.
  induction l as [|y l IH]; [done|]. cbn [insert_sorted].
  destruct (match_leb x y); [done|].
  rewrite !sum_sizes_cons, IH. lia.
Qed.

Lemma sum_sizes_sort l : sum_sizes (sort l) = sum_sizes l.
Proof.
  induction l as [|x l IH]; [done|]. unfold sort in *. cbn [foldr].
  by rewrite sum_sizes_insert_sorted, IH.
Qed.

Lemma sum_sizes_collapse l : ∀ st,
  size (fold_left collapse_step l st).1 + sum_sizes (fold_left collapse_step l st).2
  = size st.1 + sum_sizes st.2 + sum_sizes l.
Proof.
  induction l as [|[[i2 j2] k2] l IH]; intros [[[i1 j1] k1] na].
  { unfold sum_sizes at 3. simpl. lia. }
  cbn [fold_left]. rewrite IH, sum_sizes_cons. unfold collapse_step.
  destruct ((i1 + k1 =? i2) && (j1 + k1 =? j2)).
  - unfold size. cbn [fst snd]. lia.
  - destruct (k1 =? 0) eqn:Hk1; cbv zeta; cbn [fst snd].
    + apply Z.eqb_eq in Hk1. unfold size. cbn [fst snd]. lia.
    + rewrite sum_sizes_app. unfold sum_sizes at 2. cbn [foldr].
      unfold size. cbn [fst snd]. lia.
Qed.

(** Sorting and collapsing the blocks keep their total size. *)
Lemma sum_sizes_get_matching_blocks m :
  sum_sizes (get_matching_blocks m) = sum_sizes (queue_loop m).2.
Proof.
  unfold get_matching_blocks.
  pose proof (sum_sizes_collapse (sort (queue_loop m).2) ((0, 0, 0), [])) as Hc.
  destruct (fold_left collapse_step _ _) as [[[i1 j1] k1] na].
  rewrite sum_sizes_sort in Hc. unfold size in Hc. cbn [fst snd] in Hc.
  unfold sum_sizes at 2 in Hc. cbn [foldr] in Hc.
  rewrite sum_sizes_app. unfold sum_sizes at 2, size. cbn [foldr snd].
  destruct (k1 =? 0) eqn:Hk1.
  - apply Z.eqb_eq in Hk1. lia.
  - rewrite sum_sizes_app. unfold sum_sizes at 2, size. cbn [foldr snd]. lia.
Qed.

Lemma sum_sizes_nonneg l : Forall (λ x, 0 ≤ size x) l → 0 ≤ sum_sizes l.
Proof.
  induction 1 as [|x l Hx _ IH]; [done|]. rewrite sum_sizes_cons. lia.
Qed.

(** The matcher pairs up no more elements than the shorter sequence
    has. *)
Lemma matches_bound (x y : list ascii) :
  0 ≤ sum_sizes (get_matching_blocks (new_matcher x y))
  ≤ Z.of_nat (length x) `min` Z.of_nat (length y).
Proof.
  rewrite sum_sizes_get_matching_blocks.
  destruct (queue_loop_bound (new_matcher x y)) as (Hq & Hpos & Ha & Hb).
  pose proof (queue_loop_exits (new_matcher x y)) as Hexit.
  cbn [a b new_matcher] in Ha, Hb.
  destruct (queue_loop (new_matcher x y)) as [queue blocks].
  cbn [fst snd] in *. destruct queue; [|done].
  unfold sum_a, sum_b in Ha, Hb. cbn [foldr] in Ha, Hb.
  pose proof (sum_sizes_nonneg blocks Hpos). lia.
Qed.

End DifflibBounds.

(** [X25].  The similarity ratio lies between 0 and 1, for every pair of
    sequences: the blocks that the matcher reports never add up to more
    than the length of the shorter sequence. *)
Theorem ratio_in_unit_interval (x y : list ascii) :
  let m := Difflib.new_matcher x y in
  (0 <= Difflib.ratio m)%Q ∧ (Difflib.ratio m <= 1)%Q
  ∧ 0 ≤ Difflib.sum_sizes (Difflib.get_matching_blocks m)
    ≤ Z.of_nat (length x) `min` Z.of_nat (length y).
Proof.
  intros m. pose proof (DifflibBounds.matches_bound x y) as Hm. fold m in Hm.
  split; [|split; [|done]].
  - unfold Difflib.ratio, Difflib._calculate_ratio.
    destruct (_ =? 0); [done|]. unfold Qle. cbn [Qnum Qden]. lia.
  - unfold Difflib.ratio, Difflib._calculate_ratio.
    cbn [Difflib.a Difflib.b Difflib.new_matcher m].
    destruct (_ =? 0) eqn:Hz; [done|]. apply Z.eqb_neq in Hz.
    unfold Qle. cbn [Qnum Qden]. rewrite Z2Pos.id by lia. lia.
Qed.

Lemma grade_correct_length s m :
  (grade_answer_text s m).1 = true →
  let ls := Z.of_nat (length (normalise s)) in
  let lm := Z.of_nat (length (normalise m)) in
  3 * (ls + lm) ≤ 10 * matched_length s m.
Proof.
  intros Hq ls lm. unfold grade_answer_text in Hq.
  case_bool_decide; [done|]. cbn [fst] in Hq.
  fold (normalise s) (normalise m) in Hq.
  unfold matched_length. fold (normalise s) (normalise m).
  pose proof (DifflibBounds.matches_bound (normalise s) (normalise m)) as Hm.
  apply Qle_bool_imp_le in Hq.
  unfold Difflib.ratio, Difflib._calculate_ratio in Hq.
  cbn [Difflib.a Difflib.b Difflib.new_matcher] in Hq. fold ls lm in Hq, Hm.
  destruct (ls + lm =? 0) eqn:Hz.
  - apply Z.eqb_eq in Hz. lia.
  - apply Z.eqb_neq in Hz. unfold Qle in Hq. cbn [Qnum Qden] in Hq.
    rewrite Z2Pos.id in Hq by lia. lia.
Qed.

(** [X26].  No answer passes that is much shorter or much longer than the
    reference.  When the grader finds a submission correct, the longer
    of the two normalised texts is at most 7/3 of the shorter: a
    submission of fewer than 3/7 of the characters of the reference, or
    of more than 7/3, is marked wrong whatever it says. *)
Theorem grade_answer_text_length_gap (student_answer model_answer : string) :
  (grade_answer_text student_answer model_answer).1 = true →
  let ls := Z.of_nat (length (normalise student_answer)) in
  let lm := Z.of_nat (length (normalise model_answer)) in
  3 * (ls `max` lm) ≤ 7 * (ls `min` lm).
Proof.
  intros Hg ls lm.
  pose proof (grade_correct_length _ _ Hg) as Hl. cbv zeta in Hl.
  fold ls lm in Hl.
  pose proof (DifflibBounds.matches_bound (normalise student_answer)
                (normalise model_answer)) as Hm.
  unfold matched_length in Hl.
  fold (normalise student_answer) (normalise model_answer) in Hl.
  fold ls lm in Hm. lia.
Qed.

(** A submission of nothing but whitespace is not refused as the
    empty one is: it is compared, and it is correct exactly when the
    reference is blank too. *)
Theorem grade_answer_text_blank (student_answer model_answer : string) :
  student_answer ≠ EmptyString → normalise student_answer = [] →
  grade_answer_text student_answer model_answer
  = if decide (normalise model_answer = []) then (true, 1) else (false, 0).
Proof.
  intros Hne Hblank.
  destruct (grade_answer_text student_answer model_answer) as [c sc] eqn:Hg.
  destruct (decide (normalise model_answer = [])) as [Hm|Hm].
  - unfold grade_answer_text in Hg. rewrite bool_decide_false in Hg by done.
    fold (normalise student_answer) (normalise model_answer) in Hg.
    rewrite Hblank, Hm in Hg. by vm_compute in Hg.
  - destruct c.
    + pose proof (grade_correct_length student_answer model_answer) as Hl.
      rewrite Hg in Hl. specialize (Hl eq_refl). cbv zeta in Hl.
      pose proof (DifflibBounds.matches_bound (normalise student_answer)
                    (normalise model_answer)) as Hb.
      unfold matched_length in Hl.
      fold (normalise student_answer) (normalise model_answer) in Hl.
      rewrite Hblank in Hl, Hb. cbn [length] in Hl, Hb.
      destruct (normalise model_answer); [done|]. cbn [length] in Hl. lia.
    + destruct (grade_answer_text_binary student_answer model_answer)
        as [Hb|Hb]; rewrite Hg in Hb; congruence.
Qed.

(** ** Normalisation: case and surrounding whitespace *)

Module TextFacts.
Import Text.

Lemma isspace_lower_char c : isspace (lower_char c) = isspace c.
Proof. destruct c as [[] [] [] [] [] [] [] []]; reflexivity. Qed.

Lemma lower_char_idemp c : lower_char (lower_char c) = lower_char c.
Proof. destruct c as [[] [] [] [] [] [] [] []]; reflexivity. Qed.

Lemma lower_idemp s : lower (lower s) = lower s.
Proof.
  unfold lower. rewrite map_map. apply map_ext. intros c.
  apply lower_char_idemp.
Qed.

Lemma lstrip_lower s : lstrip (lower s) = lower (lstrip s).
Proof.
  induction s as [|c s IH]; [done|]. cbn [lower map lstrip].
  rewrite isspace_lower_char. destruct (isspace c); [apply IH|done].
Qed.

Lemma rstrip_lower s : rstrip (lower s) = lower (rstrip s).
Proof.
  unfold rstrip. unfold lower at 1. rewrite <- map_rev.
  fold (lower (rev s)). rewrite lstrip_lower. unfold lower. by rewrite map_rev.
Qed.

Lemma strip_lower s : strip (lower s) = lower (strip s).
Proof. unfold strip. by rewrite lstrip_lower, rstrip_lower. Qed.

Lemma lstrip_spaces w s :
  Forall (λ c, isspace c = true) w → lstrip (w ++ s) = lstrip s.
Proof.
  induction 1 as [|c w Hc _ IH]; [done|]. cbn [app lstrip]. by rewrite Hc.
Qed.

Lemma lstrip_app s t :
  lstrip (s ++ t) = match lstrip s with [] => lstrip t | _ => lstrip s ++ t end.
Proof.
  induction s as [|c s IH]; [done|]. cbn [app lstrip].
  destruct (isspace c); [apply IH|done].
Qed.

Lemma rstrip_spaces s w :
  Forall (λ c, isspace c = true) w → rstrip (s ++ w) = rstrip s.
Proof.
  intros Hw. unfold rstrip. rewrite rev_app_distr, lstrip_spaces; [done|].
  by apply List.Forall_rev.
Qed.

Lemma lstrip_nil_spaces s :
  lstrip s = [] → Forall (λ c, isspace c = true) s.
Proof.
  induction s as [|c s IH]; [constructor|]. cbn [lstrip].
  destruct (isspace c) eqn:Hc; [|done]. intros Hs. constructor; auto.
Qed.

(** Whitespace around a text does not survive [strip]. *)
Lemma strip_pad w1 s w2 :
  Forall (λ c, isspace c = true) w1 → Forall (λ c, isspace c = true) w2 →
  strip (w1 ++ s ++ w2) = strip s.
Proof.
  intros H1 H2. unfold strip. rewrite lstrip_spaces by done.
  rewrite lstrip_app. destruct (lstrip s) as [|c t] eqn:Hs.
  - pose proof (lstrip_spaces w2 [] H2) as Hw. rewrite app_nil_r in Hw.
    by rewrite Hw.
  - by rewrite rstrip_spaces.
Qed.

Lemma list_ascii_of_string_app s t :
  String.list_ascii_of_string (s +:+ t)
  = String.list_ascii_of_string s ++ String.list_ascii_of_string t.
Proof. induction s as [|c s IH]; [done|]. simpl. by rewrite IH. Qed.

Lemma normalise_lower s : normalise (string_lower s) = normalise s.
Proof.
  unfold normalise, string_lower.
  rewrite String.list_ascii_of_string_of_list_ascii.
  by rewrite strip_lower, lower_idemp.
Qed.

Lemma normalise_pad w1 s w2 :
  whitespace w1 → whitespace w2 → normalise (w1 +:+ s +:+ w2) = normalise s.
Proof.
  intros H1 H2. unfold normalise.
  by rewrite !list_ascii_of_string_app, strip_pad.
Qed.

Lemma string_lower_empty s : string_lower s = EmptyString ↔ s = EmptyString.
Proof. unfold string_lower. by destruct s. Qed.

Lemma append_empty s t : s +:+ t = EmptyString → s = EmptyString ∧ t = EmptyString.
Proof. by destruct s. Qed.

End TextFacts.

(** The grader sees its two texts through their normal forms, once the
    submission is known not to be empty. *)
Lemma grade_answer_text_normal s s' m m' :
  (s = EmptyString ↔ s' = EmptyString) →
  normalise s = normalise s' → normalise m = normalise m' →
  grade_answer_text s m = grade_answer_text s' m'.
Proof.
  intros He Hs Hm. unfold grade_answer_text.
  fold (normalise s) (normalise s') (normalise m) (normalise m').
  rewrite Hs, Hm. destruct (decide (s = EmptyString)) as [H|H].
  - rewrite !bool_decide_true; [done| by apply He | done].
  - rewrite !bool_decide_false; [done| by rewrite <- He | done].
Qed.

(** [X27].  The grader does not see the case of letters: putting the
    submission, the reference answer, or both in lower case changes
    neither the verdict nor the score. *)
Theorem grade_answer_text_ignores_case (student_answer model_answer : string) :
  grade_answer_text (string_lower student_answer) model_answer
  = grade_answer_text student_answer model_answer
  ∧ grade_answer_text student_answer (string_lower model_answer)
    = grade_answer_text student_answer model_answer
  ∧ grade_answer_text (string_lower student_answer) (string_lower model_answer)
    = grade_answer_text student_answer model_answer.
Proof.
  repeat split; apply grade_answer_text_normal;
    try apply TextFacts.string_lower_empty;
    try apply TextFacts.normalise_lower; done.
Qed.

(** [X28].  The grader does not see whitespace around a text: padding
    the reference answer with whitespace on either side changes nothing,
    and neither does padding a submission that is not empty.  (An empty
    submission is refused, while a padded one is compared.) *)
Theorem grade_answer_text_ignores_padding (w1 w2 student_answer model_answer
    : string) :
  whitespace w1 → whitespace w2 →
  grade_answer_text student_answer (w1 +:+ model_answer +:+ w2)
  = grade_answer_text student_answer model_answer
  ∧ (student_answer ≠ EmptyString →
     grade_answer_text (w1 +:+ student_answer +:+ w2) model_answer
     = grade_answer_text student_answer model_answer).
Proof.
  intros H1 H2. split.
  - apply grade_answer_text_normal; [done|done|].
    by apply TextFacts.normalise_pad.
  - intros Hne.
    apply grade_answer_text_normal; [|by apply TextFacts.normalise_pad|done].
    split; [|done]. intros [_ Hs]%TextFacts.append_empty.
    by apply TextFacts.append_empty in Hs as [? _].
Qed.

(** ** The matcher: what it pairs up *)

Module DifflibSound.
Import Difflib DifflibInv DifflibMeasure DifflibFacts.

Lemma is_match_extend_right x y i j k c :
  is_match x y (i, j, k) →
  item x (i + k) = Some c → item y (j + k) = Some c →
  is_match x y (i, j, k + 1).
Proof.
  unfold is_match, size. cbn [fst snd]. intros [Hk Hm] Hx Hy.
  split; [lia|]. intros d Hd. destruct (decide (d = k)) as [->|Hne].
  - by exists c.
  - apply Hm. lia.
Qed.

Lemma is_match_extend_left x y i j k c :
  is_match x y (i, j, k) →
  item x (i - 1) = Some c → item y (j - 1) = Some c →
  is_match x y (i - 1, j - 1, k + 1).
Proof.
  unfold is_match, size. cbn [fst snd]. intros [Hk Hm] Hx Hy.
  split; [lia|]. intros d Hd. destruct (decide (d = 0)) as [->|Hne].
  - exists c. by rewrite !Z.add_0_r.
  - destruct (Hm (d - 1)) as (c' & Hx' & Hy'); [lia|]. exists c'.
    replace (i - 1 + d) with (i + (d - 1)) by lia.
    by replace (j - 1 + d) with (j + (d - 1)) by lia.
Qed.

Lemma is_match_join x y i j k1 k2 :
  is_match x y (i, j, k1) → is_match x y (i + k1, j + k1, k2) →
  is_match x y (i, j, k1 + k2).
Proof.
  unfold is_match, size. cbn [fst snd]. intros [Hk1 Hm1] [Hk2 Hm2].
  split; [lia|]. intros d Hd. destruct (decide (d < k1)) as [Hlt|Hge].
  - apply Hm1. lia.
  - destruct (Hm2 (d - k1)) as (c & Hx & Hy); [lia|]. exists c.
    replace (i + d) with (i + k1 + (d - k1)) by lia.
    by replace (j + d) with (j + k1 + (d - k1)) by lia.
Qed.

Lemma is_match_empty x y i j : is_match x y (i, j, 0).
Proof. unfold is_match, size. cbn [fst snd]. split; [done|]. lia. Qed.

Lemma scan_row_match x y c js i blo bhi (j2len : gmap Z Z) :
  item x i = Some c →
  Forall (λ j, item y j = Some c) js →
  (∀ j l, j2len !! j = Some l → is_match x y (i - l, j - l + 1, l)) →
  ∀ newj2len best,
    rows_match x y (i + 1) (newj2len, best) →
    rows_match x y (i + 1) (scan_row js i blo bhi j2len newj2len best).
Proof.
  intros Hc Hjs Hj2len.
  induction Hjs as [|j js Hj _ IH]; intros newj2len best Hb; [done|].
  cbn [scan_row]. destruct (j <? blo); [by apply IH|].
  destruct (bhi <=? j); [done|].
  set (k := default 0 (j2len !! (j - 1)) + 1).
  assert (is_match x y (i - k + 1, j - k + 1, k)) as Hk.
  { subst k. destruct (j2len !! (j - 1)) as [l|] eqn:Hl; cbn [from_option id].
    - apply Hj2len in Hl.
      replace (i - (l + 1) + 1) with (i - l) by lia.
      replace (j - (l + 1) + 1) with (j - 1 - l + 1) by lia.
      apply (is_match_extend_right _ _ _ _ _ c); [done|..].
      + by replace (i - l + l) with i by lia.
      + by replace (j - 1 - l + 1 + l) with j by lia.
    - replace (i - (0 + 1) + 1) with i by lia.
      replace (j - (0 + 1) + 1) with j by lia.
      apply (is_match_extend_right _ _ _ _ 0 c).
      + apply is_match_empty.
      + by rewrite Z.add_0_r.
      + by rewrite Z.add_0_r. }
  apply IH. destruct Hb as [Hnew Hbest]. split; cbn [fst snd].
  - intros j' l'. destruct (decide (j = j')) as [<-|Hne].
    + rewrite lookup_insert_eq. intros [= <-].
      by replace (i + 1 - k) with (i - k + 1) by lia.
    + rewrite lookup_insert_ne by done. apply Hnew.
  - by destruct (size best <? k).
Qed.

Lemma chain_b_positions y c js j :
  chain_b y !! c = Some js → j ∈ js → item y j = Some c.
Proof.
  intros ->%chain_b_lookup [Hj Hl]%elem_of_positions. unfold item.
  rewrite (proj2 (Z.ltb_ge j 0)) by lia. by rewrite Z.sub_0_r in Hl.
Qed.

Lemma scan_rows_match x y alo ahi blo bhi :
  is_match x y (scan_rows (new_matcher x y) alo ahi blo bhi).2.
Proof.
  unfold scan_rows. cbn [a b b2j new_matcher].
  pose proof (fold_left_seqZ_inv
    (λ '(j2len, best) i,
       let js := match item x i with
                 | Some c => default [] (chain_b y !! c)
                 | None => []
                 end in
       scan_row js i blo bhi j2len ∅ best)
    (rows_match x y) alo (ahi - alo) (∅, (alo, blo, 0))) as Hinv.
  apply Hinv.
  - split; [intros j l Hl; cbn [fst] in Hl; by apply lookup_empty_Some in Hl|].
    apply is_match_empty.
  - intros i [j2len best] _ [Hj Hbest]. cbn [fst snd] in Hj, Hbest.
    assert (rows_match x y (i + 1) (∅, best)) as Hempty.
    { split; [intros j l Hl; cbn [fst] in Hl; by apply lookup_empty_Some in Hl|].
      done. }
    cbv zeta. destruct (item x i) as [c|] eqn:Hc; [|done].
    destruct (chain_b y !! c) as [js|] eqn:Hjs; [|done]. cbn [from_option id].
    apply (scan_row_match x y c); [done| |done|done].
    apply Forall_forall. intros j Hin. by apply (chain_b_positions y c js).
Qed.

Lemma extend_back_match x y junk alo blo best :
  is_match x y best →
  is_match x y (extend_back (new_matcher x y) junk alo blo best).
Proof.
  unfold extend_back. apply while_inv. clear best.
  intros [[besti bestj] bestsize] Hm Hc. unfold back_cond in Hc.
  cbn [a b new_matcher] in Hc.
  apply andb_true_iff in Hc as [_ Hc].
  destruct (item y (bestj - 1)) as [cy|] eqn:Hy; [|done].
  destruct (item x (besti - 1)) as [cx|] eqn:Hx; [|done].
  apply andb_true_iff in Hc as [_ Heq]. apply bool_decide_eq_true in Heq.
  subst cy. cbn [back_body]. by apply (is_match_extend_left _ _ _ _ _ cx).
Qed.

Lemma extend_forth_match x y junk ahi bhi best :
  is_match x y best →
  is_match x y (extend_forth (new_matcher x y) junk ahi bhi best).
Proof.
  unfold extend_forth. apply while_inv. clear best.
  intros [[besti bestj] bestsize] Hm Hc. unfold forth_cond in Hc.
  cbn [a b new_matcher] in Hc.
  apply andb_true_iff in Hc as [_ Hc].
  destruct (item y (bestj + bestsize)) as [cy|] eqn:Hy; [|done].
  destruct (item x (besti + bestsize)) as [cx|] eqn:Hx; [|done].
  apply andb_true_iff in Hc as [_ Heq]. apply bool_decide_eq_true in Heq.
  subst cy. cbn [forth_body]. by apply (is_match_extend_right _ _ _ _ _ cx).
Qed.

Lemma find_longest_match_match x y alo ahi blo bhi :
  is_match x y (find_longest_match (new_matcher x y) alo ahi blo bhi).
Proof.
  unfold find_longest_match.
  apply extend_forth_match, extend_back_match, extend_forth_match,
    extend_back_match, scan_rows_match.
Qed.

Lemma queue_loop_match x y :
  Forall (is_match x y) (queue_loop (new_matcher x y)).2.
Proof.
  unfold queue_loop.
  apply (while_inv (λ st : list Range * list Match, Forall (is_match x y) st.2));
    [|done].
  intros [[|[[[alo ahi] blo] bhi] queue] blocks] Hb _; [done|].
  cbn [queue_body fst snd] in *.
  pose proof (find_longest_match_match x y alo ahi blo bhi) as Hm.
  destruct (find_longest_match _ alo ahi blo bhi) as [[i j] k].
  destruct (k =? 0); [done|]. cbn [snd].
  apply Forall_app. split; [done|]. by apply Forall_cons.
Qed.

Lemma insert_sorted_match x y z l :
  is_match x y z → Forall (is_match x y) l →
  Forall (is_match x y) (insert_sorted z l).
Proof.
  intros Hz. induction 1 as [|z' l' Hz' Hl' IH]; cbn [insert_sorted].
  { by apply Forall_cons. }
  destruct (match_leb z z').
  - apply Forall_cons. split; [done|]. by apply Forall_cons.
  - by apply Forall_cons.
Qed.

Lemma sort_match x y l : Forall (is_match x y) l → Forall (is_match x y) (sort l).
Proof.
  induction 1 as [|z l Hz _ IH]; [done|]. unfold sort in *. cbn [foldr].
  by apply insert_sorted_match.
Qed.

Lemma collapse_match x y l : ∀ st,
  is_match x y st.1 → Forall (is_match x y) st.2 → Forall (is_match x y) l →
  is_match x y (fold_left collapse_step l st).1
  ∧ Forall (is_match x y) (fold_left collapse_step l st).2.
Proof.
  induction l as [|[[i2 j2] k2] l IH]; intros [[[i1 j1] k1] na] H1 Hna Hl;
    [done|].
  apply Forall_cons in Hl as [H2 Hl]. cbn [fold_left fst snd] in *.
  apply IH; [| |done]; unfold collapse_step.
  - destruct ((i1 + k1 =? i2) && (j1 + k1 =? j2)) eqn:Hadj;
      [|by destruct (k1 =? 0)].
    apply andb_true_iff in Hadj as [<-%Z.eqb_eq <-%Z.eqb_eq].
    by apply is_match_join.
  - destruct ((i1 + k1 =? i2) && (j1 + k1 =? j2)); [done|].
    destruct (k1 =? 0); [done|]. cbv zeta. cbn [snd].
    apply Forall_app. split; [done|]. by apply Forall_cons.
Qed.

(** Every block that the matcher reports pairs up equal elements. *)
Lemma get_matching_blocks_match x y :
  Forall (is_match x y) (get_matching_blocks (new_matcher x y)).
Proof.
  unfold get_matching_blocks.
  pose proof (collapse_match x y (sort (queue_loop (new_matcher x y)).2)
                ((0, 0, 0), [])) as Hc.
  destruct (fold_left collapse_step _ _) as [[[i1 j1] k1] na].
  cbn [fst snd] in Hc.
  destruct Hc as [H1 Hna];
    [apply is_match_empty|done|apply sort_match, queue_loop_match|].
  apply Forall_app. split.
  - destruct (k1 =? 0); [done|]. apply Forall_app. split; [done|].
    by apply Forall_cons.
  - apply Forall_cons. split; [apply is_match_empty|done].
Qed.

Lemma item_elem_of (l : list ascii) i c : item l i = Some c → c ∈ l.
Proof.
  unfold item. destruct (i <? 0); [done|]. apply list_elem_of_lookup_2.
Qed.

(** Without a common element there is nothing to pair up. *)
Lemma no_common_no_match x y :
  (∀ c, c ∈ x → c ∉ y) →
  sum_sizes (get_matching_blocks (new_matcher x y)) = 0.
Proof.
  intros Hno. pose proof (get_matching_blocks_match x y) as Hall.
  induction Hall as [|z l [Hk Hz] _ IH]; [done|].
  unfold sum_sizes in *. cbn [foldr]. rewrite IH.
  destruct (decide (size z = 0)) as [->|Hne]; [done|].
  destruct (Hz 0) as (c & Hx & Hy); [lia|].
  apply item_elem_of in Hx, Hy. by destruct (Hno c).
Qed.

End DifflibSound.

(** [X29].  The matcher pairs up only what is equal.  Every block
    [(i, j, k)] that [get_matching_blocks] reports for two sequences has
    a length [k] that is not negative, and pairs [k] elements of the first
    sequence, from position [i] on, with equal elements of the second,
    from position [j] on. *)
Theorem get_matching_blocks_sound (x y : list ascii) :
  Forall (λ block : Difflib.Match,
            let '(i, j, k) := block in
            0 ≤ k
            ∧ ∀ d, 0 ≤ d < k →
                   ∃ c, Difflib.item x (i + d) = Some c
                        ∧ Difflib.item y (j + d) = Some c)
    (Difflib.get_matching_blocks (Difflib.new_matcher x y)).
Proof.
  eapply Forall_impl; [apply DifflibSound.get_matching_blocks_match|].
  intros [[i j] k] Hm. exact Hm.
Qed.

(** [X30].  Texts without a common character.  When no character of the
    normalised submission occurs in the normalised reference, and the
    two are not both blank, the submission is marked wrong with the
    score 0. *)
Theorem grade_answer_text_no_common_character (student_answer model_answer
    : string) :
  (∀ c, c ∈ normalise student_answer → c ∉ normalise model_answer) →
  normalise student_answer ≠ [] ∨ normalise model_answer ≠ [] →
  grade_answer_text student_answer model_answer = (false, 0).
Proof.
  intros Hno Hne. unfold grade_answer_text. case_bool_decide; [done|].
  fold (normalise student_answer) (normalise model_answer).
  unfold Difflib.ratio. rewrite DifflibSound.no_common_no_match by done.
  cbn [Difflib.a Difflib.b Difflib.new_matcher].
  unfold Difflib._calculate_ratio.
  destruct (_ =? 0) eqn:Hz; [|done].
  apply Z.eqb_eq in Hz.
  destruct (normalise student_answer), (normalise model_answer);
    cbn [length] in Hz; try lia. by destruct Hne.
Qed.

(** ** The matcher: how much it is sure to pair up *)

Module DifflibComplete.
Import Difflib DifflibInv DifflibMeasure DifflibFacts DifflibBounds.

(** Below 200 elements nothing is popular: the index keeps every
    position of every element. *)
Lemma chain_b_short y c :
  (length y < 200)%nat → default [] (chain_b y !! c) = positions 0 y c.
Proof.
  intros Hy. unfold chain_b, popular. cbv zeta.
  rewrite (proj2 (Z.leb_gt 200 _)) by lia.
  rewrite map_filter_id by (intros; apply not_elem_of_empty).
  rewrite chain_b_index_lookup. by destruct (positions 0 y c).
Qed.

Lemma item_Some l i c :
  item l i = Some c → 0 ≤ i < Z.of_nat (length l).
Proof.
  unfold item. destruct (i <? 0) eqn:Hi; [done|]. apply Z.ltb_ge in Hi.
  intros Hl%lookup_lt_Some. lia.
Qed.

Lemma is_match_range x y p q k :
  is_match x y (p, q, k) → 0 < k →
  0 ≤ p ∧ p + k ≤ Z.of_nat (length x) ∧ 0 ≤ q ∧ q + k ≤ Z.of_nat (length y).
Proof.
  unfold is_match, size. cbn [fst snd]. intros [_ Hm] Hk.
  destruct (Hm 0) as (c & Hx%item_Some & Hy%item_Some); [lia|].
  destruct (Hm (k - 1)) as (c' & Hx'%item_Some & Hy'%item_Some); [lia|]. lia.
Qed.

Lemma is_match_prefix x y p q k k' :
  is_match x y (p, q, k) → 0 ≤ k' ≤ k → is_match x y (p, q, k').
Proof.
  unfold is_match, size. cbn [fst snd]. intros [_ Hm] Hk.
  split; [lia|]. intros d Hd. apply Hm. lia.
Qed.

Lemma is_match_swap x y p q k : is_match x y (p, q, k) → is_match y x (q, p, k).
Proof.
  unfold is_match, size. cbn [fst snd]. intros [Hk Hm]. split; [done|].
  intros d Hd. destruct (Hm d Hd) as (c & ? & ?). by exists c.
Qed.

(** A row of the table, when every position of the list lies in the
    window. *)
Lemma scan_row_complete js i blo bhi (j2len : gmap Z Z) :
  Forall (λ j, blo ≤ j < bhi) js →
  ∀ newj2len best,
    (∀ j l, newj2len !! j = Some l → l = default 0 (j2len !! (j - 1)) + 1) →
    (∀ j l, (scan_row js i blo bhi j2len newj2len best).1 !! j = Some l →
            l = default 0 (j2len !! (j - 1)) + 1)
    ∧ (∀ j, j ∈ js ∨ is_Some (newj2len !! j) →
            is_Some ((scan_row js i blo bhi j2len newj2len best).1 !! j))
    ∧ size best ≤ size (scan_row js i blo bhi j2len newj2len best).2
    ∧ (∀ j, j ∈ js →
            default 0 (j2len !! (j - 1)) + 1
            ≤ size (scan_row js i blo bhi j2len newj2len best).2).
Proof.
  induction 1 as [|j js Hj _ IH]; intros newj2len best Hnew.
  { cbn [scan_row fst snd]. split; [done|]. split.
    - intros j [Hin|Hs]; [by apply elem_of_nil in Hin|done].
    - split; [done|]. by intros j ?%elem_of_nil. }
  cbn [scan_row]. rewrite (proj2 (Z.ltb_ge j blo)) by lia.
  rewrite (proj2 (Z.leb_gt bhi j)) by lia.
  set (k := default 0 (j2len !! (j - 1)) + 1).
  set (best' := if size best <? k then (i - k + 1, j - k + 1, k) else best).
  assert (size best ≤ size best' ∧ k ≤ size best') as [Hb Hk].
  { subst best'. destruct (size best <? k) eqn:Hlt.
    - apply Z.ltb_lt in Hlt. unfold size in *. cbn [snd]. lia.
    - apply Z.ltb_ge in Hlt. lia. }
  destruct (IH (<[j:=k]> newj2len) best') as (H1 & H2 & H3 & H4).
  { intros j' l. destruct (decide (j = j')) as [<-|Hne].
    - rewrite lookup_insert_eq. by intros [= <-].
    - rewrite lookup_insert_ne by done. apply Hnew. }
  split; [done|]. split; [|split; [lia|]].
  - intros j' [Hin|Hs]; apply H2.
    + apply elem_of_cons in Hin as [->|Hin]; [|by left].
      right. by rewrite lookup_insert_eq.
    + right. destruct (decide (j = j')) as [<-|Hne].
      * by rewrite lookup_insert_eq.
      * by rewrite lookup_insert_ne.
  - intros j' Hin. apply elem_of_cons in Hin as [->|Hin]; [|by apply H4].
    fold k. lia.
Qed.

Section complete.
Variables x y : list ascii.
Hypothesis short : (length y < 200)%nat.

Let la : Z := Z.of_nat (length x).
Let lb : Z := Z.of_nat (length y).
Let m : SequenceMatcher := new_matcher x y.

Lemma scan_rows_complete : rows_complete x y la (scan_rows m 0 la 0 lb).
Proof.
  unfold scan_rows.
  pose proof (fold_left_seqZ_inv
    (λ '(j2len, best) i,
       let js := match item (a m) i with
                 | Some c => default [] (b2j m !! c)
                 | None => []
                 end in
       scan_row js i 0 lb j2len ∅ best)
    (rows_complete x y) 0 (la - 0) (∅, (0, 0, 0))) as Hinv.
  replace (0 + Z.max 0 (la - 0)) with la in Hinv by (unfold la; lia).
  apply Hinv; clear Hinv.
  - unfold rows_complete, size. cbn [fst snd].
    split; [by intros j l ?%lookup_empty_Some|]. split.
    { intros p q k Hk Hm%is_match_range; lia. }
    split; [done|]. intros p q k Hm Hle.
    destruct (decide (0 < k)) as [Hk|Hk]; [|lia].
    apply is_match_range in Hm; lia.
  - intros i [j2len best] Hi (Hpos & Hends & Hsize & Hbest).
    cbn [fst snd] in Hpos, Hends, Hsize, Hbest.
    change (a m) with x. change (b2j m) with (chain_b y).
    assert (∃ c, item x i = Some c) as [c Hc].
    { unfold item. rewrite (proj2 (Z.ltb_ge i 0)) by lia.
      apply lookup_lt_is_Some. unfold la in Hi. lia. }
    rewrite Hc, chain_b_short by done.
    destruct (scan_row_complete (positions 0 y c) i 0 lb j2len) with
      (newj2len := (∅ : gmap Z Z)) (best := best) as (H1 & H2 & H3 & H4).
    { apply Forall_forall. intros j [Hj Hl]%elem_of_positions.
      apply lookup_lt_Some in Hl. unfold lb. lia. }
    { by intros j l ?%lookup_empty_Some. }
    assert (∀ j, 0 ≤ default 0 (j2len !! j)) as Hdef.
    { intros j. destruct (j2len !! j) as [l|] eqn:Hl; cbn; [|done].
      by apply Hpos in Hl. }
    (* a match that ends in row [i] *)
    assert (∀ p q k, 0 < k → is_match x y (p, q, k) → p + k = i + 1 →
              q + k - 1 ∈ positions 0 y c
              ∧ k ≤ default 0 (j2len !! (q + k - 1 - 1)) + 1) as Hend.
    { intros p q k Hk Hm Hp. split.
      - destruct Hm as [_ Hm]. unfold size in Hm. cbn [fst snd] in Hm.
        destruct (Hm (k - 1)) as (c' & Hx & Hy); [lia|].
        replace (p + (k - 1)) with i in Hx by lia.
        assert (c' = c) as -> by congruence.
        apply elem_of_positions. pose proof (item_Some _ _ _ Hy) as Hr.
        unfold item in Hy. rewrite (proj2 (Z.ltb_ge _ 0)) in Hy by lia.
        split; [lia|]. rewrite Z.sub_0_r.
        by replace (q + k - 1) with (q + (k - 1)) by lia.
      - destruct (decide (k = 1)) as [->|Hne]; [specialize (Hdef (q + 1 - 1 - 1)); lia|].
        destruct (Hends p q (k - 1)) as (l & Hl & Hle); [lia| |lia|].
        { apply (is_match_prefix _ _ _ _ k); [done|lia]. }
        replace (q + k - 1 - 1) with (q + (k - 1) - 1) by lia.
        rewrite Hl. cbn. lia. }
    unfold rows_complete.
    split; [|split; [|split; [lia|]]].
    + intros j l Hl. apply H1 in Hl as ->. specialize (Hdef (j - 1)). lia.
    + intros p q k Hk Hm Hp. destruct (Hend p q k Hk Hm Hp) as [Hin Hle].
      destruct (H2 (q + k - 1)) as [l Hl]; [by left|].
      exists l. split; [done|]. apply H1 in Hl as ->. done.
    + intros p q k Hm Hp.
      destruct (decide (0 < k)) as [Hk|Hk]; [|lia].
      destruct (decide (p + k ≤ i)) as [Hold|Hnew].
      { specialize (Hbest p q k Hm Hold). lia. }
      destruct (Hend p q k Hk Hm ltac:(lia)) as [Hin Hle].
      specialize (H4 _ Hin). lia.
Qed.

Lemma extend_back_size junk alo blo best :
  size best ≤ size (extend_back m junk alo blo best).
Proof.
  unfold extend_back. apply (while_inv (λ s, size best ≤ size s)); [|done].
  intros [[besti bestj] bestsize]. unfold size. cbn [snd back_body]. lia.
Qed.

Lemma extend_forth_size junk ahi bhi best :
  size best ≤ size (extend_forth m junk ahi bhi best).
Proof.
  unfold extend_forth. apply (while_inv (λ s, size best ≤ size s)); [|done].
  intros [[besti bestj] bestsize]. unfold size. cbn [snd forth_body]. lia.
Qed.

(** On the whole of two sequences, [find_longest_match] returns a block
    as long as the longest that they have in common. *)
Lemma find_longest_match_complete p q k :
  is_match x y (p, q, k) → k ≤ size (find_longest_match m 0 la 0 lb).
Proof.
  intros Hm. destruct scan_rows_complete as (_ & _ & Hsize & Hbest).
  assert (k ≤ size (scan_rows m 0 la 0 lb).2) as Hk.
  { destruct (decide (0 < k)) as [Hk|Hk]; [|lia].
    apply (Hbest p q k Hm). apply is_match_range in Hm; [|done].
    unfold la. lia. }
  unfold find_longest_match. cbv zeta.
  etrans; [exact Hk|].
  etrans; [apply (extend_back_size false 0 0)|].
  etrans; [apply (extend_forth_size false la lb)|].
  etrans; [apply (extend_back_size true 0 0)|].
  apply extend_forth_size.
Qed.

Lemma queue_body_grows st :
  Forall range_ok st.1 → queue_cond st = true →
  Forall range_ok (queue_body m st).1
  ∧ sum_sizes st.2 ≤ sum_sizes (queue_body m st).2.
Proof.
  intros Hq Hc. split; [by apply queue_body_decreases|].
  destruct st as [[|[[[alo ahi] blo] bhi] queue] blocks]; [done|].
  cbn [fst] in Hq. apply Forall_cons in Hq as [[Ha Hb] Hq].
  cbn [fst snd] in Ha, Hb. cbn [queue_body snd].
  pose proof (find_longest_match_in_window m alo ahi blo bhi Ha Hb) as Hw.
  destruct (find_longest_match m alo ahi blo bhi) as [[i j] k].
  unfold in_window, size in Hw. cbn [fst snd] in Hw.
  destruct (k =? 0); cbn [snd]; [done|].
  rewrite sum_sizes_app. unfold sum_sizes at 3, size. cbn [foldr snd]. lia.
Qed.

(** The blocks of the work list cover at least the longest common
    block. *)
Lemma queue_loop_complete p q k :
  is_match x y (p, q, k) → k ≤ sum_sizes (queue_loop m).2.
Proof.
  intros Hm. unfold queue_loop, queue_fuel.
  change (Z.of_nat (length (a m))) with la.
  change (Z.of_nat (length (b m))) with lb.
  cbn [while queue_cond fst].
  apply (while_inv (λ st : list Range * list Match,
                      Forall range_ok st.1 ∧ k ≤ sum_sizes st.2)).
  - intros st [Hq Hk] Hc. destruct (queue_body_grows st Hq Hc). split; [done|lia].
  - assert (Forall range_ok [(0, la, 0, lb)]) as H0.
    { apply Forall_cons. split; [|done]. unfold range_ok, la, lb.
      cbn [fst snd]. lia. }
    split; [by apply (queue_body_decreases m ([(0, la, 0, lb)], []))|].
    cbn [queue_body].
    pose proof (find_longest_match_complete p q k Hm) as Hk.
    destruct (find_longest_match m 0 la 0 lb) as [[i j] k0].
    unfold size in Hk. cbn [snd] in Hk.
    destruct (k0 =? 0) eqn:Hk0; cbn [snd].
    + apply Z.eqb_eq in Hk0. unfold sum_sizes. cbn [foldr]. lia.
    + unfold sum_sizes, size. cbn [app foldr snd]. lia.
Qed.

(** The matcher pairs up at least as many elements as the longest common
    block has. *)
Lemma matches_complete p q k :
  is_match x y (p, q, k) → k ≤ sum_sizes (get_matching_blocks m).
Proof. rewrite sum_sizes_get_matching_blocks. apply queue_loop_complete. Qed.

End complete.

Lemma item_app (u w v : list ascii) (d : Z) :
  0 ≤ d < Z.of_nat (length w) →
  item (u ++ w ++ v) (Z.of_nat (length u) + d) = w !! Z.to_nat d.
Proof.
  intros Hd. unfold item. rewrite (proj2 (Z.ltb_ge _ 0)) by lia.
  replace (Z.to_nat (Z.of_nat (length u) + d)) with (length u + Z.to_nat d)%nat
    by lia.
  rewrite lookup_app_r by lia.
  replace (length u + Z.to_nat d - length u)%nat with (Z.to_nat d) by lia.
  apply lookup_app_l. lia.
Qed.

(** A run of elements that two sequences share is a match. *)
Lemma is_match_app (u w v u' v' : list ascii) :
  is_match (u ++ w ++ v) (u' ++ w ++ v')
    (Z.of_nat (length u), Z.of_nat (length u'), Z.of_nat (length w)).
Proof.
  unfold is_match, size. cbn [fst snd]. split; [lia|]. intros d Hd.
  rewrite !item_app by done.
  destruct (lookup_lt_is_Some_2 w (Z.to_nat d)) as [c Hc]; [lia|]. by exists c.
Qed.

(** The threshold of the grader, on the count of the paired elements. *)
Lemma ratio_threshold (x y : list ascii) :
  Qle_bool (6 # 10) (ratio (new_matcher x y))
  = bool_decide (3 * (Z.of_nat (length x) + Z.of_nat (length y))
                 ≤ 10 * sum_sizes (get_matching_blocks (new_matcher x y))).
Proof.
  pose proof (matches_bound x y) as Hm.
  unfold ratio, _calculate_ratio. cbn [a b new_matcher].
  destruct (_ + _ =? 0) eqn:Hz.
  - apply Z.eqb_eq in Hz. rewrite bool_decide_true by lia. done.
  - apply Z.eqb_neq in Hz. unfold Qle_bool. cbn [Qnum Qden].
    rewrite Z2Pos.id by lia.
    destruct (decide (3 * (Z.of_nat (length x) + Z.of_nat (length y))
                      ≤ 10 * sum_sizes (get_matching_blocks (new_matcher x y))))
      as [Hle|Hgt].
    + rewrite bool_decide_true by done. apply Z.leb_le. lia.
    + rewrite bool_decide_false by done. apply Z.leb_gt. lia.
Qed.

End DifflibComplete.

Lemma grade_answer_text_threshold (s m : string) :
  s ≠ EmptyString →
  grade_answer_text s m
  = if decide (3 * (Z.of_nat (length (normalise s))
                    + Z.of_nat (length (normalise m)))
               ≤ 10 * matched_length s m)
    then (true, 1) else (false, 0).
Proof.
  intros Hs. unfold grade_answer_text, matched_length.
  rewrite bool_decide_false by done. cbv zeta.
  fold (normalise s) (normalise m).
  rewrite DifflibComplete.ratio_threshold.
  by destruct (decide _) as [H|H];
    [rewrite bool_decide_true by done|rewrite bool_decide_false by done].
Qed.

(** Two texts of fewer than 200 characters that share a long enough run
    of characters are found correct in both orders. *)
Lemma grade_answer_text_common_run (s m : string) (u w v u' v' : list ascii) :
  s ≠ EmptyString →
  (length (normalise m) < 200)%nat →
  normalise s = u ++ w ++ v → normalise m = u' ++ w ++ v' →
  (3 * (length (normalise s) + length (normalise m)) ≤ 10 * length w)%nat →
  grade_answer_text s m = (true, 1).
Proof.
  intros Hs Hshort Hx Hy Hlen. rewrite grade_answer_text_threshold by done.
  rewrite decide_True; [done|].
  pose proof (DifflibComplete.matches_complete (normalise s) (normalise m)
                Hshort (Z.of_nat (length u)) (Z.of_nat (length u'))
                (Z.of_nat (length w))) as Hk.
  unfold matched_length. fold (normalise s) (normalise m).
  etrans; [|apply Z.mul_le_mono_nonneg_l; [lia|apply Hk]]; [lia|].
  rewrite Hx, Hy. apply DifflibComplete.is_match_app.
Qed.

(** [C5], amended.  Two non-empty texts are graded alike in both orders
    in each of these cases, read on their normal forms: they are equal;
    or both have fewer than 200 characters and share a run [w] of
    consecutive characters of at least 3/10 of their total length, and
    then the matcher, which finds a block at least as long as the longest
    common run, marks both orders correct; or they have no character in
    common; or the shorter has fewer than 3/7 of the characters of the
    longer, and then the matcher cannot pair up enough in either order. *)
Theorem grade_answer_text_symmetric (a b : string) :
  a ≠ EmptyString → b ≠ EmptyString →
  normalise a = normalise b
  ∨ ((length (normalise a) < 200)%nat ∧ (length (normalise b) < 200)%nat
     ∧ ∃ u w v u' v' : list ascii,
         normalise a = u ++ w ++ v ∧ normalise b = u' ++ w ++ v'
         ∧ (3 * (length (normalise a) + length (normalise b))
            ≤ 10 * length w)%nat)
  ∨ (∀ c, c ∈ normalise a → c ∉ normalise b)
  ∨ (7 * (length (normalise a) `min` length (normalise b))
     < 3 * (length (normalise a) `max` length (normalise b)))%nat →
  grade_answer_text a b = grade_answer_text b a.
Proof.
  intros Ha Hb [Heq|[(Hsa & Hsb & u & w & v & u' & v' & Hx & Hy & Hlen)|[Hno|Hgap]]].
  - by apply grade_answer_text_normal.
  - rewrite (grade_answer_text_common_run a b u w v u' v') by done.
    rewrite (grade_answer_text_common_run b a u' w v' u v); [done..|lia].
  - rewrite !grade_answer_text_threshold by done.
    unfold matched_length. fold (normalise a) (normalise b).
    rewrite !DifflibSound.no_common_no_match; [|naive_solver|done].
    rewrite (Z.add_comm (Z.of_nat (length (normalise b)))). done.
  - rewrite !grade_answer_text_threshold by done.
    pose proof (DifflibBounds.matches_bound (normalise a) (normalise b)) as H1.
    pose proof (DifflibBounds.matches_bound (normalise b) (normalise a)) as H2.
    unfold matched_length. fold (normalise a) (normalise b).
    rewrite !decide_False; [done|lia|lia].
Qed.

(** ** Concrete stores and requests, continued *)

Ltac by_decide :=
  match goal with
  | |- ?P =>
      let d := constr:(_ : Decision P) in
      apply (@bool_decide_unpack P d); vm_compute; exact I
  end.

(** [grade_exam_frame] on an instance with one record. *)
Lemma grade_exam_frame_witness :
  exams answered_store !! 1 = Some sitting
  ∧ let o := run (grade_exam 1) answered_store in
    questions (db o) = questions answered_store
    ∧ exam_questions (db o) = exam_questions answered_store
    ∧ audit_logs (db o) = audit_logs answered_store
    ∧ (∀ id, id ≠ 1 → exams (db o) !! id = exams answered_store !! id)
    ∧ (∃ total,
         exams (db o) !! 1
         = Some {| Exam.student_id := Exam.student_id sitting;
                   Exam.start_time := Exam.start_time sitting;
                   Exam.end_time := Exam.end_time sitting;
                   Exam.total_score := total;
                   Exam.status := "completed";
                   Exam.duration_minutes := Exam.duration_minutes sitting;
                   Exam.created_at := Exam.created_at sitting |})
    ∧ dom (exam_answers (db o)) = dom (exam_answers answered_store)
    ∧ ∀ id a,
        exam_answers answered_store !! id = Some a →
        ∃ a', exam_answers (db o) !! id = Some a'
              ∧ ExamAnswer.exam_id a' = ExamAnswer.exam_id a
              ∧ ExamAnswer.question_id a' = ExamAnswer.question_id a
              ∧ ExamAnswer.student_id a' = ExamAnswer.student_id a
              ∧ ExamAnswer.student_answer a' = ExamAnswer.student_answer a
              ∧ (ExamAnswer.exam_id a ≠ 1
                 ∨ questions answered_store !! ExamAnswer.question_id a = None →
                 a' = a).
Proof.
  assert (exams answered_store !! 1 = Some sitting) as H1 by reflexivity.
  split; [exact H1|]. exact (grade_exam_frame answered_store 1 sitting H1).
Defined.

(** [grade_exam_binary_scores] on the same instance. *)
Lemma grade_exam_binary_scores_witness :
  exams answered_store !! 1 = Some sitting
  ∧ let o := run (grade_exam 1) answered_store in
    let records := filter (has_question (db o)) (answers_of (db o) 1) in
    Forall (λ x, ExamAnswer.score x.2 = if ExamAnswer.is_correct x.2 then 1 else 0)
      records
    ∧ value o
      = Return (Z.of_nat (length (filter (λ x, ExamAnswer.is_correct x.2 = true)
                                    records)))
    ∧ (length (filter (λ x, ExamAnswer.is_correct x.2 = true) records)
       ≤ length (answers_of answered_store 1))%nat.
Proof.
  assert (exams answered_store !! 1 = Some sitting) as H1 by reflexivity.
  split; [exact H1|].
  exact (grade_exam_binary_scores answered_store 1 sitting H1).
Defined.

(** [grade_exam_full_marks]: " PARIS" for "Paris". *)
Lemma grade_exam_full_marks_witness :
  exams answered_store !! 1 = Some sitting
  ∧ Forall (λ x : Z * ExamAnswer.t,
              ∃ q text,
                questions answered_store !! ExamAnswer.question_id x.2 = Some q
                ∧ ExamAnswer.student_answer x.2 = Some text
                ∧ text ≠ EmptyString
                ∧ normalise text = normalise (Question.model_answer q))
      (answers_of answered_store 1)
  ∧ let o := run (grade_exam 1) answered_store in
    value o = Return (Z.of_nat (length (answers_of answered_store 1)))
    ∧ Forall (λ x : Z * ExamAnswer.t,
                ExamAnswer.is_correct x.2 = true ∧ ExamAnswer.score x.2 = 1)
        (answers_of (db o) 1).
Proof.
  assert (exams answered_store !! 1 = Some sitting) as H1 by reflexivity.
  assert (Forall (λ x : Z * ExamAnswer.t,
            ∃ q text,
              questions answered_store !! ExamAnswer.question_id x.2 = Some q
              ∧ ExamAnswer.student_answer x.2 = Some text
              ∧ text ≠ EmptyString
              ∧ normalise text = normalise (Question.model_answer q))
            (answers_of answered_store 1)) as H2.
  { apply Forall_cons. split; [|apply Forall_nil_2].
    eexists _, _. split; [reflexivity|]. split; [reflexivity|].
    split; [intros H; discriminate H|]. vm_compute. reflexivity. }
  split; [exact H1|]. split; [exact H2|].
  exact (grade_exam_full_marks answered_store 1 sitting H1 H2).
Defined.

(** [exam_page_within_limit] one second after the start. *)
Lemma exam_page_within_limit_witness :
  exams no_question_store !! 1 = Some sitting
  ∧ Exam.start_time sitting = Some 0
  ∧ 1000000 < 0 + timedelta_minutes (Exam.duration_minutes sitting) + 1000000
  ∧ let limit := 0 + timedelta_minutes (Exam.duration_minutes sitting) in
    run (exam_page 1000000 1 (Some (Exam.student_id sitting))) no_question_store
    = {| value := Return (render_exam (1, sitting)
                            (Z.max 0 ((limit - 1000000) `div` 1000000)));
         db := no_question_store; flashed := [] |}.
Proof.
  assert (exams no_question_store !! 1 = Some sitting) as H1 by reflexivity.
  assert (Exam.start_time sitting = Some 0) as H2 by reflexivity.
  assert (1000000 < 0 + timedelta_minutes (Exam.duration_minutes sitting)
                    + 1000000) as H3 by (vm_compute; reflexivity).
  split; [exact H1|]. split; [exact H2|]. split; [exact H3|].
  exact (exam_page_within_limit no_question_store 1000000 1 sitting 0 H1 H2 H3).
Defined.

(** [exam_page_closed_instance] on a completed instance, two hours after
    its start. *)
Lemma exam_page_closed_instance_witness :
  exams completed_store !! 1 = Some completed
  ∧ Exam.start_time completed = Some 0
  ∧ Exam.status completed ≠ "in-progress"%string
  ∧ 0 + timedelta_minutes (Exam.duration_minutes completed) + 1000000
    ≤ 7200000000
  ∧ run (exam_page 7200000000 1 (Some (Exam.student_id completed)))
      completed_store
    = {| value := Return (redirect (url_results_page 1)); db := completed_store;
         flashed := [] |}.
Proof.
  assert (exams completed_store !! 1 = Some completed) as H1 by reflexivity.
  assert (Exam.start_time completed = Some 0) as H2 by reflexivity.
  assert (Exam.status completed ≠ "in-progress"%string) as H3
    by (intros H; discriminate H).
  assert (0 + timedelta_minutes (Exam.duration_minutes completed) + 1000000
          ≤ 7200000000) as H4 by (vm_compute; intros H; discriminate H).
  split; [exact H1|]. split; [exact H2|]. split; [exact H3|]. split; [exact H4|].
  exact (exam_page_closed_instance completed_store 7200000000 1 completed 0
           H1 H2 H3 H4).
Defined.

(** [submit_exam_expired]: an answer sent a second past the hour. *)
Lemma submit_exam_expired_witness :
  exams no_question_store !! 1 = Some sitting
  ∧ check_time_allowed 3601000000 (1, sitting) = false
  ∧ let data := Some (Some [answer_to 1 "Paris"]) in
    let o := run (submit_exam 3601000000 1 data (Some (Exam.student_id sitting)))
               no_question_store in
    o = run (bind (auto_submit_exam 3601000000 (1, sitting))
               (λ _, bind (flash "Time expired; exam auto-submitted." "warning")
                       (λ _, ret (json_auto_submitted (url_results_page 1)))))
          no_question_store
    ∧ exam_answers (db o)
      = exam_answers
          (db (run (auto_submit_exam 3601000000 (1, sitting)) no_question_store))
    ∧ if decide (unanswered_links no_question_store 1 = []) then
        value o = Return (json_auto_submitted (url_results_page 1))
        ∧ flashed o = [("Time expired; exam auto-submitted."%string,
                        "warning"%string)]
        ∧ db o
          = db (run (auto_submit_exam 3601000000 (1, sitting)) no_question_store)
        ∧ Exam.status <$> exams (db o) !! 1 = Some "auto-submitted"%string
        ∧ Exam.end_time <$> exams (db o) !! 1 = Some (Some 3601000000)
      else value o = Raise IntegrityError ∧ db o = no_question_store
           ∧ flashed o = [].
Proof.
  assert (exams no_question_store !! 1 = Some sitting) as H1 by reflexivity.
  assert (check_time_allowed 3601000000 (1, sitting) = false) as H2
    by reflexivity.
  split; [exact H1|]. split; [exact H2|].
  exact (submit_exam_expired no_question_store 3601000000 1 sitting
           (Some (Some [answer_to 1 "Paris"])) H1 H2).
Defined.

(** [submit_exam_unique_records] on a store with one record. *)
Lemma submit_exam_unique_records_witness :
  unique_records (exam_answers answered_store)
  ∧ unique_records
      (exam_answers
         (db (run (submit_exam 100 1
                     (Some (Some [answer_to 1 "Rome"; answer_to 1 "Paris"]))
                     (Some 1)) answered_store))).
Proof.
  assert (unique_records (exam_answers answered_store)) as H1.
  { intros i j a b Hi Hj _ _. unfold answered_store in Hi, Hj.
    cbn [exam_answers] in Hi, Hj.
    apply lookup_singleton_Some in Hi as [<- _].
    apply lookup_singleton_Some in Hj as [<- _]. reflexivity. }
  split; [exact H1|].
  exact (submit_exam_unique_records answered_store 100 1
           (Some (Some [answer_to 1 "Rome"; answer_to 1 "Paris"])) (Some 1) H1).
Defined.

(** [submit_exam_frame] on a first answer. *)
Lemma submit_exam_frame_witness :
  exams unanswered_store !! 1 = Some sitting
  ∧ check_time_allowed 100 (1, sitting) = true
  ∧ let items := [answer_to 1 "Paris"] in
    let o := run (submit_exam 100 1 (Some (Some items))
                    (Some (Exam.student_id sitting))) unanswered_store in
    questions (db o) = questions unanswered_store
    ∧ exam_questions (db o) = exam_questions unanswered_store
    ∧ audit_logs (db o) = audit_logs unanswered_store
    ∧ (∀ id, id ≠ 1 → exams (db o) !! id = exams unanswered_store !! id)
    ∧ (∃ ex', exams (db o) !! 1 = Some ex'
              ∧ Exam.student_id ex' = Exam.student_id sitting
              ∧ Exam.start_time ex' = Exam.start_time sitting
              ∧ Exam.end_time ex' = Exam.end_time sitting
              ∧ Exam.duration_minutes ex' = Exam.duration_minutes sitting)
    ∧ (∀ id a,
         exam_answers unanswered_store !! id = Some a →
         ∃ a', exam_answers (db o) !! id = Some a'
               ∧ ExamAnswer.exam_id a' = ExamAnswer.exam_id a
               ∧ ExamAnswer.question_id a' = ExamAnswer.question_id a
               ∧ ExamAnswer.student_id a' = ExamAnswer.student_id a
               ∧ (ExamAnswer.exam_id a ≠ 1 → a' = a)
               ∧ ((∀ item, item ∈ items →
                     item_question_id item ≠ Some (ExamAnswer.question_id a)) →
                  ExamAnswer.student_answer a' = ExamAnswer.student_answer a))
    ∧ (∀ id a',
         exam_answers (db o) !! id = Some a' →
         exam_answers unanswered_store !! id = None →
         ExamAnswer.exam_id a' = 1
         ∧ ExamAnswer.student_id a' = Exam.student_id sitting
         ∧ ∃ item, item ∈ items
                   ∧ item_question_id item = Some (ExamAnswer.question_id a')).
Proof.
  assert (exams unanswered_store !! 1 = Some sitting) as H1 by reflexivity.
  assert (check_time_allowed 100 (1, sitting) = true) as H2 by reflexivity.
  split; [exact H1|]. split; [exact H2|].
  exact (submit_exam_frame unanswered_store 100 1 sitting
           [answer_to 1 "Paris"] H1 H2).
Defined.




(** [api_results_data_summary] on an instance with one record. *)
Lemma api_results_data_summary_witness :
  exams answered_store !! 1 = Some sitting
  ∧ let answers := answers_of answered_store 1 in
    let n := Z.of_nat (length answers) in
    let c := Z.of_nat (length (filter (λ a : Z * ExamAnswer.t,
                                         ExamAnswer.is_correct a.2 = true)
                                 answers)) in
    run (api_results_data 1 (Some (Exam.student_id sitting))) answered_store
    = {| value :=
           Return (json_results
                     {| rd_exam_id := 1;
                        rd_total_score := Exam.total_score sitting;
                        max_score := n;
                        correct_count := c;
                        incorrect_count := n - c;
                        topics := if decide (answers = []) then []
                                  else ["General"%string];
                        topic_correct := if decide (answers = []) then []
                                         else [c];
                        topic_total := if decide (answers = []) then []
                                       else [n] |});
         db := answered_store; flashed := [] |}
    ∧ 0 ≤ c ≤ n.
Proof.
  assert (exams answered_store !! 1 = Some sitting) as H1 by reflexivity.
  split; [exact H1|].
  exact (api_results_data_summary answered_store 1 sitting H1).
Defined.

(** [results_page_rows] on an instance with three answers, which the table
    lists in another order than that of their ids. *)
Lemma results_page_rows_witness :
  exams three_answers_store !! 1 = Some sitting
  ∧ ∃ answers rows,
      answers ≡ₚ answers_of three_answers_store 1
      ∧ StronglySorted (λ x y : Z * ExamAnswer.t, x.1 < y.1) answers
      ∧ run (results_page 1 (Some (Exam.student_id sitting))) three_answers_store
        = {| value := if decide (Forall (has_question three_answers_store) answers)
                      then Return (render_results (1, sitting) rows)
                      else Raise AttributeError;
             db := three_answers_store; flashed := [] |}
      ∧ (Forall (has_question three_answers_store) answers →
         Forall2 (λ (x : Z * ExamAnswer.t) r,
                    result_question_id r = ExamAnswer.question_id x.2
                    ∧ result_student_answer r = ExamAnswer.student_answer x.2
                    ∧ result_is_correct r = ExamAnswer.is_correct x.2
                    ∧ result_score r = ExamAnswer.score x.2
                    ∧ ∃ q, questions three_answers_store
                             !! ExamAnswer.question_id x.2 = Some q
                           ∧ result_question_text r = Question.question_text q
                           ∧ correct_answer r = Question.model_answer q)
           answers rows).
Proof.
  assert (exams three_answers_store !! 1 = Some sitting) as H1 by reflexivity.
  split; [exact H1|]. exact (results_page_rows three_answers_store 1 sitting H1).
Defined.

Lemma first_k_subseteq population k : first_k population k ⊆ population.
Proof. apply subseteq_take. Qed.

(** [start_exam_then_questions]: student 2 starts an exam on a pool of
    two questions. *)
Lemma start_exam_then_questions_witness :
  let pool := map_to_list (questions unanswered_store) in
  let selected := first_k pool (Z.min 50 (Z.of_nat (length pool))) in
  let exam_id := next_id (exams unanswered_store) in
  pool ≠ []
  ∧ selected ⊆ pool
  ∧ (∀ id x, exam_questions unanswered_store !! id = Some x →
             is_Some (exams unanswered_store !! ExamQuestion.exam_id x))
  ∧ let o := run (start_exam first_k 100 (Some 2)) unanswered_store in
    value o = Return (redirect (url_exam_page exam_id))
    ∧ run (api_get_exam_questions exam_id (Some 2)) (db o)
      = {| value :=
             Return (json_exam_questions exam_id
                       (question_row_of
                        <$> zip (seqZ 1 (Z.of_nat (length selected))) selected));
           db := db o; flashed := [] |}.
Proof.
  intros pool selected exam_id.
  assert (pool ≠ []) as H1 by (vm_compute; intros H; discriminate H).
  assert (selected ⊆ pool) as H2 by apply first_k_subseteq.
  assert (∀ id x, exam_questions unanswered_store !! id = Some x →
            is_Some (exams unanswered_store !! ExamQuestion.exam_id x)) as H3.
  { intros id x Hx. unfold unanswered_store in Hx.
    cbn [exam_questions] in Hx.
    apply lookup_singleton_Some in Hx as [_ <-]. by eexists. }
  split; [exact H1|]. split; [exact H2|]. split; [exact H3|].
  exact (start_exam_then_questions first_k unanswered_store 100 2 H1 H2 H3).
Defined.

(** [admin_add_question_opens_exams] on the empty store. *)
Lemma admin_add_question_opens_exams_witness :
  "Capital of Italy?"%string ≠ EmptyString
  ∧ "Rome"%string ≠ EmptyString
  ∧ let o := run (admin_add_question 100 POST (Some "Capital of Italy?"%string)
                    (Some "Rome"%string)) empty_store in
    value o = Return (redirect_to admin_dashboard_page)
    ∧ flashed o = [("Question added successfully!"%string, "success"%string)]
    ∧ questions empty_store !! next_id (questions empty_store) = None
    ∧ db o = with_questions
               (insert (next_id (questions empty_store))
                  {| Question.question_text := "Capital of Italy?";
                     Question.model_answer := "Rome";
                     Question.created_at := 100 |}) empty_store
    ∧ ∀ now' student_id,
        value (run (start_exam first_k now' (Some student_id)) (db o))
        = Return (redirect (url_exam_page (next_id (exams empty_store)))).
Proof.
  assert ("Capital of Italy?"%string ≠ EmptyString) as H1
    by (intros H; discriminate H).
  assert ("Rome"%string ≠ EmptyString) as H2 by (intros H; discriminate H).
  split; [exact H1|]. split; [exact H2|].
  exact (admin_add_question_opens_exams first_k empty_store 100
           "Capital of Italy?" "Rome" H1 H2).
Defined.

(** [register_then_login]: the first account. *)
Lemma register_then_login_witness :
  value (run (register 100 POST alice_form ∅) empty_store)
  = Return (redirect_to login_page, {[1 := alice 100]})
  ∧ ∃ s,
      (∅ : gmap Z Student.t) !! next_id (∅ : gmap Z Student.t) = None
      ∧ ({[1 := alice 100]} : gmap Z Student.t)
        = <[next_id (∅ : gmap Z Student.t) := s]> ∅
      ∧ form_fullname alice_form = Some (Student.fullname s)
      ∧ form_username alice_form = Some (Student.username s)
      ∧ form_password alice_form = Some (Student.password s)
      ∧ Student.fullname s ≠ EmptyString
      ∧ Student.username s ≠ EmptyString
      ∧ Student.password s ≠ EmptyString
      ∧ ∀ now' sess st',
          value (run (login now' POST (form_username alice_form)
                        (form_password alice_form) {[1 := alice 100]} sess) st')
          = Return (redirect_to student_dashboard_page,
                    {| session_student_id := Some (next_id (∅ : gmap Z Student.t));
                       session_student_name := Some (Student.fullname s);
                       session_admin_id := None;
                       session_admin_name := None |}).
Proof.
  assert (value (run (register 100 POST alice_form ∅) empty_store)
          = Return (redirect_to login_page, {[1 := alice 100]})) as H1
    by reflexivity.
  split; [exact H1|].
  exact (register_then_login empty_store 100 alice_form ∅ {[1 := alice 100]} H1).
Defined.

(** [grade_answer_text_length_gap] on two spellings of one answer. *)
Lemma grade_answer_text_length_gap_witness :
  (grade_answer_text " Paris" "paris").1 = true
  ∧ let ls := Z.of_nat (length (normalise " Paris")) in
    let lm := Z.of_nat (length (normalise "paris")) in
    3 * (ls `max` lm) ≤ 7 * (ls `min` lm).
Proof.
  assert ((grade_answer_text " Paris" "paris").1 = true) as H1
    by (vm_compute; reflexivity).
  split; [exact H1|]. exact (grade_answer_text_length_gap " Paris" "paris" H1).
Defined.

(** [grade_answer_text_no_common_character]: "abc" against "xyz". *)
Lemma grade_answer_text_no_common_character_witness :
  (∀ c, c ∈ normalise "abc" → c ∉ normalise "xyz")
  ∧ (normalise "abc" ≠ [] ∨ normalise "xyz" ≠ [])
  ∧ grade_answer_text "abc" "xyz" = (false, 0).
Proof.
  assert (∀ c, c ∈ normalise "abc" → c ∉ normalise "xyz") as H1.
  { apply Forall_forall. by_decide. }
  assert (normalise "abc" ≠ [] ∨ normalise "xyz" ≠ []) as H2
    by (left; vm_compute; intros H; discriminate H).
  split; [exact H1|]. split; [exact H2|].
  exact (grade_answer_text_no_common_character "abc" "xyz" H1 H2).
Defined.

(** [grade_answer_text_ignores_padding]: " Paris  " for "Paris". *)
Lemma grade_answer_text_ignores_padding_witness :
  whitespace " " ∧ whitespace "  "
  ∧ grade_answer_text "Paris" (" " +:+ "paris" +:+ "  ")
    = grade_answer_text "Paris" "paris"
  ∧ ("Paris"%string ≠ EmptyString →
     grade_answer_text (" " +:+ "Paris" +:+ "  ") "paris"
     = grade_answer_text "Paris" "paris").
Proof.
  assert (whitespace " ") as H1 by by_decide.
  assert (whitespace "  ") as H2 by by_decide.
  split; [exact H1|]. split; [exact H2|].
  exact (grade_answer_text_ignores_padding " " "  " "Paris" "paris" H1 H2).
Defined.

(** [grade_answer_text_symmetric] on "Paris" and "in Paris": the normal
    forms differ and share the run "paris", 5 characters of 13. *)
Lemma grade_answer_text_symmetric_witness :
  "Paris"%string ≠ EmptyString ∧ "in Paris"%string ≠ EmptyString
  ∧ (length (normalise "Paris") < 200)%nat
  ∧ (length (normalise "in Paris") < 200)%nat
  ∧ normalise "Paris" = [] ++ normalise "paris" ++ []
  ∧ normalise "in Paris" = ["i"; "n"; " "]%char ++ normalise "paris" ++ []
  ∧ (3 * (length (normalise "Paris") + length (normalise "in Paris"))
     ≤ 10 * length (normalise "paris"))%nat
  ∧ grade_answer_text "Paris" "in Paris" = grade_answer_text "in Paris" "Paris".
Proof.
  assert ("Paris"%string ≠ EmptyString) as H1 by (intros H; discriminate H).
  assert ("in Paris"%string ≠ EmptyString) as H2 by (intros H; discriminate H).
  assert (length (normalise "Paris") < 200)%nat as H3 by by_decide.
  assert (length (normalise "in Paris") < 200)%nat as H4 by by_decide.
  assert (normalise "Paris" = [] ++ normalise "paris" ++ []) as H5
    by (vm_compute; reflexivity).
  assert (normalise "in Paris"
          = ["i"; "n"; " "]%char ++ normalise "paris" ++ []) as H6
    by (vm_compute; reflexivity).
  assert (3 * (length (normalise "Paris") + length (normalise "in Paris"))
          ≤ 10 * length (normalise "paris"))%nat as H7 by by_decide.
  split; [exact H1|]. split; [exact H2|]. split; [exact H3|].
  split; [exact H4|]. split; [exact H5|]. split; [exact H6|].
  split; [exact H7|].
  apply (grade_answer_text_symmetric "Paris" "in Paris" H1 H2).
  right. left. split; [exact H3|]. split; [exact H4|].
  exists [], (normalise "paris"), [], ["i"; "n"; " "]%char, [].
  split; [exact H5|]. split; [exact H6|]. exact H7.
Defined.
